(** * A shallow embedding of the unstorage storage engine

    The development follows the TypeScript sources of the repository:

    - [src/utils.ts]                 key utilities            ([Module Utils])
    - [src/types.ts]                 the driver contract      ([Module Types])
    - [src/drivers/utils/index.ts]   driver-side key helpers  ([Module DriverUtils])
    - [src/drivers/memory.ts]        in-memory driver         ([Module Memory])
    - [src/drivers/overlay.ts]       layered driver           ([Module Overlay])
    - [src/drivers/fs.ts]            filesystem driver        ([Module Fs])
    - [src/storage.ts]               mount table and engine   ([Module Storage])
    - [src/server.ts]                HTTP handler             ([Module Server])

    [Module Scenario] holds the concrete storages of the end-to-end scenarios
    and of the repository's tests; the theorems come after all definitions.

    Conventions of the embedding.

    - A JavaScript string is a [string] (a sequence of 8-bit characters); every
      character the sources inspect (':', '/', '\', '?', '.', '$') is ASCII.
    - A promise is identified with its outcome: an asynchronous function is a
      function of the world that returns either a value or a thrown error,
      together with the new world ([M]); a rejected promise and a thrown
      error are the same outcome.  Calls started together under
      [Promise.all] run one after the other, left to right.
    - A JavaScript number is an integer of [Z], or NaN where a conversion can
      produce it ([option Z] with [None] for NaN).
    - A function value that the engine stores or passes on is either an
      action of [M] (an unwatch handle) or a name ([WatchCallback], the
      subscribers of [storage.watch]).
    - Transaction options are dropped except [maxDepth], the only option the
      engine itself inspects. *)

From Stdlib Require Import List Bool Arith ZArith Lia.
From Stdlib Require Import Strings.String Strings.Ascii.
From Stdlib Require Import Sorting.Sorted Sorting.Permutation.
From Stdlib Require Import Numbers.DecimalString.
Import ListNotations.

Local Open Scope string_scope.
Local Open Scope bool_scope.

(* ================================================================== *)
(** * JavaScript strings *)
(* ================================================================== *)

Module JsString.

(** [s.startsWith(p)] *)
Definition startsWith (s p : string) : bool := String.prefix p s.

(** [s.slice(n)] for [0 <= n] *)
Fixpoint slice (n : nat) (s : string) : string :=
  match n, s with
  | O, _ => s
  | S n', String _ r => slice n' r
  | S _, EmptyString => EmptyString
  end.

(** [s[s.length - 1]]: the last character, [None] (undefined) on [""] *)
Fixpoint lastChar (s : string) : option ascii :=
  match s with
  | EmptyString => None
  | String c EmptyString => Some c
  | String _ r => lastChar r
  end.

(** [s.replace(/c/g, d)] for single characters *)
Fixpoint replaceChar (c d : ascii) (s : string) : string :=
  match s with
  | EmptyString => EmptyString
  | String a r =>
      String (if Ascii.eqb a c then d else a) (replaceChar c d r)
  end.

(** [xs.join(sep)] *)
Fixpoint join (sep : string) (xs : list string) : string :=
  match xs with
  | [] => EmptyString
  | [x] => x
  | x :: rest => x ++ sep ++ join sep rest
  end.

(** Number of occurrences of a character, as counted by the
    [indexOf] loop of [filterKeyByDepth]. *)
Fixpoint countChar (c : ascii) (s : string) : nat :=
  match s with
  | EmptyString => O
  | String a r => (if Ascii.eqb a c then 1 else 0) + countChar c r
  end.

(** [[...new Set(xs)]]: first occurrences, in order. *)
Fixpoint dedupe (xs : list string) : list string :=
  match xs with
  | [] => []
  | x :: rest => x :: filter (fun y => negb (String.eqb y x)) (dedupe rest)
  end.

(** A double quote. *)
Definition dquote : string := String (Ascii.ascii_of_nat 34) EmptyString.

(** [JSON.stringify(s)] for a string: quoted, with double quotes and
    backslashes escaped (control characters are left as they are). *)
Fixpoint json_escape (s : string) : string :=
  match s with
  | EmptyString => EmptyString
  | String c r =>
      if Ascii.eqb c (Ascii.ascii_of_nat 34) || Ascii.eqb c "\"
      then String "\" (String c (json_escape r))
      else String c (json_escape r)
  end.

Definition json_string (s : string) : string := dquote ++ json_escape s ++ dquote.

End JsString.

(* ================================================================== *)
(** * JavaScript values *)
(* ================================================================== *)

(** [StorageValue] of [types.ts], with [undefined]; objects are not needed by
    the operations embedded here and are left out. *)
Inductive value : Type :=
  | VUndefined
  | VNull
  | VBool (b : bool)
  | VNumber (n : Z)
  | VString (s : string).

Module JsValue.

Definition is_whitespace (c : ascii) : bool :=
  Ascii.eqb c " " || Ascii.eqb c "009" || Ascii.eqb c "010" || Ascii.eqb c "013".

Definition digit_of (c : ascii) : option Z :=
  let n := nat_of_ascii c in
  if (48 <=? n)%nat && (n <=? 57)%nat then Some (Z.of_nat (n - 48)) else None.

Fixpoint trim_left (s : string) : string :=
  match s with
  | String c r => if is_whitespace c then trim_left r else s
  | EmptyString => EmptyString
  end.

(** Decimal digits, with an accumulator; a white-space tail is accepted. *)
Fixpoint digits (acc : Z) (s : string) : option Z :=
  match s with
  | EmptyString => Some acc
  | String c r =>
      match digit_of c with
      | Some d => digits (10 * acc + d)%Z r
      | None => if is_whitespace c
                then match trim_left r with EmptyString => Some acc | _ => None end
                else None
      end
  end.

(** [StringToNumber]: white space is trimmed, the empty string is [0], a run
    of decimal digits is its value and any other text is NaN.  Signed,
    fractional, exponent and radix-prefixed literals are outside the integer
    model; none of them contains a ':' (see [StringToNumber_colon]). *)
Definition StringToNumber (s : string) : option Z :=
  digits 0 (trim_left s).

(** [ToNumber] *)
Definition ToNumber (v : value) : option Z :=
  match v with
  | VUndefined => None
  | VNull => Some 0%Z
  | VBool b => Some (if b then 1 else 0)%Z
  | VNumber n => Some n
  | VString s => StringToNumber s
  end.

(** [n <= v] for a number [n]: false when [v] converts to NaN. *)
Definition number_le (n : Z) (v : value) : bool :=
  match ToNumber v with
  | Some m => (n <=? m)%Z
  | None => false
  end.

(** [String(n)] and [`${n}`] for an integer *)
Definition number_to_string (n : Z) : string :=
  NilZero.string_of_int (Z.to_int n).

(** [v === "s"] *)
Definition strict_eq_string (v : value) (s : string) : bool :=
  match v with
  | VString t => String.eqb t s
  | _ => false
  end.

(** [v !== null] *)
Definition not_null (v : value) : bool :=
  match v with
  | VNull => false
  | _ => true
  end.

End JsValue.

(* ================================================================== *)
(** * src/utils.ts *)
(* ================================================================== *)

Module Utils.
Import JsString.

(** [key.split("?")[0]]: the text before the first '?'. *)
Fixpoint split_query (s : string) : string :=
  match s with
  | EmptyString => EmptyString
  | String c r => if Ascii.eqb c "?" then EmptyString else String c (split_query r)
  end.

(** [.replace(/[/\]/g, ":")]: the character class is read as the two
    separators named by the comment next to it, '/' and '\'. *)
Definition is_slash (c : ascii) : bool := Ascii.eqb c "/" || Ascii.eqb c "\".

Fixpoint replace_slashes (s : string) : string :=
  match s with
  | EmptyString => EmptyString
  | String c r => String (if is_slash c then ":"%char else c) (replace_slashes r)
  end.

(** [.replace(/:+/g, ":")]: every maximal run of colons becomes one colon. *)
Fixpoint collapse_colons (s : string) : string :=
  match s with
  | EmptyString => EmptyString
  | String c r =>
      if Ascii.eqb c ":" then
        match r with
        | String c' _ => if Ascii.eqb c' ":" then collapse_colons r
                         else String ":" (collapse_colons r)
        | EmptyString => String ":" EmptyString
        end
      else String c (collapse_colons r)
  end.

(** [.replace(/^:|:$/g, "")]: the first alternative can only match at index 0,
    the second only at the last index of what is left. *)
Definition strip_leading (s : string) : string :=
  match s with
  | String c r => if Ascii.eqb c ":" then r else s
  | EmptyString => EmptyString
  end.

Fixpoint strip_trailing (s : string) : string :=
  match s with
  | EmptyString => EmptyString
  | String c r =>
      match r with
      | EmptyString => if Ascii.eqb c ":" then EmptyString else s
      | _ => String c (strip_trailing r)
      end
  end.

Definition strip_ends (s : string) : string := strip_trailing (strip_leading s).

(** [normalizeKey(key?: string)]; [None] is [undefined]. *)
Definition normalizeKey (key : option string) : string :=
  match key with
  | None => ""
  | Some "" => ""
  | Some k => strip_ends (collapse_colons (replace_slashes (split_query k)))
  end.

(** [joinKeys(...keys)] *)
Definition joinKeys (keys : list string) : string :=
  normalizeKey (Some (join ":" keys)).

(** [normalizeBaseKey(base?: string)] *)
Definition normalizeBaseKey (base : option string) : string :=
  let base := normalizeKey base in
  match base with
  | EmptyString => ""
  | _ => base ++ ":"
  end.

(** [filterKeyByDepth(key, depth)].  The parameter is typed
    [number | undefined]; the body compares with [<=], which converts whatever
    it is given with [ToNumber]. *)
Definition filterKeyByDepth (key : string) (depth : value) : bool :=
  match depth with
  | VUndefined => true
  | _ =>
      let substrCount := countChar ":" key in
      JsValue.number_le (Z.of_nat substrCount) depth
  end.

(** [filterKeyByBase(key, base)] *)
Definition filterKeyByBase (key : string) (base : option string) : bool :=
  let not_meta :=
    match lastChar key with
    | Some c => negb (Ascii.eqb c "$")
    | None => true
    end in
  match base with
  | Some (String _ _ as b) => startsWith key b && not_meta
  | _ => not_meta
  end.

End Utils.

(** The shape of the keys [normalizeKey] produces. *)
Module KeyShape.
Import JsString Utils.

(** Every character of the string satisfies [P]. *)
Fixpoint all_chars (P : ascii -> bool) (s : string) : bool :=
  match s with
  | EmptyString => true
  | String c r => P c && all_chars P r
  end.

(** No two adjacent colons. *)
Fixpoint nodouble (s : string) : bool :=
  match s with
  | EmptyString => true
  | String c r =>
      match r with
      | String c' _ => negb (Ascii.eqb c ":" && Ascii.eqb c' ":")
      | EmptyString => true
      end && nodouble r
  end.

Definition noleading (s : string) : bool :=
  match s with
  | String c _ => negb (Ascii.eqb c ":")
  | EmptyString => true
  end.

Definition notrailing (s : string) : bool :=
  match lastChar s with
  | Some c => negb (Ascii.eqb c ":")
  | None => true
  end.

(** The shape of a normalized key: no query mark, no slash or backslash, no
    run of colons, no colon at either end. *)
Definition normalized (s : string) : bool :=
  all_chars (fun c => negb (Ascii.eqb c "?")) s
  && all_chars (fun c => negb (is_slash c)) s
  && nodouble s && noleading s && notrailing s.

End KeyShape.

(* ================================================================== *)
(** * Outcomes, effects and insertion-ordered maps *)
(* ================================================================== *)

(** What a JavaScript function can throw.  [InvalidKey] stands for the error
    that [createError(driver, "Invalid key: ...")] of
    [drivers/utils/index.ts] builds; [H3Error] for h3's [createError]. *)
Inductive Error : Type :=
  | JsError (message : string)
  | TypeError (message : string)
  | InvalidKey (driver key : string)
  | H3Error (statusCode : Z) (statusMessage : string).

(** [error.message] *)
Definition error_message (e : Error) : string :=
  match e with
  | JsError message | TypeError message => message
  | InvalidKey driver key =>
      "[unstorage] [" ++ driver ++ "] Invalid key: " ++ JsString.json_string key
      ++ ". It should not contain .. segments"
  | H3Error _ statusMessage => statusMessage
  end.

Inductive Result (A : Type) : Type :=
  | Ok (a : A)
  | Throw (e : Error).
Arguments Ok {A} a.
Arguments Throw {A} e.

(** A computation over a world [W] that returns or throws. *)
Definition M (W A : Type) : Type := W -> Result A * W.

Definition ret {W A} (a : A) : M W A := fun w => (Ok a, w).

Definition throw {W A} (e : Error) : M W A := fun w => (Throw e, w).

Definition bind {W A B} (m : M W A) (k : A -> M W B) : M W B :=
  fun w =>
    match m w with
    | (Ok a, w') => k a w'
    | (Throw e, w') => (Throw e, w')
    end.

(** [p.catch(handler)] *)
Definition catch {W A} (m : M W A) (handler : Error -> M W A) : M W A :=
  fun w =>
    match m w with
    | (Ok a, w') => (Ok a, w')
    | (Throw e, w') => handler e w'
    end.

Declare Scope js_scope.
Delimit Scope js_scope with js.
Notation "x <- c ;; k" := (bind c (fun x => k))
  (at level 61, c at next level, right associativity) : js_scope.
Notation "c ;;; k" := (bind c (fun _ => k))
  (at level 61, right associativity) : js_scope.
Local Open Scope js_scope.

(** [Promise.all(xs.map(f))]: every call is made, left to right, also after
    one of them has failed; the result is the first failure if there is one. *)
Fixpoint mapM {W A B} (f : A -> M W B) (xs : list A) : M W (list B) :=
  fun w =>
    match xs with
    | [] => (Ok [], w)
    | x :: rest =>
        let '(ry, w') := f x w in
        let '(rys, w'') := mapM f rest w' in
        (match ry, rys with
         | Ok y, Ok ys => Ok (y :: ys)
         | Throw e, _ => Throw e
         | Ok _, Throw e => Throw e
         end, w'')
    end.

(** A [Map<string, V>], or an object used as a dictionary with keys that are
    not array indices: entries are kept in insertion order, which is the order
    [keys()], [Object.entries] and [for ... in] enumerate them in. *)
Module JsMap.
Section WithValue.
Context {V : Type}.

Definition t : Type := list (string * V).

Definition empty : t := [].

Fixpoint get (m : t) (k : string) : option V :=
  match m with
  | [] => None
  | (k', v) :: rest => if String.eqb k' k then Some v else get rest k
  end.

Definition has (m : t) (k : string) : bool :=
  match get m k with Some _ => true | None => false end.

Fixpoint set (m : t) (k : string) (v : V) : t :=
  match m with
  | [] => [(k, v)]
  | (k', v') :: rest =>
      if String.eqb k' k then (k', v) :: rest else (k', v') :: set rest k v
  end.

Fixpoint delete (m : t) (k : string) : t :=
  match m with
  | [] => []
  | (k', v') :: rest =>
      if String.eqb k' k then rest else (k', v') :: delete rest k
  end.

Definition keys (m : t) : list string := map fst m.

End WithValue.
Arguments t V : clear implicits.
End JsMap.

(* ================================================================== *)
(** * src/types.ts: the driver contract *)
(* ================================================================== *)

Module Types.

Inductive WatchEvent : Type := update | remove.

(** The watch callback the engine passes to [driver.watch].  [storage.ts]
    passes one function only, its own [onChange] (a closure over the engine
    context), so the callback is represented by name; [Storage.invoke] below
    gives its behaviour. *)
Inductive WatchCallback : Type := onChange_cb.

(** [MaybePromise<void>], the result of calling an [Unwatch] handle: a
    promise, or [undefined] for a plain function such as [() => {}]. *)
Inductive MaybePromiseVoid : Type := a_promise | not_a_promise.

(** [Unwatch = () => MaybePromise<void>] *)
Definition Unwatch (W : Type) : Type := M W MaybePromiseVoid.

Definition Date : Type := Z.

(** [StorageMeta]: the well-known fields. *)
Record StorageMeta : Type := {
  atime : option Date;
  mtime : option Date;
  ctime : option Date;
  birthtime : option Date;
  size : option Z;
  ttl : option Z;
}.

(** [GetKeysOptions] *)
Record GetKeysOptions : Type := { maxDepth : option Z }.

(** [Driver]: three required operations, the others optional ([None] when the
    driver object has no such property).  [oid] is the identity of the driver
    object, compared by [===]. *)
Record Driver (W : Type) : Type := {
  oid : nat;
  name : string;
  hasItem : string -> M W bool;
  getItem : string -> M W value;
  getItemRaw : option (string -> M W value);
  setItem : option (string -> value -> M W unit);
  setItemRaw : option (string -> value -> M W unit);
  removeItem : option (string -> M W unit);
  getMeta : option (string -> M W (option StorageMeta));
  getKeys : string -> GetKeysOptions -> M W (list string);
  clear : option (string -> M W unit);
  dispose : option (M W unit);
  watch : option (WatchCallback -> M W (Unwatch W));
}.
Arguments oid {W} _.
Arguments name {W} _.
Arguments hasItem {W} _ _ _.
Arguments getItem {W} _ _ _.
Arguments getItemRaw {W} _.
Arguments setItem {W} _.
Arguments setItemRaw {W} _.
Arguments removeItem {W} _.
Arguments getMeta {W} _.
Arguments getKeys {W} _ _ _ _.
Arguments clear {W} _.
Arguments dispose {W} _.
Arguments watch {W} _.

(** [f?.(args)]: call an optional method, do nothing when it is absent. *)
Definition optional_call {W} (f : option (M W unit)) : M W unit :=
  match f with
  | Some m => m
  | None => ret tt
  end.

End Types.

(* ================================================================== *)
(** * src/drivers/utils/index.ts *)
(* ================================================================== *)

Module DriverUtils.

Definition is_sep (c : ascii) : bool :=
  Ascii.eqb c ":" || Ascii.eqb c "/" || Ascii.eqb c "\".

(** [.replace(/[:\/\\]/g, sep)] *)
Fixpoint replace_seps (sep : ascii) (s : string) : string :=
  match s with
  | EmptyString => EmptyString
  | String c r => String (if is_sep c then sep else c) (replace_seps sep r)
  end.

(** [.replace(/^[:\/\\]|[:\/\\]$/g, "")] *)
Definition strip_leading (s : string) : string :=
  match s with
  | String c r => if is_sep c then r else s
  | EmptyString => EmptyString
  end.

Fixpoint strip_trailing (s : string) : string :=
  match s with
  | EmptyString => EmptyString
  | String c r =>
      match r with
      | EmptyString => if is_sep c then EmptyString else s
      | _ => String c (strip_trailing r)
      end
  end.

(** [normalizeKey(key, sep = ":")] *)
Definition normalizeKey (key : option string) (sep : ascii) : string :=
  match key with
  | None => ""
  | Some "" => ""
  | Some k => strip_trailing (strip_leading (replace_seps sep k))
  end.

(** [joinKeys(...keys)]: the segments are normalized one by one, the empty
    ones are dropped ([filter(Boolean)]) and the rest is joined with ':'. *)
Definition joinKeys (keys : list string) : string :=
  JsString.join ":"
    (filter (fun key => negb (String.eqb key ""))
            (map (fun key => normalizeKey (Some key) ":") keys)).

End DriverUtils.

(* ================================================================== *)
(** * src/drivers/memory.ts *)
(* ================================================================== *)

(** The heap of [Map] objects that memory drivers close over: every call of
    the factory [memory()] creates one map, named here by a location. *)
Definition loc : Type := nat.
Definition heap : Type := loc -> JsMap.t value.

Definition heap_upd (h : heap) (l : loc) (m : JsMap.t value) : heap :=
  fun l' => if Nat.eqb l' l then m else h l'.

Definition heap0 : heap := fun _ => JsMap.empty.

Module Memory.
Import Types.

(** [data.get(key) ?? null] *)
Definition get_or_null (data : JsMap.t value) (key : string) : value :=
  match JsMap.get data key with
  | Some VUndefined | Some VNull | None => VNull
  | Some v => v
  end.

Definition data_set (l : loc) (key : string) (v : value) : M heap unit :=
  fun h => (Ok tt, heap_upd h l (JsMap.set (h l) key v)).

Definition data_clear (l : loc) : M heap unit :=
  fun h => (Ok tt, heap_upd h l JsMap.empty).

(** The driver object returned by [memory()], closing over the map at [l]. *)
Definition memory (l : loc) : Driver heap := {|
  oid := l;
  name := "memory";
  hasItem := fun key h => (Ok (JsMap.has (h l) key), h);
  getItem := fun key h => (Ok (get_or_null (h l) key), h);
  getItemRaw := Some (fun key h => (Ok (get_or_null (h l) key), h));
  setItem := Some (data_set l);
  setItemRaw := Some (data_set l);
  removeItem := Some (fun key h => (Ok tt, heap_upd h l (JsMap.delete (h l) key)));
  getMeta := None;
  getKeys := fun _ _ h => (Ok (JsMap.keys (h l)), h);
  clear := Some (fun _ => data_clear l);
  dispose := Some (data_clear l);
  watch := None;
|}.

End Memory.

(* ================================================================== *)
(** * src/drivers/overlay.ts *)
(* ================================================================== *)

Module Overlay.
Import Types.
Section WithWorld.
Context {W : Type}.

Definition OVERLAY_REMOVED : string := "__OVERLAY_REMOVED__".

(** [options.layers[0]] *)
Definition top (layers : list (Driver W)) : option (Driver W) := hd_error layers.

(** [await options.layers[0]?.getItem(key)] *)
Definition top_getItem (layers : list (Driver W)) (key : string) : M W value :=
  match top layers with
  | Some l0 => getItem l0 key
  | None => ret VUndefined
  end.

(** The loop of [hasItem]; [layers] is the whole list, [rest] what is left. *)
Fixpoint hasItem_loop (layers rest : list (Driver W)) (key : string) : M W bool :=
  match rest with
  | [] => ret false
  | layer :: rest' =>
      found <- hasItem layer key ;;
      if found : bool then
        if match top layers with
           | Some l0 => Nat.eqb (oid layer) (oid l0)
           | None => false
           end
        then
          topLayerValue <- top_getItem layers key ;;
          if JsValue.strict_eq_string topLayerValue OVERLAY_REMOVED
          then ret false
          else ret true
        else ret true
      else hasItem_loop layers rest' key
  end.

(** The loop of [getItem]. *)
Fixpoint getItem_loop (layers : list (Driver W)) (key : string) : M W value :=
  match layers with
  | [] => ret VNull
  | layer :: rest =>
      value <- getItem layer key ;;
      if JsValue.strict_eq_string value OVERLAY_REMOVED then ret VNull
      else if JsValue.not_null value then ret value
      else getItem_loop rest key
  end.

(** Reading [key] from each of [layers] in turn gives [null] every time;
    the worlds are the ones before the first and after the last read. *)
Inductive all_null (key : string) : list (Driver W) -> W -> W -> Prop :=
  | all_null_nil w : all_null key [] w w
  | all_null_cons layer rest w w1 w2 :
      getItem layer key w = (Ok VNull, w1) ->
      all_null key rest w1 w2 ->
      all_null key (layer :: rest) w w2.

(** [await options.layers[0]?.setItem?.(key, value, opts)] *)
Definition top_setItem (layers : list (Driver W)) (key : string) (v : value)
  : M W unit :=
  match top layers with
  | Some l0 =>
      match setItem l0 with
      | Some set => set key v
      | None => ret tt
      end
  | None => ret tt
  end.

(** [existingKeys.filter(Boolean)] on an array of keys and [false]s: [None]
    is [false]; the empty string is falsy too. *)
Definition truthy_key (k : option string) : list string :=
  match k with
  | Some (String _ _ as key) => [key]
  | _ => []
  end.

Definition getKeys_overlay (layers : list (Driver W)) (base : string)
  (opts : GetKeysOptions) : M W (list string) :=
  allKeysNested <-
    mapM (fun layer =>
            keys <- getKeys layer base opts ;;
            ret (map (fun key => DriverUtils.normalizeKey (Some key) ":") keys))
         layers ;;
  let uniqueKeys := JsString.dedupe (List.concat allKeysNested) in
  existingKeys <-
    mapM (fun key =>
            topLayerValue <- top_getItem layers key ;;
            if JsValue.strict_eq_string topLayerValue OVERLAY_REMOVED
            then ret None
            else ret (Some key))
         uniqueKeys ;;
  ret (flat_map truthy_key existingKeys).

(** The driver object the factory returns for [options.layers]. *)
Definition overlay (id : nat) (layers : list (Driver W)) : Driver W := {|
  oid := id;
  name := "overlay";
  hasItem := hasItem_loop layers layers;
  getItem := getItem_loop layers;
  getItemRaw := None;
  setItem := Some (top_setItem layers);
  setItemRaw := None;
  removeItem := Some (fun key => top_setItem layers key (VString OVERLAY_REMOVED));
  getMeta := None;
  getKeys := getKeys_overlay layers;
  clear := None;
  dispose :=
    Some (mapM (fun layer => optional_call (dispose layer)) layers ;;; ret tt);
  watch := None;
|}.

End WithWorld.
End Overlay.

(* ================================================================== *)
(** * Regular expressions (the fragment [fs.ts] uses) *)
(* ================================================================== *)

Module Regex.

Inductive re : Type :=
  | Chr (c : ascii)        (* a literal character, e.g. [\.] or [:] *)
  | Cat (a b : re)         (* concatenation *)
  | Alt (a b : re)         (* [a|b] *)
  | Eos.                   (* [$], the end of the input (no [m] flag) *)

(** [accept r s k]: [r] matches a prefix of [s] and [k] accepts the rest. *)
Fixpoint accept (r : re) (s : string) (k : string -> bool) : bool :=
  match r with
  | Chr c =>
      match s with
      | String c' s' => Ascii.eqb c' c && k s'
      | EmptyString => false
      end
  | Cat a b => accept a s (fun s' => accept b s' k)
  | Alt a b => accept a s k || accept b s k
  | Eos =>
      match s with
      | EmptyString => k s
      | _ => false
      end
  end.

(** [r.test(s)]: a match starting at some index of [s]. *)
Fixpoint test (r : re) (s : string) : bool :=
  accept r s (fun _ => true)
  || match s with
     | String _ s' => test r s'
     | EmptyString => false
     end.

End Regex.

(* ================================================================== *)
(** * src/drivers/fs.ts *)
(* ================================================================== *)

Module Fs.
Import Types.
Section WithWorld.
Context {W : Type}.

(** The functions of [node:fs], [node:path], [chokidar] and the repository's
    [drivers/utils/node-fs.ts] that the driver calls.  None of them is among
    the embedded sources; the driver is embedded over any implementation. *)
Record NodeFs : Type := {
  resolve : string -> string;
  join : string -> string -> string;
  existsSync : string -> M W bool;
  readFile : string -> option string -> M W value;
  writeFile : string -> value -> option string -> M W unit;
  unlink : string -> M W unit;
  readdirRecursive : string -> option Z -> M W (list string);
  rmRecursive : string -> M W unit;
  stat : string -> M W StorageMeta;
  chokidar_watch : string -> WatchCallback -> M W (Unwatch W);
  watcher_close : M W unit;
}.

(** [FSStorageOptions] ([ignore] and [watchOptions] only reach the functions
    above and are left to them). *)
Record FSStorageOptions : Type := {
  base : option string;
  readOnly : bool;
  noClear : bool;
}.

(** [const PATH_TRAVERSE_RE = /\.\.:|\.\.$/] *)
Definition PATH_TRAVERSE_RE : Regex.re :=
  Regex.Alt (Regex.Cat (Regex.Chr ".") (Regex.Cat (Regex.Chr ".") (Regex.Chr ":")))
            (Regex.Cat (Regex.Chr ".") (Regex.Cat (Regex.Chr ".") Regex.Eos)).

Definition DRIVER_NAME : string := "fs".

(** The pattern in the words of the specification: the key contains the
    substring "..:" or ends with "..". *)
Definition traversal_pattern (key : string) : Prop :=
  (exists pre post, key = pre ++ "..:" ++ post) \/ (exists pre, key = pre ++ "..").

Context (node : NodeFs).

(** [const r = (key) => ...], with [base] the resolved base directory. *)
Definition r (base : string) (key : string) : Result string :=
  if Regex.test PATH_TRAVERSE_RE key then
    Throw (InvalidKey DRIVER_NAME key)
  else
    let resolved := join node base (JsString.replaceChar ":" "/" key) in
    Ok resolved.

(** Evaluate an argument that may throw, then go on. *)
Definition with_path {A} (p : Result string) (k : string -> M W A) : M W A :=
  match p with
  | Ok path => k path
  | Throw e => throw e
  end.

Definition empty_meta : StorageMeta :=
  {| atime := None; mtime := None; ctime := None; birthtime := None;
     size := None; ttl := None |}.

(** The driver object built by the factory once [userOptions.base] is known
    to be present; [base] is [resolve(userOptions.base)]. *)
Definition driver_object (id : nat) (userOptions : FSStorageOptions)
  (base : string) : Driver W := {|
  oid := id;
  name := DRIVER_NAME;
  hasItem := fun key => with_path (r base key) (existsSync node);
  getItem := fun key => with_path (r base key) (fun p => readFile node p (Some "utf8"));
  getItemRaw := Some (fun key => with_path (r base key) (fun p => readFile node p None));
  getMeta :=
    Some (fun key =>
            with_path (r base key) (fun p =>
              m <- catch (stat node p) (fun _ => ret empty_meta) ;;
              ret (Some {| atime := atime m; mtime := mtime m; ctime := ctime m;
                           birthtime := birthtime m; size := size m;
                           ttl := None |})));
  setItem :=
    Some (fun key v =>
            if readOnly userOptions then ret tt
            else with_path (r base key) (fun p => writeFile node p v (Some "utf8")));
  setItemRaw :=
    Some (fun key v =>
            if readOnly userOptions then ret tt
            else with_path (r base key) (fun p => writeFile node p v None));
  removeItem :=
    Some (fun key =>
            if readOnly userOptions then ret tt
            else with_path (r base key) (unlink node));
  getKeys := fun _base topts =>
    with_path (r base _base) (fun p => readdirRecursive node p (maxDepth topts));
  clear :=
    Some (fun _ =>
            if readOnly userOptions || noClear userOptions then ret tt
            else with_path (r base ".") (rmRecursive node));
  dispose := Some (watcher_close node);
  watch := Some (chokidar_watch node base);
|}.

(** The factory: [defineDriver((userOptions) => ...)]. *)
Definition fsDriver (id : nat) (userOptions : FSStorageOptions)
  : Result (Driver W) :=
  match base userOptions with
  | None | Some EmptyString =>
      Throw (JsError "[unstorage] [fs] Missing required option `base`.")
  | Some b => Ok (driver_object id userOptions (resolve node b))
  end.

End WithWorld.
End Fs.

(* ================================================================== *)
(** * src/storage.ts *)
(* ================================================================== *)

(** Functions that [storage.ts] and [server.ts] import from outside the
    embedded sources: [destr] (package destr), [stringify], [serializeRaw] and
    [deserializeRaw] ([_utils.ts]) and [Date.prototype.toUTCString]. *)
Class Externals : Type := {
  destr : value -> value;
  stringify : value -> Result string;
  serializeRaw : value -> Result string;
  deserializeRaw : value -> value;
  toUTCString : Types.Date -> string;
}.

Module Storage.
Import Types JsString Utils.

(** A subscriber passed to [storage.watch]: an opaque function, named by a
    number; calling it is recorded as a [ListenerCall]. *)
Definition Listener : Type := nat.
Definition ListenerCall : Type := (Listener * WatchEvent * string)%type.

(** [xs.sort((a, b) => b.length - a.length)]: [Array.prototype.sort] is a
    stable sort, here by insertion. *)
Fixpoint sort_insert (x : string) (xs : list string) : list string :=
  match xs with
  | [] => [x]
  | y :: rest =>
      if (String.length y <=? String.length x)%nat then x :: y :: rest
      else y :: sort_insert x rest
  end.

Definition sort_by_length_desc (xs : list string) : list string :=
  fold_right sort_insert [] xs.

(** Descending by length, as [mount] leaves the list. *)
Definition longer_first (a b : string) : Prop :=
  (String.length b <= String.length a)%nat.

Definition sorted_desc (xs : list string) : Prop := StronglySorted longer_first xs.

(** [xs.splice(xs.indexOf(x), 1)]: drops the first occurrence of [x]; when
    there is none [indexOf] is [-1] and [splice(-1, 1)] drops the last
    element. *)
Fixpoint remove_first {A} (eqb : A -> A -> bool) (x : A) (xs : list A)
  : option (list A) :=
  match xs with
  | [] => None
  | y :: rest =>
      if eqb y x then Some rest
      else match remove_first eqb x rest with
           | Some rest' => Some (y :: rest')
           | None => None
           end
  end.

Definition splice_indexOf {A} (eqb : A -> A -> bool) (x : A) (xs : list A)
  : list A :=
  match remove_first eqb x xs with
  | Some xs' => xs'
  | None => removelast xs
  end.

Section WithWorld.
Context {W : Type} `{Externals}.

(** [interface StorageCTX] *)
Record StorageCTX : Type := {
  mounts : JsMap.t (Driver W);
  mountpoints : list string;
  watching : bool;
  unwatch : JsMap.t (Unwatch W);
  watchListeners : list Listener;
}.

Definition set_unwatch (context : StorageCTX) (u : JsMap.t (Unwatch W)) :=
  {| mounts := mounts context; mountpoints := mountpoints context;
     watching := watching context; unwatch := u;
     watchListeners := watchListeners context |}.

Definition set_watching (context : StorageCTX) (b : bool) :=
  {| mounts := mounts context; mountpoints := mountpoints context;
     watching := b; unwatch := unwatch context;
     watchListeners := watchListeners context |}.

Definition set_watchListeners (context : StorageCTX) (ls : list Listener) :=
  {| mounts := mounts context; mountpoints := mountpoints context;
     watching := watching context; unwatch := unwatch context;
     watchListeners := ls |}.

(** The initial context of [createStorage(options)]; [fresh] is the driver
    that [memory()] returns when [options.driver] is absent. *)
Definition createStorage (options_driver : option (Driver W))
  (fresh : Driver W) : StorageCTX := {|
  mounts := [("", match options_driver with Some d => d | None => fresh end)];
  mountpoints := [""];
  watching := false;
  watchListeners := [];
  unwatch := [];
|}.

(** The object [getMount] returns; [driver] is [context.mounts[base]], which
    is [undefined] ([None]) for a base the map does not hold. *)
Record Mount : Type := {
  base : string;
  relativeKey : string;
  driver : option (Driver W);
}.

Fixpoint getMount_loop (context : StorageCTX) (bases : list string)
  (key : string) : Mount :=
  match bases with
  | [] =>
      {| base := ""; relativeKey := key;
         driver := JsMap.get (mounts context) "" |}
  | b :: rest =>
      if startsWith key b then
        {| base := b; relativeKey := slice (String.length b) key;
           driver := JsMap.get (mounts context) b |}
      else getMount_loop context rest key
  end.

Definition getMount (context : StorageCTX) (key : string) : Mount :=
  getMount_loop context (mountpoints context) key.

Record MountsEntry : Type := {
  relativeBase : option string;
  mountpoint : string;
  mdriver : option (Driver W);
}.

Definition getMounts (context : StorageCTX) (base : string)
  (includeParent : bool) : list MountsEntry :=
  map (fun mountpoint =>
         {| relativeBase :=
              if (String.length mountpoint <? String.length base)%nat
              then Some (slice (String.length mountpoint) base)
              else None;
            mountpoint := mountpoint;
            mdriver := JsMap.get (mounts context) mountpoint |})
      (filter (fun mountpoint =>
                 startsWith mountpoint base
                 || (includeParent && startsWith base mountpoint))
              (mountpoints context)).

(** [onChange]: the calls of the registered listeners, in order. *)
Definition onChange (context : StorageCTX) (event : WatchEvent) (key : string)
  : list ListenerCall :=
  if negb (watching context) then []
  else
    let key := normalizeKey (Some key) in
    map (fun listener => (listener, event, key)) (watchListeners context).

(** What calling a [WatchCallback] does. *)
Definition invoke (cb : WatchCallback) (context : StorageCTX)
  (event : WatchEvent) (key : string) : list ListenerCall :=
  match cb with
  | onChange_cb => onChange context event key
  end.

(** [function watch(driver, onChange, base)] at the end of the file. *)
Definition watch (driver : Driver W) (onChange : WatchCallback) (base : string)
  : M W (Unwatch W) :=
  match Types.watch driver with
  | Some driver_watch => driver_watch onChange
  | None => ret (ret not_a_promise)
  end.

(** [function dispose(driver)] *)
Definition dispose (driver : Driver W) : M W unit :=
  match Types.dispose driver with
  | Some driver_dispose => driver_dispose
  | None => ret tt
  end.

(** The [for ... in context.mounts] loop of [startWatch]; an error of a
    driver ends the loop (the caller logs it). *)
Fixpoint startWatch_loop (entries : list (string * Driver W))
  (context : StorageCTX) : W -> StorageCTX * W :=
  fun w =>
    match entries with
    | [] => (context, w)
    | (mountpoint, d) :: rest =>
        match watch d onChange_cb mountpoint w with
        | (Ok u, w') =>
            startWatch_loop rest
              (set_unwatch context (JsMap.set (unwatch context) mountpoint u)) w'
        | (Throw _, w') => (context, w')
        end
    end.

Definition startWatch (context : StorageCTX) : W -> StorageCTX * W :=
  if watching context then fun w => (context, w)
  else startWatch_loop (mounts context) (set_watching context true).

(** [await context.unwatch[mountpoint]()] for every stored handle. *)
Fixpoint stopWatch_loop (handles : list (string * Unwatch W)) : M W unit :=
  match handles with
  | [] => ret tt
  | (_, u) :: rest => (u ;;; stopWatch_loop rest)%js
  end.

Definition stopWatch (context : StorageCTX) : M W StorageCTX :=
  if negb (watching context) then ret context
  else
    (stopWatch_loop (unwatch context) ;;;
     ret (set_watching (set_unwatch context []) false))%js.

(** Modelled from the spec: [asyncCall] of [_utils.ts], which is not among
    the embedded sources.  Section 5 of the specification: synchronous
    implementations are lifted into the asynchronous surface, so the call of a
    method is the method's outcome; calling an absent method is a TypeError. *)
Definition asyncCall {A} (f : option (M W A)) : M W A :=
  match f with
  | Some m => m
  | None => throw (TypeError "function_ is not a function")
  end.

(** Reading a property of [driver] when [context.mounts[base]] is undefined. *)
Definition with_driver {A} (m : Mount) (k : Driver W -> M W A) : M W A :=
  match driver m with
  | Some d => k d
  | None => throw (TypeError "Cannot read properties of undefined")
  end.

Definition of_result {A} (r : Result A) : M W A :=
  match r with
  | Ok a => ret a
  | Throw e => throw e
  end.

(** ** The methods of the [storage] object *)

Definition storage_hasItem (context : StorageCTX) (key : string) : M W bool :=
  let key := normalizeKey (Some key) in
  let m := getMount context key in
  with_driver m (fun driver => asyncCall (Some (hasItem driver (relativeKey m)))).

Definition storage_getItem (context : StorageCTX) (key : string) : M W value :=
  let key := normalizeKey (Some key) in
  let m := getMount context key in
  with_driver m (fun driver =>
    value <- asyncCall (Some (getItem driver (relativeKey m))) ;;
    ret (destr value)).

Definition storage_getItemRaw (context : StorageCTX) (key : string) : M W value :=
  let key := normalizeKey (Some key) in
  let m := getMount context key in
  with_driver m (fun driver =>
    match getItemRaw driver with
    | Some driver_getItemRaw => asyncCall (Some (driver_getItemRaw (relativeKey m)))
    | None =>
        value <- asyncCall (Some (getItem driver (relativeKey m))) ;;
        ret (deserializeRaw value)
    end).

Definition storage_setItem (context : StorageCTX) (key : string) (v : value)
  : M W unit :=
  let key := normalizeKey (Some key) in
  let m := getMount context key in
  with_driver m (fun driver =>
    match setItemRaw driver with
    | Some driver_setItemRaw => asyncCall (Some (driver_setItemRaw (relativeKey m) v))
    | None =>
        text <- of_result (stringify v) ;;
        asyncCall (option_map (fun f => f (relativeKey m) (VString text))
                              (setItem driver))
    end).

Definition storage_setItemRaw (context : StorageCTX) (key : string) (v : value)
  : M W unit :=
  let key := normalizeKey (Some key) in
  let m := getMount context key in
  with_driver m (fun driver =>
    match setItemRaw driver with
    | Some driver_setItemRaw => asyncCall (Some (driver_setItemRaw (relativeKey m) v))
    | None =>
        text <- of_result (serializeRaw v) ;;
        asyncCall (option_map (fun f => f (relativeKey m) (VString text))
                              (setItem driver))
    end).

Definition storage_removeItem (context : StorageCTX) (key : string) : M W unit :=
  let key := normalizeKey (Some key) in
  let m := getMount context key in
  with_driver m (fun driver =>
    match removeItem driver with
    | None => ret tt
    | Some driver_removeItem => asyncCall (Some (driver_removeItem (relativeKey m)))
    end).

Definition storage_getMeta (context : StorageCTX) (key : string)
  : M W (option StorageMeta) :=
  let key := normalizeKey (Some key) in
  let m := getMount context key in
  with_driver m (fun driver =>
    match getMeta driver with
    | None => ret None
    | Some driver_getMeta => asyncCall (Some (driver_getMeta (relativeKey m)))
    end).

(** [relativeBase || ""] *)
Definition or_empty (s : option string) : string :=
  match s with Some t => t | None => "" end.

Definition entry_driver {A} (e : MountsEntry) (k : Driver W -> M W A) : M W A :=
  match mdriver e with
  | Some d => k d
  | None => throw (TypeError "Cannot read properties of undefined")
  end.

Definition storage_clear (context : StorageCTX) (base : option string)
  : M W unit :=
  let base := normalizeBaseKey base in
  mapM (fun e =>
          entry_driver e (fun driver =>
            match clear driver with
            | None => ret tt
            | Some driver_clear =>
                asyncCall (Some (driver_clear (or_empty (relativeBase e))))
            end))
       (getMounts context base true) ;;;
  ret tt.

(** [getKeys(base = "", opts = {})].  The filter is written
    [filterKeyByDepth(key, base, opts.maxDepth)]: [filterKeyByDepth] has two
    parameters, so it receives [base] as its [depth] and the third argument
    is discarded. *)
Definition storage_getKeys (context : StorageCTX) (base : option string)
  (opts : GetKeysOptions) : M W (list string) :=
  let base := normalizeBaseKey base in
  keys <-
    mapM (fun e =>
            catch
              (entry_driver e (fun driver =>
                 keys <- asyncCall (Some (getKeys driver (or_empty (relativeBase e)) opts)) ;;
                 ret (filter (fun key => filterKeyByDepth key (VString base))
                             (map (fun key => joinKeys [mountpoint e; key]) keys))))
              (fun _ => ret []))
         (getMounts context base false) ;;
  ret (filter (fun key => filterKeyByBase key (Some base))
              (dedupe (List.concat keys))).

(** [storage.watch(callback)]: the context once [startWatch] has run. *)
Definition storage_watch (context : StorageCTX) (callback : Listener)
  : W -> StorageCTX * W :=
  let context := set_watchListeners context (watchListeners context ++ [callback]) in
  if negb (watching context) then startWatch context
  else fun w => (context, w).

(** The function [storage.watch] resolves to.  The listener is removed also
    when [stopWatch] then fails. *)
Definition storage_watch_unwatch (context : StorageCTX) (callback : Listener)
  : W -> Result unit * StorageCTX * W :=
  fun w =>
    let context :=
      set_watchListeners context
        (splice_indexOf Nat.eqb callback (watchListeners context)) in
    match watchListeners context with
    | [] =>
        if watching context then
          match stopWatch context w with
          | (Ok context', w') => (Ok tt, context', w')
          | (Throw e, w') => (Throw e, context, w')
          end
        else (Ok tt, context, w)
    | _ => (Ok tt, context, w)
    end.

(** [storage.unwatch()] *)
Definition storage_unwatch (context : StorageCTX)
  : W -> Result unit * StorageCTX * W :=
  fun w =>
    let context := set_watchListeners context [] in
    match stopWatch context w with
    | (Ok context', w') => (Ok tt, context', w')
    | (Throw e, w') => (Throw e, context, w')
    end.

(** [storage.mount(base, driver)]; [None] is a null or undefined driver.
    The result is the context after the call. *)
Definition storage_mount (context : StorageCTX) (base : string)
  (driver : option (Driver W)) : M W StorageCTX :=
  let base := normalizeBaseKey (Some base) in
  if String.eqb base "" || JsMap.has (mounts context) base then
    throw (JsError ("Cannot mount to an existing mountpoint: "
                    ++ dquote ++ base ++ dquote))
  else
    match driver with
    | None => throw (JsError "Cannot mount empty driver")
    | Some driver =>
        let context :=
          {| mounts := JsMap.set (mounts context) base driver;
             mountpoints := sort_by_length_desc (mountpoints context ++ [base]);
             watching := watching context;
             unwatch := unwatch context;
             watchListeners := watchListeners context |} in
        if watching context then
          catch
            (u <- watch driver onChange_cb base ;;
             ret (set_unwatch context (JsMap.set (unwatch context) base u)))
            (fun _ => ret context)
        else ret context
    end.

(** [context.unwatch[base]!().catch(console.error)]: a handle that returns a
    promise has its failure logged; one that returns [undefined] makes
    [.catch] a TypeError. *)
Definition call_and_catch (u : Unwatch W) : M W unit :=
  fun w =>
    match u w with
    | (Ok a_promise, w') => (Ok tt, w')
    | (Ok not_a_promise, w') =>
        (Throw (TypeError "Cannot read properties of undefined (reading 'catch')"), w')
    | (Throw _, w') => (Ok tt, w')
    end.

(** [storage.unmount(base)] *)
Definition storage_unmount (context : StorageCTX) (base : string)
  : M W StorageCTX :=
  let base := normalizeBaseKey (Some base) in
  if String.eqb base "" then throw (JsError "Cannot unmount root")
  else if negb (JsMap.has (mounts context) base) then ret context
  else
    let remove_mount (context : StorageCTX) :=
      {| mounts := JsMap.delete (mounts context) base;
         mountpoints := splice_indexOf String.eqb base (mountpoints context);
         watching := watching context;
         unwatch := unwatch context;
         watchListeners := watchListeners context |} in
    match (if watching context then JsMap.get (unwatch context) base else None) with
    | Some u =>
        call_and_catch u ;;;
        ret (remove_mount (set_unwatch context (JsMap.delete (unwatch context) base)))
    | None => ret (remove_mount context)
    end.

(** [storage.dispose()]; [fresh] is the driver the final [memory()] returns. *)
Definition storage_dispose (context : StorageCTX) (fresh : Driver W)
  : W -> StorageCTX * W :=
  fun w =>
    let '(context, w) :=
      match stopWatch context w with
      | (Ok context', w') => (context', w')
      | (Throw _, w') => (context, w')
      end in
    let '(_, w) :=
      mapM (fun entry => catch (dispose (snd entry)) (fun _ => ret tt))
           (mounts context) w in
    ({| mounts := [("", fresh)];
        mountpoints := [""];
        watching := watching context;
        watchListeners := [];
        unwatch := [] |}, w).

(** Contexts that the operations of a storage object produce. *)
Inductive reachable : StorageCTX -> Prop :=
  | reach_create options_driver fresh :
      reachable (createStorage options_driver fresh)
  | reach_mount context base driver w context' w' :
      reachable context ->
      storage_mount context base driver w = (Ok context', w') ->
      reachable context'
  | reach_unmount context base w context' w' :
      reachable context ->
      storage_unmount context base w = (Ok context', w') ->
      reachable context'
  | reach_watch context callback w context' w' :
      reachable context ->
      storage_watch context callback w = (context', w') ->
      reachable context'
  | reach_watch_unwatch context callback w r context' w' :
      reachable context ->
      storage_watch_unwatch context callback w = (r, context', w') ->
      reachable context'
  | reach_unwatch context w r context' w' :
      reachable context ->
      storage_unwatch context w = (r, context', w') ->
      reachable context'
  | reach_dispose context fresh w context' w' :
      reachable context ->
      storage_dispose context fresh w = (context', w') ->
      reachable context'.

(** What every reachable context satisfies: the mount list is sorted by
    descending length, holds the root base, has no duplicates, and lists
    exactly the keys of the [mounts] dictionary. *)
Definition mount_inv (context : StorageCTX) : Prop :=
  sorted_desc (mountpoints context)
  /\ In "" (mountpoints context)
  /\ NoDup (mountpoints context)
  /\ NoDup (JsMap.keys (mounts context))
  /\ (forall b, In b (mountpoints context) <-> JsMap.has (mounts context) b = true).


End WithWorld.
End Storage.

(* ================================================================== *)
(** * src/storage.ts: the batch operations *)
(* ================================================================== *)

(** A call that can throw before it has returned its promise ([threw]), or
    that returns a promise with the given outcome ([promised]).  The two
    differ under [xs.map(f)]: a throw ends the [map] and leaves the calls for
    the later elements unmade, a rejected promise does not. *)
Inductive Started (A : Type) : Type :=
  | threw (e : Error)
  | promised (r : Result A).
Arguments threw {A} e.
Arguments promised {A} r.

Module StorageBatch.
Import Types JsString Utils Storage.

(** An element of the [items] argument of [getItems] and [setItems]: a key,
    or an object with a [key] and a [value] (its [options] are dropped). *)
(** [StorageValue] of [types.ts] (with [undefined]), under its own name:
    the field [value] of the entries below takes the short name. *)
Definition StorageValue : Type := value.

Inductive Item : Type :=
  | ItemKey (k : string)
  | ItemObject (k : string) (v : StorageValue).

(** [isStringItem ? item : item.key] and [isStringItem ? undefined : item.value] *)
Definition item_key (item : Item) : string :=
  match item with ItemKey k | ItemObject k _ => k end.

Definition item_value (item : Item) : StorageValue :=
  match item with ItemKey _ => VUndefined | ItemObject _ v => v end.

(** An element of [BatchItem.items]. *)
Record BatchEntry : Type := {
  key : string;
  value : StorageValue;
  relativeKey : string;
}.

Section WithWorld.
Context {W : Type} `{Externals}.

(** The optional members [getItems] and [setItems] of a driver object.
    [Types.Driver] lists the members the single-item operations use; these
    two are read from the driver object through [batch_methods].  The items
    a driver receives and returns are pairs of [key] and [value]. *)
Record BatchMethods : Type := {
  getItems : option (list (string * StorageValue) -> M W (list (string * StorageValue)));
  setItems : option (list (string * StorageValue) -> M W unit);
}.

Variable batch_methods : Driver W -> BatchMethods.

(** [type BatchItem] *)
Record BatchItem : Type := {
  driver : option (Driver W);
  base : string;
  items : list BatchEntry;
}.

(** [Promise.all(xs.map(f))] for a callback that can throw: the calls are
    made left to right until one throws; when none throws the promise is
    rejected with the first rejection, if there is one. *)
Fixpoint map_promise_all {A B} (f : A -> W -> Started B * W) (xs : list A)
  : W -> Started (list B) * W :=
  fun w =>
    match xs with
    | [] => (promised (Ok []), w)
    | x :: rest =>
        match f x w with
        | (threw e, w') => (threw e, w')
        | (promised ry, w') =>
            match map_promise_all f rest w' with
            | (threw e, w'') => (threw e, w'')
            | (promised rys, w'') =>
                (promised match ry, rys with
                          | Ok y, Ok ys => Ok (y :: ys)
                          | Throw e, _ => Throw e
                          | Ok _, Throw e => Throw e
                          end, w'')
            end
        end
    end.

(** What the caller of an operation sees: a throw and a rejection are both
    failures. *)
Definition settle {A} (s : Started A) : Result A :=
  match s with
  | threw e => Throw e
  | promised r => r
  end.

(** A promise for the outcome of [m]. *)
Definition promise {A} (m : M W A) : W -> Started A * W :=
  fun w => let '(r, w') := m w in (promised r, w').

(** [getBatch(mount).items.push(entry)]: the batch of the mount's base is
    created at the end of the [Map] when it is not there yet. *)
Definition getBatch_push (batches : JsMap.t BatchItem) (mount : Mount (W := W))
  (entry : BatchEntry) : JsMap.t BatchItem :=
  let batch :=
    match JsMap.get batches (Storage.base mount) with
    | Some batch => batch
    | None => {| driver := Storage.driver mount; base := Storage.base mount;
                 items := [] |}
    end in
  JsMap.set batches (Storage.base mount)
    {| driver := driver batch; base := base batch;
       items := (items batch ++ [entry])%list |}.

(** The loop [for (const item of items)] of [runBatch]. *)
Definition collect_batches (context : StorageCTX (W := W)) (items : list Item)
  : JsMap.t BatchItem :=
  fold_left
    (fun batches item =>
       let key := normalizeKey (Some (item_key item)) in
       let value := item_value item in
       let mount := getMount context key in
       getBatch_push batches mount
         {| key := key; value := value;
            relativeKey := Storage.relativeKey mount |})
    items JsMap.empty.

(** [runBatch(items, commonOptions, cb)]; the callback resolves to an
    array, which [r.flat()] splices into the result. *)
Definition runBatch {B} (context : StorageCTX (W := W)) (items : list Item)
  (cb : BatchItem -> W -> Started (list B) * W) : W -> Started (list B) * W :=
  fun w =>
    let batches := collect_batches context items in
    match map_promise_all cb (map snd batches) w with
    | (threw e, w') => (threw e, w')
    | (promised (Throw e), w') => (promised (Throw e), w')
    | (promised (Ok r), w') => (promised (Ok (List.concat r)), w')
    end.

(** [xs.map(f)] for an [f] that can throw. *)
Fixpoint map_throwing {A B} (f : A -> Result B) (xs : list A) : Result (list B) :=
  match xs with
  | [] => Ok []
  | x :: rest =>
      match f x with
      | Throw e => Throw e
      | Ok y =>
          match map_throwing f rest with
          | Throw e => Throw e
          | Ok ys => Ok (y :: ys)
          end
      end
  end.

(** The items handed to [driver.getItems] and [driver.setItems]:
    [{ key: item.relativeKey, value: useRaw ? item.value : stringify(item.value) }] *)
Definition driver_items (useRaw : bool) (entries : list BatchEntry)
  : Result (list (string * StorageValue)) :=
  map_throwing
    (fun item =>
       if useRaw then Ok (relativeKey item, value item)
       else match stringify (value item) with
            | Ok text => Ok (relativeKey item, VString text)
            | Throw e => Throw e
            end)
    entries.

(** [!!batch.driver.setItemRaw] *)
Definition has_setItemRaw (d : Driver W) : bool :=
  match setItemRaw d with Some _ => true | None => false end.

(** The callback of [getItems]. *)
Definition getItems_batch (batch : BatchItem)
  : W -> Started (list (string * StorageValue)) * W :=
  match driver batch with
  | None => fun w => (threw (TypeError "Cannot read properties of undefined"), w)
  | Some d =>
      match getItems (batch_methods d) with
      | Some driver_getItems =>
          let useRaw := has_setItemRaw d in
          match driver_items useRaw (items batch) with
          | Throw e => fun w => (threw e, w)
          | Ok args =>
              promise (r <- asyncCall (Some (driver_getItems args)) ;;
                       ret (map (fun item : string * StorageValue =>
                                   (joinKeys [base batch; fst item], destr (snd item)))
                                r))
          end
      | None =>
          promise (mapM (fun item =>
                           value <- asyncCall (Some (getItem d (relativeKey item))) ;;
                           ret (key item, destr value))
                        (items batch))
      end
  end.

(** [storage.getItems(items, commonOptions)] *)
Definition storage_getItems (context : StorageCTX (W := W)) (items : list Item)
  : M W (list (string * StorageValue)) :=
  fun w =>
    let '(s, w') := runBatch context items getItems_batch w in (settle s, w').

(** The callback of [setItems].  It resolves to [undefined]; the array with
    that one element is what [r.flat()] keeps of it. *)
Definition setItems_batch (batch : BatchItem) : W -> Started (list unit) * W :=
  match driver batch with
  | None => fun w => (threw (TypeError "Cannot read properties of undefined"), w)
  | Some d =>
      let useRaw := has_setItemRaw d in
      match setItems (batch_methods d) with
      | Some driver_setItems =>
          match driver_items useRaw (items batch) with
          | Throw e => fun w => (threw e, w)
          | Ok args =>
              promise (asyncCall (Some (driver_setItems args)) ;;; ret [tt])
          end
      | None =>
          fun w =>
            match
              map_promise_all
                (fun item =>
                   if useRaw then
                     promise (asyncCall
                                (option_map (fun f => f (relativeKey item) (value item))
                                            (setItemRaw d)))
                   else
                     match stringify (value item) with
                     | Throw e => fun w => (threw e, w)
                     | Ok text =>
                         promise (asyncCall
                                    (option_map
                                       (fun f => f (relativeKey item) (VString text))
                                       (setItem d)))
                     end)
                (items batch) w
            with
            | (threw e, w') => (threw e, w')
            | (promised (Throw e), w') => (promised (Throw e), w')
            | (promised (Ok _), w') => (promised (Ok [tt]), w')
            end
      end
  end.

(** [storage.setItems(items, commonOptions)] *)
Definition storage_setItems (context : StorageCTX (W := W)) (items : list Item)
  : M W unit :=
  fun w =>
    match runBatch context items setItems_batch w with
    | (threw e, w') => (Throw e, w')
    | (promised (Throw e), w') => (Throw e, w')
    | (promised (Ok _), w') => (Ok tt, w')
    end.

(** ** The order of the answers

    The batches in the words of the comments of [runBatch]: the entries of
    the request, grouped by the base of the mount that serves them; the
    groups in the order in which their bases first occur, the entries of a
    group in the order of the request. *)

(** The entry [runBatch] makes for an item. *)
Definition entry_of (context : StorageCTX (W := W)) (item : Item) : BatchEntry :=
  let key := normalizeKey (Some (item_key item)) in
  {| key := key; value := item_value item;
     relativeKey := Storage.relativeKey (getMount context key) |}.

Definition entry_base (context : StorageCTX (W := W)) (e : BatchEntry) : string :=
  Storage.base (getMount context (key e)).

Definition grouped (context : StorageCTX (W := W)) (es : list BatchEntry)
  : list (string * list BatchEntry) :=
  map (fun b => (b, filter (fun e => String.eqb (entry_base context e) b) es))
      (dedupe (map (entry_base context) es)).

(** The batch of a base and its entries; its driver is the one mounted at
    the base. *)
Definition batch_of (context : StorageCTX (W := W)) (b : string)
  (g : list BatchEntry) : BatchItem :=
  {| driver := JsMap.get (mounts context) b; base := b; items := g |}.

(** The entries in the order in which they are served. *)
Definition served (context : StorageCTX (W := W)) (items : list Item) : list BatchEntry :=
  List.concat (map snd (grouped context (map (entry_of context) items))).

End WithWorld.
End StorageBatch.

(* ================================================================== *)
(** * src/utils.ts: [prefixStorage] *)
(* ================================================================== *)

Module PrefixStorage.
Import Types JsString Utils.

(** [key = ""]: the default of a key parameter that is left out. *)
Definition default_key (key : option string) : string :=
  match key with Some k => k | None => "" end.

(** [typeof item === "string" ? base + item : { ...item, key: base + item.key }] *)
Definition prefix_item (base : string) (item : StorageBatch.Item)
  : StorageBatch.Item :=
  match item with
  | StorageBatch.ItemKey k => StorageBatch.ItemKey (base ++ k)
  | StorageBatch.ItemObject k v => StorageBatch.ItemObject (base ++ k) v
  end.

Section WithState.
(** [S] is the state the methods of a storage object act on (for the object
    that [createStorage] returns: its context and the world of its
    drivers); [D] are the driver objects that [mount] takes. *)
Context {S D : Type}.

(** The members of [interface Storage] that the object of [createStorage]
    defines and that [prefixStorage] wraps (the aliases [has], [get], [set],
    [del], [remove] and the meta setters of [storageKeyProperties] are not
    members of that object).  A key argument that is left out is [None];
    [mount] and [unmount] return the storage itself, which is not
    represented. *)
Record Storage : Type := {
  hasItem : option string -> M S bool;
  getItem : option string -> M S value;
  getItemRaw : option string -> M S value;
  setItem : option string -> value -> M S unit;
  setItemRaw : option string -> value -> M S unit;
  removeItem : option string -> M S unit;
  getMeta : option string -> M S (option StorageMeta);
  getKeys : option string -> GetKeysOptions -> M S (list string);
  clear : option string -> M S unit;
  mount : option string -> option D -> M S unit;
  unmount : option string -> M S unit;
  getItems : list StorageBatch.Item -> M S (list (string * value));
  setItems : list (string * value) -> M S unit;
}.

(** The object [nsStorage] that [prefixStorage] builds for a normalized,
    non-empty [base]: every wrapped method puts [base] in front of its key;
    [getKeys] and [getItems] cut it off the keys they return. *)
Definition nsStorage (storage : Storage) (base : string) : Storage := {|
  hasItem := fun key => hasItem storage (Some (base ++ default_key key));
  getItem := fun key => getItem storage (Some (base ++ default_key key));
  getItemRaw := fun key => getItemRaw storage (Some (base ++ default_key key));
  setItem := fun key v => setItem storage (Some (base ++ default_key key)) v;
  setItemRaw := fun key v => setItemRaw storage (Some (base ++ default_key key)) v;
  removeItem := fun key => removeItem storage (Some (base ++ default_key key));
  getMeta := fun key => getMeta storage (Some (base ++ default_key key));
  getKeys := fun key opts =>
    (keys <- getKeys storage (Some (base ++ default_key key)) opts ;;
     ret (map (fun key => slice (String.length base) key) keys))%js;
  clear := fun key => clear storage (Some (base ++ default_key key));
  mount := fun key driver => mount storage (Some (base ++ default_key key)) driver;
  unmount := fun key => unmount storage (Some (base ++ default_key key));
  getItems := fun items =>
    (results <- getItems storage (map (prefix_item base) items) ;;
     ret (map (fun entry : string * value =>
                 (slice (String.length base) (fst entry), snd entry))
              results))%js;
  setItems := fun items =>
    setItems storage
      (map (fun item : string * value => (base ++ fst item, snd item)) items);
|}.

(** [prefixStorage(storage, base)] *)
Definition prefixStorage (storage : Storage) (base : string) : Storage :=
  let base := normalizeBaseKey (Some base) in
  match base with
  | EmptyString => storage
  | _ => nsStorage storage base
  end.

End WithState.

Section Engine.
Context {W : Type} `{Externals}.
Variable batch_methods : Driver W -> StorageBatch.BatchMethods (W := W).
Import Storage.

(** A method of the engine that leaves the context as it is. *)
Definition on_world {A} (m : StorageCTX (W := W) -> M W A)
  : M (StorageCTX (W := W) * W) A :=
  fun s => let '(r, w') := m (fst s) (snd s) in (r, (fst s, w')).

(** A method of the engine that changes the context ([mount], [unmount]). *)
Definition on_context (m : StorageCTX (W := W) -> M W (StorageCTX (W := W)))
  : M (StorageCTX (W := W) * W) unit :=
  fun s =>
    match m (fst s) (snd s) with
    | (Ok context', w') => (Ok tt, (context', w'))
    | (Throw e, w') => (Throw e, (fst s, w'))
    end.

(** The object that [createStorage] returns, as a [Storage] over its
    context and the world of its drivers.  A key that is left out is
    [undefined], which [normalizeKey] and [normalizeBaseKey] treat as the
    empty key. *)
Definition engine : Storage (S := StorageCTX (W := W) * W) (D := Driver W) := {|
  hasItem := fun key => on_world (fun c => storage_hasItem c (default_key key));
  getItem := fun key => on_world (fun c => storage_getItem c (default_key key));
  getItemRaw := fun key => on_world (fun c => storage_getItemRaw c (default_key key));
  setItem := fun key v => on_world (fun c => storage_setItem c (default_key key) v);
  setItemRaw := fun key v =>
    on_world (fun c => storage_setItemRaw c (default_key key) v);
  removeItem := fun key => on_world (fun c => storage_removeItem c (default_key key));
  getMeta := fun key => on_world (fun c => storage_getMeta c (default_key key));
  getKeys := fun key opts => on_world (fun c => storage_getKeys c key opts);
  clear := fun key => on_world (fun c => storage_clear c key);
  mount := fun key driver =>
    on_context (fun c => storage_mount c (default_key key) driver);
  unmount := fun key => on_context (fun c => storage_unmount c (default_key key));
  getItems := fun items =>
    on_world (fun c => StorageBatch.storage_getItems batch_methods c items);
  setItems := fun items =>
    on_world (fun c =>
                StorageBatch.storage_setItems batch_methods c
                  (map (fun item : string * value =>
                          StorageBatch.ItemObject (fst item) (snd item))
                       items));
|}.

End Engine.
End PrefixStorage.

(* ================================================================== *)
(** * src/server.ts *)
(* ================================================================== *)

Module Server.
Import Types JsString Utils Storage.

(** The part of an [H3Event] the handler reads: the request line, the request
    headers (lower-case names) and the body as [readRawBody] returns it
    ([None] for [undefined]). *)
Record H3Event : Type := {
  method : string;
  path : string;
  headers : JsMap.t string;
  body : option string;
}.

Inductive AccessType : Type := read | write.

(** [StorageServerRequest] *)
Record StorageServerRequest : Type := {
  type : AccessType;
  event : H3Event;
  key : string;
}.

(** [StorageServerOptions]; a hook that throws is a hook that returns
    [Throw]. *)
Record StorageServerOptions : Type := {
  authorize : option (StorageServerRequest -> Result unit);
  resolvePath : option (H3Event -> string);
}.

(** [MethodToTypeMap[method]], [None] when [method in MethodToTypeMap] is
    false. *)
Definition MethodToTypeMap (method : string) : option AccessType :=
  if String.eqb method "GET" then Some read
  else if String.eqb method "HEAD" then Some read
  else if String.eqb method "PUT" then Some write
  else if String.eqb method "DELETE" then Some write
  else None.

(** What the handler hands to h3 as the response body. *)
Inductive Body : Type :=
  | BodyValue (v : value)          (* a raw driver value *)
  | BodyText (s : string)
  | BodyKeys (keys : list string).

Section WithWorld.
Context {W : Type} `{Externals}.

(** The handler runs on the world of the drivers together with the response
    headers set so far (most recent last). *)
Definition ResponseHeaders : Type := list (string * string).
Definition SW : Type := (ResponseHeaders * W)%type.

Definition lift {A} (m : M W A) : M SW A :=
  fun '(hs, w) => let '(r, w') := m w in (r, (hs, w')).

(** [setResponseHeader(event, name, value)] *)
Definition setResponseHeader (name v : string) : M SW unit :=
  fun '(hs, w) => (Ok tt, ((hs ++ [(name, v)])%list, w)).

(** [getRequestHeader(event, name)] *)
Definition getRequestHeader (event : H3Event) (name : string) : option string :=
  JsMap.get (headers event) name.

(** h3's [createError({ statusCode, statusMessage })] *)
Definition createError (statusCode : Z) (statusMessage : string) : Error :=
  H3Error statusCode statusMessage.

(** [function setMetaHeaders(event, meta)]; [meta] is what
    [storage.getMeta] resolved to, [None] being [null]: reading [meta.mtime]
    then throws. *)
Definition setMetaHeaders (meta : option StorageMeta) : M SW unit :=
  match meta with
  | None =>
      throw (TypeError "Cannot read properties of null (reading 'mtime')")
  | Some meta =>
      match mtime meta with
      | Some t => setResponseHeader "last-modified" (toUTCString t)
      | None => ret tt
      end ;;;
      match ttl meta with
      | Some t =>
          if Z.eqb t 0 then ret tt
          else
            setResponseHeader "x-ttl" (JsValue.number_to_string t) ;;;
            setResponseHeader "cache-control" ("max-age=" ++ JsValue.number_to_string t)
      | None => ret tt
      end
  end.

(** The headers [setMetaHeaders] sets for a metadata record, in order. *)
Definition meta_headers (meta : StorageMeta) : ResponseHeaders :=
  List.app
    match mtime meta with
    | Some t => [("last-modified", toUTCString t)]
    | None => []
    end
    match ttl meta with
    | Some t =>
        if Z.eqb t 0 then []
        else [("x-ttl", JsValue.number_to_string t);
              ("cache-control", "max-age=" ++ JsValue.number_to_string t)]
    | None => []
    end.

(** The [catch] clause around [opts.authorize]: an h3 error is thrown again,
    anything else becomes a 401 with the error's message. *)
Definition to_http_error (error : Error) : Error :=
  match error with
  | H3Error _ _ => error
  | _ => createError 401 (error_message error)
  end.

Definition is_octet_stream (h : option string) : bool :=
  match h with
  | Some v => String.eqb v "application/octet-stream"
  | None => false
  end.

(** The event handler of [createH3StorageHandler(storage, opts)]; [context]
    is the context of [storage]. *)
Definition createH3StorageHandler (context : StorageCTX (W := W))
  (opts : StorageServerOptions) (event : H3Event) : M SW Body :=
  let _path :=
    match resolvePath opts with
    | Some f => f event
    | None => path event
    end in
  let lastChar := lastChar _path in
  let isBaseKey :=
    match lastChar with
    | Some c => Ascii.eqb c ":" || Ascii.eqb c "/"
    | None => false
    end in
  let key :=
    if isBaseKey then normalizeBaseKey (Some _path) else normalizeKey (Some _path) in
  match MethodToTypeMap (method event) with
  | None =>
      throw (createError 405 ("Method Not Allowed: " ++ method event))
  | Some access =>
      match
        match authorize opts with
        | Some hook => hook {| type := access; event := event; key := key |}
        | None => Ok tt
        end
      with
      | Throw error => throw (to_http_error error)
      | Ok _ =>
          if String.eqb (method event) "GET" then
            if isBaseKey then
              keys <- lift (storage_getKeys context (Some key) {| maxDepth := None |}) ;;
              ret (BodyKeys (map (replaceChar ":" "/") keys))
            else
              let isRaw := is_octet_stream (getRequestHeader event "accept") in
              driverValue <-
                lift (if isRaw then storage_getItemRaw context key
                      else storage_getItem context key) ;;
              match driverValue with
              | VNull => throw (createError 404 "KV value not found")
              | _ =>
                  meta <- lift (storage_getMeta context key) ;;
                  setMetaHeaders meta ;;;
                  if isRaw then ret (BodyValue driverValue)
                  else text <- lift (of_result (stringify driverValue)) ;;
                       ret (BodyText text)
              end
          else if String.eqb (method event) "HEAD" then
            found <- lift (storage_hasItem context key) ;;
            if found : bool then
              meta <- lift (storage_getMeta context key) ;;
              setMetaHeaders meta ;;;
              ret (BodyText "")
            else throw (createError 404 "KV value not found")
          else if String.eqb (method event) "PUT" then
            let isRaw := is_octet_stream (getRequestHeader event "content-type") in
            (if isRaw then
               lift (storage_setItemRaw context key
                       (match body event with
                        | Some b => VString b
                        | None => VUndefined
                        end))
             else
               match body event with
               | Some v => lift (storage_setItem context key (VString v))
               | None => ret tt
               end) ;;;
            ret (BodyText "OK")
          else if String.eqb (method event) "DELETE" then
            lift (if isBaseKey then storage_clear context (Some key)
                  else storage_removeItem context key) ;;;
            ret (BodyText "OK")
          else
            throw (createError 405 ("Method Not Allowed: " ++ method event))
      end
  end.

End WithWorld.
End Server.

(* ================================================================== *)
(** * Concrete storages *)
(* ================================================================== *)

(** The storages of the end-to-end scenarios, used to run the embedding. *)
Module Scenario.
Import Storage Types Memory.

(** Stand-ins for the external functions, to evaluate examples: each agrees
    with the function it stands for on the values the examples use (text
    that is not a JSON literal, and numbers). *)
Definition plain_externals : Externals := {|
  destr := fun v => v;
  stringify := fun v =>
    Ok match v with
       | VString s => s
       | VNumber n => JsValue.number_to_string n
       | VBool true => "true"
       | VBool false => "false"
       | VNull => "null"
       | VUndefined => "undefined"
       end;
  serializeRaw := fun v =>
    Ok match v with
       | VString s => s
       | VNumber n => JsValue.number_to_string n
       | VBool true => "true"
       | VBool false => "false"
       | VNull => "null"
       | VUndefined => "undefined"
       end;
  deserializeRaw := fun v => v;
  toUTCString := fun t => JsValue.number_to_string t;
|}.


(** A memory driver that also has a [watch] method; the handle it returns is
    an async function. *)
Definition watching_memory (l : loc) : Driver heap := {|
  oid := l;
  name := "memory";
  hasItem := hasItem (memory l);
  getItem := getItem (memory l);
  getItemRaw := getItemRaw (memory l);
  setItem := setItem (memory l);
  setItemRaw := setItemRaw (memory l);
  removeItem := removeItem (memory l);
  getMeta := None;
  getKeys := getKeys (memory l);
  clear := clear (memory l);
  dispose := dispose (memory l);
  watch := Some (fun _ => ret (ret a_promise));
|}.

(** A file system to run the [fs] driver on: the files by path, and the log
    of the paths that were accessed. *)
Definition FsWorld : Type := (JsMap.t string * list string)%type.

Definition fs_access {A} (path : string) (f : JsMap.t string -> A * JsMap.t string)
  : M FsWorld A :=
  fun '(files, log) =>
    let '(a, files') := f files in (Ok a, (files', (log ++ [path])%list)).

Definition logging_fs : Fs.NodeFs (W := FsWorld) := {|
  Fs.resolve := fun p => p;
  Fs.join := fun a b => a ++ "/" ++ b;
  Fs.existsSync := fun p => fs_access p (fun files => (JsMap.has files p, files));
  Fs.readFile := fun p _ =>
    fs_access p (fun files =>
      (match JsMap.get files p with Some c => VString c | None => VNull end, files));
  Fs.writeFile := fun p v _ =>
    fs_access p (fun files =>
      (tt, JsMap.set files p (match v with VString c => c | _ => "" end)));
  Fs.unlink := fun p => fs_access p (fun files => (tt, JsMap.delete files p));
  Fs.readdirRecursive := fun p _ => fs_access p (fun files => ([], files));
  Fs.rmRecursive := fun p => fs_access p (fun files => (tt, JsMap.empty));
  Fs.stat := fun p => fs_access p (fun files => (Fs.empty_meta, files));
  Fs.chokidar_watch := fun _ _ => ret (ret a_promise);
  Fs.watcher_close := ret tt;
|}.

(** [createStorage()] with the memory driver at location 0 as root. *)
Definition storage0 : StorageCTX (W := heap) :=
  createStorage None (memory 0).

(** The context and heap after [storage.mount(base, d)]. *)
Definition mounted (context : StorageCTX) (base : string) (d : Driver heap)
  (h : heap) : StorageCTX * heap :=
  match storage_mount context base (Some d) h with
  | (Ok context', h') => (context', h')
  | (Throw _, h') => (context, h')
  end.

(** The heap after [storage.setItem(key, value)] for each pair. *)
Fixpoint set_all (E : Externals) (context : StorageCTX)
  (items : list (string * value)) (h : heap) : heap :=
  match items with
  | [] => h
  | (k, v) :: rest => set_all E context rest (snd (storage_setItem context k v h))
  end.

(** Driver objects without [getItems] and [setItems], as the memory,
    overlay and fs drivers are. *)
Definition no_batch_methods : Driver heap -> StorageBatch.BatchMethods (W := heap) :=
  fun _ => {| StorageBatch.getItems := None; StorageBatch.setItems := None |}.

(** A GET request, and a server without hooks. *)
Definition get_request (path : string) (headers : JsMap.t string)
  : Server.H3Event :=
  {| Server.method := "GET"; Server.path := path; Server.headers := headers;
     Server.body := None |}.

Definition no_hooks : Server.StorageServerOptions :=
  {| Server.authorize := None; Server.resolvePath := None |}.

End Scenario.

(* ================================================================== *)
(** * Theorems *)
(* ================================================================== *)

(** ** Key normalization ([Utils.normalizeKey]) *)

Section NormalizeKey.
Import Utils JsString KeyShape.

Lemma split_query_no_qmark s :
  all_chars (fun c => negb (Ascii.eqb c "?")) (split_query s) = true.
Proof.
  induction s as [|c r IH]; simpl; auto.
  destruct (Ascii.eqb c "?") eqn:E; simpl; auto.
  now rewrite E, IH.
Qed.

Lemma split_query_id s :
  all_chars (fun c => negb (Ascii.eqb c "?")) s = true -> split_query s = s.
Proof.
  induction s as [|c r IH]; simpl; auto.
  intros H. apply andb_prop in H as [Hc Hr].
  destruct (Ascii.eqb c "?"); simpl in *; try discriminate.
  now rewrite IH.
Qed.

Lemma replace_slashes_no_slash s :
  all_chars (fun c => negb (is_slash c)) (replace_slashes s) = true.
Proof.
  induction s as [|c r IH]; simpl; auto.
  rewrite IH, andb_true_r.
  destruct (is_slash c) eqn:E; auto. now rewrite E.
Qed.

Lemma replace_slashes_id s :
  all_chars (fun c => negb (is_slash c)) s = true -> replace_slashes s = s.
Proof.
  induction s as [|c r IH]; simpl; auto.
  intros H. apply andb_prop in H as [Hc Hr].
  destruct (is_slash c); simpl in *; try discriminate.
  now rewrite IH.
Qed.

Lemma replace_slashes_keeps (P : ascii -> bool) s :
  P ":"%char = true ->
  all_chars P s = true -> all_chars P (replace_slashes s) = true.
Proof.
  intros HP. induction s as [|c r IH]; simpl; auto.
  intros H. apply andb_prop in H as [Hc Hr].
  rewrite IH by assumption. destruct (is_slash c); now rewrite ?HP, ?Hc.
Qed.

Lemma collapse_colons_cons c r :
  collapse_colons (String c r) =
  if Ascii.eqb c ":" then
    match r with
    | String c' _ => if Ascii.eqb c' ":" then collapse_colons r
                     else String ":" (collapse_colons r)
    | EmptyString => String ":" EmptyString
    end
  else String c (collapse_colons r).
Proof. reflexivity. Qed.

Lemma collapse_colons_keeps (P : ascii -> bool) s :
  all_chars P s = true -> all_chars P (collapse_colons s) = true.
Proof.
  induction s as [|c r IH]; auto.
  cbn [all_chars]. intros H. apply andb_prop in H as [Hc Hr]. specialize (IH Hr).
  rewrite collapse_colons_cons.
  destruct (Ascii.eqb_spec c ":") as [->|Hn].
  - destruct r as [|c' r']; [cbn [all_chars]; now rewrite Hc|].
    destruct (Ascii.eqb c' ":"); auto.
    cbn [all_chars]. now rewrite Hc, IH.
  - cbn [all_chars]. now rewrite Hc, IH.
Qed.

Lemma strip_leading_keeps (P : ascii -> bool) s :
  all_chars P s = true -> all_chars P (strip_leading s) = true.
Proof.
  destruct s as [|c r]; simpl; auto.
  intros H. destruct (Ascii.eqb c ":"); auto.
  now apply andb_prop in H as [_ Hr].
Qed.

Lemma strip_trailing_keeps (P : ascii -> bool) s :
  all_chars P s = true -> all_chars P (strip_trailing s) = true.
Proof.
  induction s as [|c r IH]; simpl; auto.
  intros H. apply andb_prop in H as [Hc Hr].
  destruct r as [|c' r'].
  - destruct (Ascii.eqb c ":"); simpl; auto. now rewrite Hc.
  - cbn [all_chars]. rewrite Hc. simpl. now apply IH.
Qed.

Lemma collapse_colons_other c r :
  Ascii.eqb c ":" = false ->
  collapse_colons (String c r) = String c (collapse_colons r).
Proof. intros E. now rewrite collapse_colons_cons, E. Qed.

Lemma nodouble_cons c d r :
  nodouble (String c (String d r)) =
  negb (Ascii.eqb c ":" && Ascii.eqb d ":") && nodouble (String d r).
Proof. reflexivity. Qed.

Lemma collapse_colons_nodouble s : nodouble (collapse_colons s) = true.
Proof.
  induction s as [|c r IH]; auto.
  destruct (Ascii.eqb c ":") eqn:Ec.
  - rewrite collapse_colons_cons, Ec.
    destruct r as [|c' r']; auto.
    destruct (Ascii.eqb c' ":") eqn:Ec'; auto.
    rewrite (collapse_colons_other _ _ Ec') in *.
    now rewrite nodouble_cons, Ec', andb_false_r, IH.
  - rewrite (collapse_colons_other _ _ Ec).
    destruct (collapse_colons r) as [|d t]; auto.
    now rewrite nodouble_cons, Ec, IH.
Qed.

Lemma nodouble_tail c r : nodouble (String c r) = true -> nodouble r = true.
Proof. cbn [nodouble]. intros H. now apply andb_prop in H as [_ H]. Qed.

Lemma collapse_colons_id s : nodouble s = true -> collapse_colons s = s.
Proof.
  induction s as [|c r IH]; auto.
  intros H. pose proof (nodouble_tail _ _ H) as Hr.
  rewrite collapse_colons_cons, (IH Hr).
  destruct (Ascii.eqb_spec c ":") as [->|]; auto.
  destruct r as [|c' r']; auto.
  rewrite nodouble_cons in H.
  destruct (Ascii.eqb c' ":"); auto. discriminate.
Qed.

Lemma nodouble_strip_leading s :
  nodouble s = true -> nodouble (strip_leading s) = true.
Proof.
  destruct s as [|c r]; auto. intros H. simpl.
  destruct (Ascii.eqb c ":"); auto. now apply nodouble_tail in H.
Qed.

Lemma strip_trailing_cons c d r :
  strip_trailing (String c (String d r)) = String c (strip_trailing (String d r)).
Proof. reflexivity. Qed.

Lemma nodouble_strip_trailing s :
  nodouble s = true -> nodouble (strip_trailing s) = true.
Proof.
  induction s as [|c r IH]; auto.
  intros H. pose proof (nodouble_tail _ _ H) as Hr. specialize (IH Hr).
  destruct r as [|d r'].
  - simpl. now destruct (Ascii.eqb c ":").
  - rewrite strip_trailing_cons. cbn [nodouble]. rewrite IH, andb_true_r.
    cbn [nodouble] in H. apply andb_prop in H as [H1 _].
    destruct (strip_trailing (String d r')) as [|e t] eqn:E; auto.
    assert (e = d) as ->.
    { destruct r' as [|d' r'']; simpl in E.
      - destruct (Ascii.eqb d ":"); congruence.
      - congruence. }
    exact H1.
Qed.

Lemma noleading_strip_leading s :
  nodouble s = true -> noleading (strip_leading s) = true.
Proof.
  destruct s as [|c r]; auto. intros H.
  unfold strip_leading. destruct (Ascii.eqb c ":") eqn:E.
  - destruct r as [|c' r']; auto.
    rewrite nodouble_cons, E in H. simpl in *.
    destruct (Ascii.eqb c' ":"); auto.
  - simpl. now rewrite E.
Qed.

Lemma noleading_strip_trailing s :
  noleading s = true -> noleading (strip_trailing s) = true.
Proof.
  destruct s as [|c r]; auto. intros H.
  destruct r as [|d r'].
  - simpl in *. destruct (Ascii.eqb c ":") eqn:E; simpl; rewrite ?E; auto.
  - rewrite strip_trailing_cons. exact H.
Qed.

Lemma lastChar_cons c d r : lastChar (String c (String d r)) = lastChar (String d r).
Proof. reflexivity. Qed.

Lemma strip_trailing_empty s :
  strip_trailing s = EmptyString -> s = EmptyString \/ s = String ":" EmptyString.
Proof.
  destruct s as [|c [|d r]]; auto.
  - simpl. destruct (Ascii.eqb_spec c ":") as [->|]; auto.
  - rewrite strip_trailing_cons. discriminate.
Qed.

Lemma notrailing_strip_trailing s :
  nodouble s = true -> notrailing (strip_trailing s) = true.
Proof.
  unfold notrailing.
  induction s as [|c r IH]; auto.
  intros H. pose proof (nodouble_tail _ _ H) as Hr. specialize (IH Hr).
  destruct r as [|d r'].
  - simpl. destruct (Ascii.eqb c ":") eqn:E; simpl; auto. now rewrite E.
  - rewrite strip_trailing_cons.
    destruct (strip_trailing (String d r')) as [|e t] eqn:E.
    + apply strip_trailing_empty in E as [E|E]; [discriminate|].
      injection E as -> ->.
      rewrite nodouble_cons in H. simpl in *.
      destruct (Ascii.eqb c ":"); auto.
    + rewrite lastChar_cons. exact IH.
Qed.

Lemma strip_leading_id s : noleading s = true -> strip_leading s = s.
Proof.
  destruct s as [|c r]; auto. simpl.
  now destruct (Ascii.eqb c ":").
Qed.

Lemma strip_trailing_id s : notrailing s = true -> strip_trailing s = s.
Proof.
  unfold notrailing. induction s as [|c r IH]; auto.
  destruct r as [|d r'].
  - simpl. now destruct (Ascii.eqb c ":").
  - rewrite lastChar_cons, strip_trailing_cons. intros H. now rewrite IH.
Qed.

(** The pipeline of [normalizeKey] lands in the normalized strings... *)
Lemma normalizeKey_normalized key : normalized (normalizeKey key) = true.
Proof.
  destruct key as [[|c k]|]; auto.
  unfold normalizeKey, strip_ends.
  set (t := collapse_colons (replace_slashes (split_query (String c k)))).
  assert (Hq : all_chars (fun c => negb (Ascii.eqb c "?")) t = true).
  { apply collapse_colons_keeps, replace_slashes_keeps; auto.
    apply split_query_no_qmark. }
  assert (Hs : all_chars (fun c => negb (is_slash c)) t = true).
  { apply collapse_colons_keeps, replace_slashes_no_slash. }
  assert (Hd : nodouble t = true) by apply collapse_colons_nodouble.
  unfold normalized.
  rewrite (strip_trailing_keeps _ _ (strip_leading_keeps _ _ Hq)).
  rewrite (strip_trailing_keeps _ _ (strip_leading_keeps _ _ Hs)).
  rewrite (nodouble_strip_trailing _ (nodouble_strip_leading _ Hd)).
  rewrite (noleading_strip_trailing _ (noleading_strip_leading _ Hd)).
  rewrite (notrailing_strip_trailing _ (nodouble_strip_leading _ Hd)).
  reflexivity.
Qed.

(** ... and is the identity on them. *)
Lemma normalizeKey_fixes_normalized s :
  normalized s = true -> normalizeKey (Some s) = s.
Proof.
  unfold normalized. intros H.
  repeat (apply andb_prop in H as [H ?]).
  destruct s as [|c k]; auto.
  unfold normalizeKey, strip_ends.
  rewrite split_query_id, replace_slashes_id, collapse_colons_id,
    strip_leading_id, strip_trailing_id; auto.
Qed.


End NormalizeKey.

Example normalizeKey_ex1 :
  Utils.normalizeKey (Some "/a//b\c:?x=1") = "a:b:c".
Proof. reflexivity. Qed.

(** ** Insertion-ordered maps *)

Section JsMapFacts.
Context {V : Type}.
Implicit Types (m : JsMap.t V) (k : string) (v : V).

Lemma JsMap_get_set_eq m k v : JsMap.get (JsMap.set m k v) k = Some v.
Proof.
  induction m as [|[k' v'] m IH]; simpl.
  - now rewrite String.eqb_refl.
  - destruct (String.eqb k' k) eqn:E; simpl; now rewrite E.
Qed.

Lemma JsMap_get_set_neq m k k' v :
  k' <> k -> JsMap.get (JsMap.set m k v) k' = JsMap.get m k'.
Proof.
  intros Hne. induction m as [|[k0 v0] m IH]; simpl.
  - destruct (String.eqb_spec k k'); congruence.
  - destruct (String.eqb_spec k0 k) as [->|]; simpl.
    + destruct (String.eqb_spec k k'); congruence.
    + now rewrite IH.
Qed.

Lemma JsMap_has_set m k k' v :
  JsMap.has (JsMap.set m k v) k' = String.eqb k' k || JsMap.has m k'.
Proof.
  unfold JsMap.has. destruct (String.eqb_spec k' k) as [->|Hne].
  - now rewrite JsMap_get_set_eq.
  - now rewrite JsMap_get_set_neq.
Qed.

Lemma JsMap_has_In m k : JsMap.has m k = true <-> In k (JsMap.keys m).
Proof.
  unfold JsMap.has. induction m as [|[k' v'] m IH]; simpl.
  - split; [discriminate | tauto].
  - destruct (String.eqb_spec k' k) as [->|Hne]; [tauto|].
    rewrite IH. split; [tauto|]. intros [?|?]; [congruence|assumption].
Qed.

Lemma JsMap_keys_set_absent m k v :
  JsMap.has m k = false -> JsMap.keys (JsMap.set m k v) = (JsMap.keys m ++ [k])%list.
Proof.
  unfold JsMap.has. induction m as [|[k' v'] m IH]; simpl; auto.
  destruct (String.eqb k' k); [discriminate|].
  intros Hm. simpl. now rewrite IH.
Qed.


Lemma JsMap_keys_delete_notin m k k' :
  In k' (JsMap.keys (JsMap.delete m k)) -> In k' (JsMap.keys m).
Proof.
  induction m as [|[k0 v0] m IH]; simpl; auto.
  destruct (String.eqb k0 k); simpl; tauto.
Qed.

Lemma JsMap_NoDup_delete m k :
  NoDup (JsMap.keys m) -> NoDup (JsMap.keys (JsMap.delete m k)).
Proof.
  induction m as [|[k0 v0] m IH]; simpl; auto.
  intros Hnd. inversion Hnd as [|? ? Hnotin Hnd']; subst.
  destruct (String.eqb k0 k); simpl; auto.
  constructor; auto. intros Hin. apply Hnotin.
  now apply JsMap_keys_delete_notin in Hin.
Qed.

Lemma JsMap_has_delete m k k' :
  NoDup (JsMap.keys m) ->
  JsMap.has (JsMap.delete m k) k' = negb (String.eqb k' k) && JsMap.has m k'.
Proof.
  unfold JsMap.has. induction m as [|[k0 v0] m IH]; simpl.
  - now rewrite andb_false_r.
  - intros Hnd. inversion Hnd as [|? ? Hnotin Hnd']; subst.
    destruct (String.eqb_spec k0 k) as [->|Hne0].
    + destruct (String.eqb_spec k k') as [->|Hne].
      * rewrite String.eqb_refl. simpl.
        destruct (JsMap.get m k') eqn:G; auto.
        exfalso. apply Hnotin. apply JsMap_has_In. unfold JsMap.has. now rewrite G.
      * destruct (String.eqb_spec k' k); [congruence|]. reflexivity.
    + simpl. destruct (String.eqb_spec k0 k') as [->|Hne1].
      * destruct (String.eqb_spec k' k); [congruence|]. reflexivity.
      * now apply IH.
Qed.

End JsMapFacts.

(** ** The mount list: sorting and removal *)

Section MountList.
Import Storage.

Lemma sort_insert_perm x xs : Permutation (sort_insert x xs) (x :: xs).
Proof.
  induction xs as [|y rest IH]; simpl; auto.
  destruct (String.length y <=? String.length x)%nat; auto.
  rewrite IH. apply perm_swap.
Qed.

Lemma sort_insert_sorted x xs : sorted_desc xs -> sorted_desc (sort_insert x xs).
Proof.
  unfold sorted_desc. induction xs as [|y rest IH]; simpl; intros Hs.
  - constructor; auto.
  - apply StronglySorted_inv in Hs as [Hrest Hy].
    destruct (Nat.leb_spec (String.length y) (String.length x)) as [Hle|Hgt].
    + constructor; [constructor; auto|].
      constructor; [exact Hle|].
      eapply Forall_impl; [|exact Hy]. unfold longer_first. intros; lia.
    + constructor; [auto|].
      rewrite Forall_forall. intros z Hz.
      apply (Permutation_in _ (sort_insert_perm x rest)) in Hz as [<-|Hz].
      * unfold longer_first. lia.
      * rewrite Forall_forall in Hy. auto.
Qed.

Lemma sort_perm xs : Permutation (sort_by_length_desc xs) xs.
Proof.
  induction xs as [|x rest IH]; simpl; auto.
  rewrite sort_insert_perm. now constructor.
Qed.

Lemma sort_sorted xs : sorted_desc (sort_by_length_desc xs).
Proof.
  induction xs as [|x rest IH]; simpl.
  - constructor.
  - now apply sort_insert_sorted.
Qed.

Lemma remove_first_In {A} (eqb : A -> A -> bool) x xs :
  (forall a b, eqb a b = true <-> a = b) ->
  In x xs ->
  exists xs', remove_first eqb x xs = Some xs' /\ Permutation xs (x :: xs').
Proof.
  intros Heqb. induction xs as [|y rest IH]; simpl; [tauto|].
  intros Hin. destruct (eqb y x) eqn:E.
  - apply Heqb in E as ->. eauto.
  - destruct Hin as [->|Hin].
    + assert (eqb x x = true) by now apply Heqb. congruence.
    + destruct (IH Hin) as [xs' [-> Hp]]. eexists. split; [reflexivity|].
      rewrite Hp. apply perm_swap.
Qed.

Lemma remove_first_sorted x xs xs' :
  remove_first String.eqb x xs = Some xs' -> sorted_desc xs -> sorted_desc xs'.
Proof.
  unfold sorted_desc. revert xs'.
  induction xs as [|y rest IH]; simpl; [discriminate|].
  intros xs' Hr Hs. apply StronglySorted_inv in Hs as [Hrest Hy].
  destruct (String.eqb y x).
  - now injection Hr as <-.
  - destruct (remove_first String.eqb x rest) as [rest'|] eqn:E; [|discriminate].
    injection Hr as <-. constructor; [now apply IH|].
    rewrite Forall_forall in *. intros z Hz. apply Hy.
    clear - E Hz. revert rest' E Hz.
    induction rest as [|a rest IH]; simpl; [discriminate|].
    intros rest' E Hz. destruct (String.eqb a x).
    + injection E as <-. now right.
    + destruct (remove_first String.eqb x rest) eqn:E'; [|discriminate].
      injection E as <-. destruct Hz as [->|Hz]; [now left|].
      right. eapply IH; eauto.
Qed.

Lemma string_eqb_iff a b : String.eqb a b = true <-> a = b.
Proof. apply String.eqb_eq. Qed.






End MountList.

(** ** The mount table of a reachable context *)

Section MountTable.
Context {W : Type}.
Import Types Storage.
Implicit Types (context : StorageCTX (W := W)).

Lemma startWatch_loop_mounts entries : forall context w,
  mounts (fst (startWatch_loop entries context w)) = mounts context
  /\ mountpoints (fst (startWatch_loop entries context w)) = mountpoints context
  /\ watching (fst (startWatch_loop entries context w)) = watching context
  /\ watchListeners (fst (startWatch_loop entries context w)) = watchListeners context.
Proof.
  induction entries as [|[mp d] rest IH]; intros context w; simpl; auto.
  destruct (watch d onChange_cb mp w) as [[u|e] w']; simpl; auto.
  destruct (IH (set_unwatch context (JsMap.set (unwatch context) mp u)) w')
    as (-> & -> & -> & ->). auto.
Qed.

Lemma startWatch_mounts context w :
  mounts (fst (startWatch context w)) = mounts context
  /\ mountpoints (fst (startWatch context w)) = mountpoints context
  /\ watching (fst (startWatch context w)) = true
  /\ watchListeners (fst (startWatch context w)) = watchListeners context.
Proof.
  unfold startWatch. destruct (watching context) eqn:E; simpl; auto.
  destruct (startWatch_loop_mounts (mounts context) (set_watching context true) w)
    as (-> & -> & -> & ->). auto.
Qed.

Lemma stopWatch_mounts context w context' w' :
  stopWatch context w = (Ok context', w') ->
  mounts context' = mounts context /\ mountpoints context' = mountpoints context.
Proof.
  unfold stopWatch. destruct (watching context); simpl.
  - unfold bind. destruct (stopWatch_loop (unwatch context) w) as [[[]|e] w1];
      intros [= <- <-]; auto.
  - intros [= <- <-]; auto.
Qed.

Lemma storage_mount_ok context base d w context' w' :
  storage_mount context base d w = (Ok context', w') ->
  let nb := Utils.normalizeBaseKey (Some base) in
  nb <> "" /\ JsMap.has (mounts context) nb = false
  /\ exists drv, d = Some drv
     /\ mounts context' = JsMap.set (mounts context) nb drv
     /\ mountpoints context' = sort_by_length_desc (mountpoints context ++ [nb])
     /\ watching context' = watching context
     /\ watchListeners context' = watchListeners context.
Proof.
  intros Hm nb. unfold storage_mount in Hm. fold nb in Hm.
  destruct (String.eqb_spec nb "") as [E|Hne]; simpl in Hm; [discriminate|].
  destruct (JsMap.has (mounts context) nb) eqn:Hhas; [discriminate|].
  destruct d as [drv|]; [|discriminate].
  repeat split; auto. exists drv. split; auto.
  destruct (watching context) eqn:Ew.
  - unfold catch, bind in Hm.
    destruct (watch drv onChange_cb nb w) as [[u|e] w1]; simpl in Hm;
      injection Hm as <- <-; simpl; auto.
  - injection Hm as <- <-; simpl; auto.
Qed.

Lemma storage_unmount_ok context base w context' w' :
  storage_unmount context base w = (Ok context', w') ->
  let nb := Utils.normalizeBaseKey (Some base) in
  nb <> ""
  /\ ((JsMap.has (mounts context) nb = false /\ context' = context)
      \/ (JsMap.has (mounts context) nb = true
          /\ mounts context' = JsMap.delete (mounts context) nb
          /\ mountpoints context' = splice_indexOf String.eqb nb (mountpoints context)
          /\ watching context' = watching context
          /\ watchListeners context' = watchListeners context)).
Proof.
  intros Hm nb. unfold storage_unmount in Hm. fold nb in Hm.
  destruct (String.eqb_spec nb "") as [E|Hne]; [discriminate|].
  split; auto.
  destruct (JsMap.has (mounts context) nb) eqn:Hhas; simpl in Hm.
  - right. split; auto.
    destruct (if watching context then JsMap.get (unwatch context) nb else None)
      as [u|].
    + unfold bind in Hm. destruct (call_and_catch u w) as [[[]|e] w1];
        [|discriminate]. injection Hm as <- <-. simpl. auto.
    + injection Hm as <- <-. simpl. auto.
  - left. injection Hm as <- <-. auto.
Qed.

Lemma mount_inv_create options_driver fresh :
  mount_inv (createStorage (W := W) options_driver fresh).
Proof.
  unfold mount_inv, sorted_desc. simpl. repeat split.
  - repeat constructor.
  - now left.
  - repeat constructor. simpl. tauto.
  - repeat constructor. simpl. tauto.
  - intros [<-|[]]. reflexivity.
  - unfold JsMap.has. simpl. destruct b; simpl; [auto | discriminate].
Qed.

Lemma mount_inv_mount context base d w context' w' :
  mount_inv context ->
  storage_mount context base d w = (Ok context', w') ->
  mount_inv context'.
Proof.
  intros (Hs & Hroot & Hnd & Hndk & Hiff) Hm.
  apply storage_mount_ok in Hm as (Hne & Hhas & drv & _ & Em & Emp & _ & _).
  set (nb := Utils.normalizeBaseKey (Some base)) in *.
  assert (Hnotin : ~ In nb (mountpoints context)).
  { rewrite Hiff. congruence. }
  unfold mount_inv. rewrite Em, Emp. repeat split.
  - apply sort_sorted.
  - apply (Permutation_in _ (Permutation_sym (sort_perm _))).
    apply in_or_app. now left.
  - apply (Permutation_NoDup (Permutation_sym (sort_perm _))).
    apply NoDup_app; auto.
    + repeat constructor. simpl. tauto.
    + intros x Hx [<-|[]]. contradiction.
  - rewrite JsMap_keys_set_absent by assumption.
    apply NoDup_app; auto.
    + repeat constructor. simpl. tauto.
    + intros x Hx [<-|[]]. apply JsMap_has_In in Hx. congruence.
  - intros Hin. apply (Permutation_in _ (sort_perm _)) in Hin.
    rewrite JsMap_has_set. apply in_app_or in Hin as [Hin|[<-|[]]].
    + apply Hiff in Hin. rewrite Hin. apply orb_true_r.
    + now rewrite String.eqb_refl.
  - rewrite JsMap_has_set. intros Hb.
    apply (Permutation_in _ (Permutation_sym (sort_perm _))).
    apply in_or_app. apply orb_prop in Hb as [Hb|Hb].
    + apply String.eqb_eq in Hb as ->. right. now left.
    + left. now apply Hiff.
Qed.

Lemma mount_inv_unmount context base w context' w' :
  mount_inv context ->
  storage_unmount context base w = (Ok context', w') ->
  mount_inv context'.
Proof.
  intros Hinv Hm.
  apply storage_unmount_ok in Hm as (Hne & [[_ ->]|(Hhas & Em & Emp & _ & _)]); auto.
  destruct Hinv as (Hs & Hroot & Hnd & Hndk & Hiff).
  set (nb := Utils.normalizeBaseKey (Some base)) in *.
  assert (Hin : In nb (mountpoints context)) by now apply Hiff.
  destruct (remove_first_In String.eqb nb _ string_eqb_iff Hin) as (xs' & Hr & Hp).
  assert (Emp' : mountpoints context' = xs').
  { rewrite Emp. unfold splice_indexOf. now rewrite Hr. }
  assert (Hnd' : NoDup (nb :: xs')) by (eapply Permutation_NoDup; eauto).
  apply NoDup_cons_iff in Hnd' as [Hnotin Hnd'].
  unfold mount_inv. rewrite Em, Emp'. repeat split; auto.
  - eapply remove_first_sorted; eauto.
  - apply (Permutation_in _ Hp) in Hroot as [E|?]; auto. congruence.
  - now apply JsMap_NoDup_delete.
  - intros Hb. rewrite JsMap_has_delete by assumption.
    assert (In b (mountpoints context)).
    { apply (Permutation_in _ (Permutation_sym Hp)). now right. }
    apply Hiff in H as ->.
    destruct (String.eqb_spec b nb) as [->|]; auto; contradiction.
  - rewrite JsMap_has_delete by assumption. intros Hb.
    apply andb_prop in Hb as [Hb1 Hb2].
    apply Hiff in Hb2. apply (Permutation_in _ Hp) in Hb2 as [<-|?]; auto.
    rewrite String.eqb_refl in Hb1. discriminate.
Qed.

Lemma mount_inv_same context context' :
  mounts context' = mounts context ->
  mountpoints context' = mountpoints context ->
  mount_inv context -> mount_inv context'.
Proof. unfold mount_inv. now intros -> ->. Qed.

Lemma reachable_mount_inv context : reachable context -> mount_inv context.
Proof.
  induction 1 as [ | | | ? cb w ? ? _ IH Hw | ? cb w r ? ? _ IH Hw
                 | ? w r ? ? _ IH Hw | ? fresh w ? ? _ IH Hd ].
  - apply mount_inv_create.
  - eapply mount_inv_mount; eauto.
  - eapply mount_inv_unmount; eauto.
  - unfold storage_watch in Hw. simpl in Hw.
    destruct (negb (watching context)).
    + pose proof (startWatch_mounts
                    (set_watchListeners context (watchListeners context ++ [cb])) w)
        as (Em & Emp & _). rewrite Hw in Em, Emp. simpl in Em, Emp.
      eapply mount_inv_same; eauto.
    + injection Hw as <- <-. eapply mount_inv_same; eauto; reflexivity.
  - unfold storage_watch_unwatch in Hw.
    set (c1 := set_watchListeners context _) in Hw.
    assert (Hc1 : mount_inv c1) by (eapply mount_inv_same; eauto; reflexivity).
    destruct (watchListeners c1);
      [destruct (watching c1);
       [destruct (stopWatch c1 w) as [[c2|e] w2] eqn:Es|]|];
      injection Hw as <- <- <-; auto.
    apply stopWatch_mounts in Es as [Em Emp]. eapply mount_inv_same; eauto.
  - unfold storage_unwatch in Hw.
    set (c1 := set_watchListeners context _) in Hw.
    assert (Hc1 : mount_inv c1) by (eapply mount_inv_same; eauto; reflexivity).
    destruct (stopWatch c1 w) as [[c2|e] w2] eqn:Es;
      injection Hw as <- <- <-; auto.
    apply stopWatch_mounts in Es as [Em Emp]. eapply mount_inv_same; eauto.
  - unfold storage_dispose in Hd.
    destruct (match stopWatch context w with
              | (Ok c, w1) => (c, w1) | (Throw _, w1) => (context, w1) end)
      as [c1 w1].
    destruct (mapM _ (mounts c1) w1) as [r w2].
    injection Hd as <- <-.
    apply (mount_inv_create None fresh).
Qed.

End MountTable.

(** ** Routing: [getMount] *)

Section Routing.
Context {W : Type}.
Import Types Storage JsString.
Implicit Types (context : StorageCTX (W := W)).

Lemma startsWith_empty s : startsWith s "" = true.
Proof. unfold startsWith. now destruct s. Qed.

Lemma prefix_same_length a : forall b s,
  String.prefix a s = true -> String.prefix b s = true ->
  String.length a = String.length b -> a = b.
Proof.
  induction a as [|c a IH]; intros [|d b] [|e s] Ha Hb Hl;
    simpl in *; try discriminate; auto.
  destruct (Ascii.ascii_dec c e) as [->|]; [|discriminate].
  destruct (Ascii.ascii_dec d e) as [->|]; [|discriminate].
  f_equal. eapply IH; eauto.
Qed.

(** The scan returns the first base that is a prefix of the key; on a list
    sorted by descending length that is a longest one. *)
Lemma getMount_loop_longest context key bases :
  sorted_desc bases ->
  (exists b, In b bases /\ startsWith key b = true) ->
  let m := getMount_loop context bases key in
  In (base m) bases
  /\ startsWith key (base m) = true
  /\ (forall b, In b bases -> startsWith key b = true ->
        (String.length b <= String.length (base m))%nat)
  /\ relativeKey m = slice (String.length (base m)) key
  /\ driver m = JsMap.get (mounts context) (base m).
Proof.
  unfold sorted_desc. induction bases as [|b0 rest IH]; intros Hs [b [Hin Hb]].
  - destruct Hin.
  - apply StronglySorted_inv in Hs as [Hrest Hb0]. simpl.
    destruct (startsWith key b0) eqn:E0; simpl.
    + repeat split; auto. intros b' [<-|Hin'] Hb'; auto.
      rewrite Forall_forall in Hb0. now apply Hb0.
    + assert (Hex : exists b, In b rest /\ startsWith key b = true).
      { destruct Hin as [<-|Hin]; [congruence|eauto]. }
      destruct (IH Hrest Hex) as (H1 & H2 & H3 & H4 & H5).
      repeat split; auto. intros b' [<-|Hin'] Hb'; [congruence|auto].
Qed.

(** Routing in a context that satisfies the mount invariant. *)
Lemma getMount_routes context key :
  mount_inv context ->
  let m := getMount context key in
  In (base m) (mountpoints context)
  /\ startsWith key (base m) = true
  /\ (forall b, In b (mountpoints context) -> startsWith key b = true ->
        (String.length b <= String.length (base m))%nat
        /\ (String.length b = String.length (base m) -> b = base m))
  /\ relativeKey m = slice (String.length (base m)) key
  /\ (exists d, driver m = Some d /\ JsMap.get (mounts context) (base m) = Some d).
Proof.
  intros (Hs & Hroot & Hnd & Hndk & Hiff) m.
  assert (Hex : exists b, In b (mountpoints context) /\ startsWith key b = true).
  { exists "". split; auto. apply startsWith_empty. }
  destruct (getMount_loop_longest context key _ Hs Hex) as (H1 & H2 & H3 & H4 & H5).
  fold (getMount context key) in H1, H2, H3, H4, H5. fold m in H1, H2, H3, H4, H5.
  split; [exact H1|]. split; [exact H2|]. split; [|split; [exact H4|]].
  - intros b Hin Hb. split; [auto|].
    intros Hl. eapply prefix_same_length; eauto.
  - apply Hiff in H1. unfold JsMap.has in H1. rewrite H5.
    destruct (JsMap.get (mounts context) (base m)) as [d|]; [eauto|discriminate].
Qed.

(** C1.  In every reachable context -- whose mount list always holds the root
    base [""] and is sorted by descending length, in particular after every
    [mount] -- and for every key (normalized or not), [getMount] returns the
    mount whose base is the longest element of the mount list that is a
    prefix of the key: the base is in the list, it is a prefix of the key, no
    listed prefix of the key is longer, a listed prefix of the same length is
    that base itself, the relative key is the key with the base cut off, and
    the driver is the one the [mounts] dictionary holds for that base. *)
Theorem getMount_longest_prefix context key :
  reachable context ->
  let m := getMount context key in
  sorted_desc (mountpoints context)
  /\ In "" (mountpoints context)
  /\ In (base m) (mountpoints context)
  /\ startsWith key (base m) = true
  /\ (forall b, In b (mountpoints context) -> startsWith key b = true ->
        (String.length b <= String.length (base m))%nat
        /\ (String.length b = String.length (base m) -> b = base m))
  /\ relativeKey m = slice (String.length (base m)) key
  /\ (exists d, driver m = Some d /\ JsMap.get (mounts context) (base m) = Some d)
  /\ (forall b d w context' w',
        storage_mount context b d w = (Ok context', w') ->
        sorted_desc (mountpoints context') /\ In "" (mountpoints context')).
Proof.
  intros Hreach m.
  pose proof (reachable_mount_inv _ Hreach) as Hinv.
  destruct (getMount_routes context key Hinv) as (H1 & H2 & H3 & H4 & H5).
  destruct Hinv as (Hs & Hroot & _).
  split; [exact Hs|]. split; [exact Hroot|]. split; [exact H1|].
  split; [exact H2|]. split; [exact H3|]. split; [exact H4|]. split; [exact H5|].
  intros b d w context' w' Hm.
  destruct (reachable_mount_inv _ (reach_mount _ _ _ _ _ _ Hreach Hm))
    as (? & ? & _). auto.
Qed.

End Routing.

(** ** Mounting shadows, unmounting restores *)

Section Shadowing.
Context {W : Type} `{Externals}.
Import Types Storage JsString Utils.
Implicit Types (context : StorageCTX (W := W)).




End Shadowing.

(** ** Routing and shadowing on concrete storages *)

Section RoutingExamples.
Import Storage Types Memory Scenario JsString Utils.

(** The storage of the test "getMount and getMounts": mounts at "/mnt",
    "cache" and "cache:sub". *)
Lemma mounts_example_reachable :
  reachable
    (fst (mounted (fst (mounted (fst (mounted storage0 "/mnt" (memory 1) heap0))
                                "cache" (memory 2) heap0))
                  "cache:sub" (memory 3) heap0)).
Proof.
  eapply reach_mount with (base := "cache:sub") (driver := Some (memory 3)) (w := heap0).
  - eapply reach_mount with (base := "cache") (driver := Some (memory 2)) (w := heap0).
    + eapply reach_mount with (base := "/mnt") (driver := Some (memory 1)) (w := heap0).
      * apply (reach_create None (memory 0)).
      * reflexivity.
    + reflexivity.
  - reflexivity.
Defined.

(** Routing in that storage: "cache:sub:foo" goes to the mount at
    "cache:sub:", the longest of its three listed prefixes. *)
Lemma getMount_longest_prefix_witness :
  let context :=
    fst (mounted (fst (mounted (fst (mounted storage0 "/mnt" (memory 1) heap0))
                               "cache" (memory 2) heap0))
                 "cache:sub" (memory 3) heap0) in
  reachable context
  /\ mountpoints context = ["cache:sub:"; "cache:"; "mnt:"; ""]
  /\ base (getMount context "cache:sub:foo") = "cache:sub:"
  /\ In (base (getMount context "cache:sub:foo")) (mountpoints context)
  /\ startsWith "cache:sub:foo" (base (getMount context "cache:sub:foo")) = true.
Proof.
  intros context.
  pose proof (getMount_longest_prefix context "cache:sub:foo"
                mounts_example_reachable) as (_ & _ & Hin & Hpre & _).
  split; [exact mounts_example_reachable|].
  split; [reflexivity|]. split; [reflexivity|]. split; [exact Hin|exact Hpre].
Defined.



End RoutingExamples.

(** ** Watch fan-in *)

Section WatchFanIn.
Context {W : Type}.
Import Storage Types JsString Utils.
Implicit Types (context : StorageCTX (W := W)).

(** What a driver's report reaches: [watch] hands [onChange] itself to the
    driver and drops [base], and [onChange] calls every listener once with
    the normalized key it was given. *)
Lemma watch_passes_onChange (d : Driver W) base f :
  Types.watch d = Some f -> Storage.watch d onChange_cb base = f onChange_cb.
Proof. unfold Storage.watch. now intros ->. Qed.

Lemma invoke_onChange context event key :
  invoke onChange_cb context event key =
  if watching context
  then map (fun listener => (listener, event, normalizeKey (Some key)))
           (watchListeners context)
  else [].
Proof. unfold invoke, onChange. now destruct (watching context). Qed.

End WatchFanIn.

Section WatchFanInExample.
Import Storage Types Memory Scenario JsString Utils.

(** C2 (the code departs from the claim).  A driver with a [watch] method is
    mounted at "mnt:", the subscribers 7 and 8 register, and the driver
    reports [("update", "x")] through the callback it was given.  Each
    subscriber is called exactly once, but with the key "x": the mount base
    is not prepended, where the claim has "mnt:x". *)
Theorem watch_event_key_lacks_base :
  let d := watching_memory 1 in
  let '(c1, h1) := mounted storage0 "mnt" d heap0 in
  let '(c2, h2) := storage_watch c1 7 h1 in
  let '(c3, h3) := storage_watch c2 8 h2 in
  watching c3 = true
  /\ watchListeners c3 = [7; 8]
  /\ JsMap.keys (unwatch c3) = [""; "mnt:"]
  /\ base (getMount c3 "mnt:x") = "mnt:"
  /\ (exists f, Types.watch d = Some f
                /\ Storage.watch d onChange_cb "mnt:" = f onChange_cb)
  /\ invoke onChange_cb c3 update "x" = [(7, update, "x"); (8, update, "x")]
  /\ invoke onChange_cb c3 update "x"
     <> [(7, update, "mnt:" ++ "x"); (8, update, "mnt:" ++ "x")].
Proof.
  cbv zeta. simpl mounted. repeat split; try reflexivity.
  - eexists. split; reflexivity.
  - discriminate.
Qed.

End WatchFanInExample.

(** ** Depth-limited enumeration *)

Section DepthFilter.
Import Storage Types Memory Scenario JsString Utils.

(** On a number, [filterKeyByDepth] keeps a key iff it has at most that many
    colons. *)
Lemma filterKeyByDepth_number key (depth : Z) :
  filterKeyByDepth key (VNumber depth)
  = (Z.of_nat (countChar ":" key) <=? depth)%Z.
Proof. reflexivity. Qed.

(** A base key other than [""] is not a number. *)
Lemma digits_colon : forall s acc,
  JsValue.digits acc (s ++ ":") = None.
Proof.
  induction s as [|c s IH]; intros acc; simpl; auto.
  destruct (JsValue.digit_of c); auto.
  destruct (JsValue.is_whitespace c); auto.
  assert (E : forall t, JsValue.trim_left (t ++ ":") <> "").
  { induction t as [|a t IHt]; simpl; [discriminate|].
    destruct (JsValue.is_whitespace a); auto. discriminate. }
  specialize (E s). now destruct (JsValue.trim_left (s ++ ":")).
Qed.

Lemma StringToNumber_colon s : JsValue.StringToNumber (s ++ ":") = None.
Proof.
  unfold JsValue.StringToNumber.
  induction s as [|c s IH]; simpl; auto.
  destruct (JsValue.is_whitespace c); auto.
  apply (digits_colon (String c s)).
Qed.

(** What the engine's filter does with the [base] it is handed: under the
    root base only keys without a colon pass, under any other base none. *)
Lemma engine_depth_filter key base :
  filterKeyByDepth key (VString (normalizeBaseKey base))
  = match normalizeBaseKey base with
    | "" => (countChar ":" key =? 0)%nat
    | _ => false
    end.
Proof.
  unfold normalizeBaseKey. destruct (normalizeKey base) as [|c s] eqn:E.
  - unfold filterKeyByDepth, JsValue.number_le. simpl.
    destruct (countChar ":" key); reflexivity.
  - unfold filterKeyByDepth, JsValue.number_le, JsValue.ToNumber.
    rewrite StringToNumber_colon. reflexivity.
Qed.

(** C3 (the code departs from the claim).  The root driver stores a, a:b,
    a:b:c and a:b:c:d.  [getKeys("", { maxDepth: 1 })] returns ["a"] only,
    not ["a", "a:b"]; it returns the same for [maxDepth] 3 and without
    [maxDepth], because the filter is applied to [base], not to
    [opts.maxDepth]; under the base "a" it returns nothing.  On the number
    1 the filter itself keeps "a" and "a:b". *)
Theorem getKeys_maxDepth_scenario :
  let E := plain_externals in
  let h :=
    set_all E storage0
      [("a", VString "1"); ("a:b", VString "2");
       ("a:b:c", VString "3"); ("a:b:c:d", VString "4")] heap0 in
  fst (getKeys (memory 0) "" {| maxDepth := None |} h)
    = Ok ["a"; "a:b"; "a:b:c"; "a:b:c:d"]
  /\ fst (storage_getKeys storage0 (Some "") {| maxDepth := Some 1%Z |} h) = Ok ["a"]
  /\ fst (storage_getKeys storage0 (Some "") {| maxDepth := Some 1%Z |} h)
     <> Ok ["a"; "a:b"]
  /\ fst (storage_getKeys storage0 (Some "") {| maxDepth := Some 3%Z |} h) = Ok ["a"]
  /\ fst (storage_getKeys storage0 None {| maxDepth := None |} h) = Ok ["a"]
  /\ fst (storage_getKeys storage0 (Some "a") {| maxDepth := Some 1%Z |} h) = Ok []
  /\ filter (fun key => filterKeyByDepth key (VNumber 1))
            ["a"; "a:b"; "a:b:c"; "a:b:c:d"] = ["a"; "a:b"].
Proof.
  cbv zeta. repeat split; try reflexivity. discriminate.
Qed.

End DepthFilter.

(** ** The overlay driver *)

Section OverlayGet.
Context {W : Type}.
Import Types Overlay.
Implicit Types (layers above below : list (Driver W)) (key : string).

Lemma getItem_loop_skip above : forall key layers w w1,
  all_null key above w w1 ->
  getItem_loop (above ++ layers) key w = getItem_loop layers key w1.
Proof.
  induction above as [|layer rest IH]; intros key layers w w1 Hnull.
  - inversion Hnull; subst. reflexivity.
  - inversion Hnull as [|? ? ? w' ? Hget Hrest]; subst.
    simpl. unfold bind. rewrite Hget. simpl. now apply IH.
Qed.

(** C4.  [get(K)] of an overlay over [layers].  Let every layer above some
    layer [lower] (none, when [lower] is the top layer) answer [null] for [K],
    and let [lower] answer [v].  If [v] is the tombstone sentinel, [get(K)]
    returns [null] and reads no further layer; if [v] is any other non-null
    value, [get(K)] returns [v].  If all layers answer [null], [get(K)]
    returns [null].  The worlds record which layers were read. *)
Theorem overlay_getItem id layers key :
  getItem (overlay id layers) key = getItem_loop layers key
  /\ (forall above lower below w w1 w2 v,
        layers = (above ++ lower :: below)%list ->
        all_null key above w w1 ->
        getItem lower key w1 = (Ok v, w2) ->
        (v = VString OVERLAY_REMOVED ->
           getItem (overlay id layers) key w = (Ok VNull, w2))
        /\ (v <> VNull -> v <> VString OVERLAY_REMOVED ->
           getItem (overlay id layers) key w = (Ok v, w2)))
  /\ (forall w w1,
        all_null key layers w w1 ->
        getItem (overlay id layers) key w = (Ok VNull, w1)).
Proof.
  split; [reflexivity|]. split.
  - intros above lower below w w1 w2 v -> Hnull Hget. simpl.
    rewrite (getItem_loop_skip above key (lower :: below) w w1 Hnull).
    simpl. unfold bind. rewrite Hget. split.
    + intros ->. reflexivity.
    + intros Hnn Hnt.
      destruct v as [| | b | n | s]; try reflexivity; [congruence|].
      simpl. destruct (String.eqb_spec s OVERLAY_REMOVED) as [->|]; [congruence|].
      reflexivity.
  - intros w w1 Hnull. simpl.
    rewrite <- (app_nil_r layers).
    now rewrite (getItem_loop_skip layers key [] w w1 Hnull).
Qed.

End OverlayGet.

Section OverlayWrite.
Import Types Memory Overlay.
Implicit Types (h : heap) (l : loc) (key : string).

Lemma mapM_pure {W A B} (f : A -> M W B) (g : W -> A -> B) xs :
  (forall x w, f x w = (Ok (g w x), w)) ->
  forall w, mapM f xs w = (Ok (map (g w) xs), w).
Proof.
  intros Hf. induction xs as [|x rest IH]; intros w; simpl; auto.
  now rewrite Hf, IH.
Qed.

Lemma heap_upd_same h l m : heap_upd h l m l = m.
Proof. unfold heap_upd. now rewrite Nat.eqb_refl. Qed.

Lemma heap_upd_other h l m l' : l' <> l -> heap_upd h l m l' = h l'.
Proof. unfold heap_upd. intros Hne. apply Nat.eqb_neq in Hne. now rewrite Hne. Qed.

(** Reading the key just written with the sentinel from a memory layer. *)
Lemma memory_reads_sentinel h l key :
  getItem (memory l) key
    (heap_upd h l (JsMap.set (h l) key (VString OVERLAY_REMOVED)))
  = (Ok (VString OVERLAY_REMOVED),
     heap_upd h l (JsMap.set (h l) key (VString OVERLAY_REMOVED))).
Proof.
  simpl. unfold get_or_null. now rewrite heap_upd_same, JsMap_get_set_eq.
Qed.


Lemma mapM_cons_ok {W A B} (f : A -> M W B) x rest w y w' ys w'' :
  f x w = (Ok y, w') ->
  mapM f rest w' = (Ok ys, w'') ->
  mapM f (x :: rest) w = (Ok (y :: ys), w'').
Proof. intros Hx Hrest. simpl. now rewrite Hx, Hrest. Qed.

Lemma memory_layers_keys (locs : list loc) base opts h :
  mapM (fun layer : Driver heap =>
          keys <- getKeys layer base opts ;;
          ret (map (fun key => DriverUtils.normalizeKey (Some key) ":") keys))%js
       (map memory locs) h
  = (Ok (map (fun l => map (fun key => DriverUtils.normalizeKey (Some key) ":")
                           (JsMap.keys (h l))) locs), h).
Proof.
  induction locs as [|l rest IH]; [reflexivity|].
  cbn [map]. eapply mapM_cons_ok; [reflexivity|exact IH].
Qed.


End OverlayWrite.

Section OverlaySetSentinel.
Import Types Memory Overlay.

(** C6, as amended.  The overlay's [set] singles out no value: every value,
    the tombstone sentinel included, is forwarded to [set] of layer 0, and
    nothing happens when there is no layer 0 or it has no [set].  So
    [set(k, "__OVERLAY_REMOVED__")] is the same operation as [remove(k)];
    over a memory top layer it succeeds, stores the sentinel under [k], and
    [get(k)] then returns [null]. *)
Theorem overlay_setItem_forwards_sentinel id (layers : list (Driver heap)) key :
  exists set rm,
    setItem (overlay id layers) = Some set
    /\ removeItem (overlay id layers) = Some rm
    /\ set key (VString OVERLAY_REMOVED) = rm key
    /\ (forall v,
          set key v =
          match layers with
          | [] => ret tt
          | layer0 :: _ =>
              match setItem layer0 with
              | Some layer0_set => layer0_set key v
              | None => ret tt
              end
          end)
    /\ (forall l0 rest h,
          layers = memory l0 :: rest ->
          let h' := heap_upd h l0 (JsMap.set (h l0) key (VString OVERLAY_REMOVED)) in
          set key (VString OVERLAY_REMOVED) h = (Ok tt, h')
          /\ JsMap.get (h' l0) key = Some (VString OVERLAY_REMOVED)
          /\ getItem (overlay id layers) key h' = (Ok VNull, h')).
Proof.
  eexists. eexists. split; [reflexivity|]. split; [reflexivity|].
  split; [reflexivity|]. split.
  - intros v. unfold top_setItem, top. now destruct layers.
  - intros l0 rest h -> h'. split; [reflexivity|]. split.
    + unfold h'. now rewrite heap_upd_same, JsMap_get_set_eq.
    + simpl. unfold bind, get_or_null, h'.
      rewrite heap_upd_same, JsMap_get_set_eq. reflexivity.
Qed.

End OverlaySetSentinel.

(** ** The overlay scenario: [top = memory{}], [bottom = memory{cfg:port}] *)

Section OverlayExamples.
Import Types Memory Overlay Scenario.

(** Overlay read-through: location 1 is the empty top layer, location 2 the
    bottom layer holding "cfg:port"; the port is read from the bottom layer
    and a key that no layer holds reads as [null]. *)
Lemma overlay_getItem_witness :
  let top := memory 1 in
  let bottom := memory 2 in
  let ov := overlay 9 [top; bottom] in
  let h := heap_upd heap0 2 [("cfg:port", VNumber 8080)] in
  all_null "cfg:port" [top] h h
  /\ getItem bottom "cfg:port" h = (Ok (VNumber 8080), h)
  /\ VNumber 8080 <> VNull
  /\ VNumber 8080 <> VString OVERLAY_REMOVED
  /\ getItem ov "cfg:port" h = (Ok (VNumber 8080), h)
  /\ all_null "other" [top; bottom] h h
  /\ getItem ov "other" h = (Ok VNull, h).
Proof.
  intros top bottom ov h.
  assert (Hnull : all_null "cfg:port" [top] h h).
  { eapply all_null_cons; [reflexivity|apply all_null_nil]. }
  assert (Hget : getItem bottom "cfg:port" h = (Ok (VNumber 8080), h)) by reflexivity.
  assert (Hnn : VNumber 8080 <> VNull) by discriminate.
  assert (Hnt : VNumber 8080 <> VString OVERLAY_REMOVED) by discriminate.
  assert (Hall : all_null "other" [top; bottom] h h).
  { eapply all_null_cons; [reflexivity|].
    eapply all_null_cons; [reflexivity|apply all_null_nil]. }
  destruct (overlay_getItem 9 [top; bottom] "cfg:port") as (_ & Hlower & _).
  destruct (overlay_getItem 9 [top; bottom] "other") as (_ & _ & Hnone).
  split; [exact Hnull|]. split; [exact Hget|].
  split; [exact Hnn|]. split; [exact Hnt|].
  split.
  - exact (proj2 (Hlower [top] bottom [] h h h (VNumber 8080)
                    eq_refl Hnull Hget) Hnn Hnt).
  - split; [exact Hall|exact (Hnone h h Hall)].
Defined.



(** The claim as stated fails: [set] with the sentinel is not rejected; it
    succeeds and the sentinel is stored in layer 0. *)
Lemma overlay_setItem_counterexample :
  let ov := overlay 9 [memory 1; memory 2] in
  exists set,
    setItem ov = Some set
    /\ fst (set "k" (VString "__OVERLAY_REMOVED__") heap0) = Ok tt
    /\ (forall e, fst (set "k" (VString "__OVERLAY_REMOVED__") heap0) <> Throw e)
    /\ JsMap.get (snd (set "k" (VString "__OVERLAY_REMOVED__") heap0) 1) "k"
       = Some (VString "__OVERLAY_REMOVED__").
Proof.
  cbv zeta. eexists. split; [reflexivity|].
  repeat split; try reflexivity. intros e. discriminate.
Qed.

(** Over two memory layers, the sentinel written by [set] reads as [null]. *)
Lemma overlay_setItem_forwards_sentinel_witness :
  let layers := [memory 1; memory 2] in
  let h' := heap_upd heap0 1 (JsMap.set (heap0 1) "k" (VString OVERLAY_REMOVED)) in
  layers = memory 1 :: [memory 2]
  /\ getItem (overlay 9 layers) "k" h' = (Ok VNull, h').
Proof.
  intros layers h'.
  destruct (overlay_setItem_forwards_sentinel 9 layers "k")
    as (set & rm & _ & _ & _ & _ & Hmem).
  split; [reflexivity|].
  exact (proj2 (proj2 (Hmem 1 [memory 2] heap0 eq_refl))).
Defined.

End OverlayExamples.

(** ** The filesystem driver: traversal guard *)

Section FsGuard.
Import Types Fs.

(** A match of the regular expression at the start of [s]. *)
Lemma accept_traverse s :
  Regex.accept PATH_TRAVERSE_RE s (fun _ => true) = true
  <-> (exists post, s = "..:" ++ post) \/ s = "..".
Proof.
  unfold PATH_TRAVERSE_RE. simpl.
  destruct s as [|a [|b [|c rest]]]; simpl.
  - split; [discriminate|]. intros [[post E]|E]; discriminate.
  - rewrite !andb_false_r. simpl.
    split; [discriminate|]. intros [[post E]|E]; discriminate.
  - rewrite !andb_false_r, !andb_true_r. simpl.
    destruct (Ascii.eqb_spec a "."), (Ascii.eqb_spec b "."); subst; simpl;
      split; auto; try discriminate; intros [[post E]|E]; try discriminate;
      injection E; intros; congruence.
  - rewrite !andb_true_r, !andb_false_r, !orb_false_r.
    destruct (Ascii.eqb_spec a "."), (Ascii.eqb_spec b "."),
             (Ascii.eqb_spec c ":"); subst; simpl;
      split; eauto; try discriminate; intros [[post E]|E]; try discriminate;
      injection E; intros; congruence.
Qed.

Lemma test_cons r c s :
  Regex.test r (String c s) = Regex.accept r (String c s) (fun _ => true) || Regex.test r s.
Proof. reflexivity. Qed.

Lemma test_traverse_sound s :
  Regex.test PATH_TRAVERSE_RE s = true -> traversal_pattern s.
Proof.
  induction s as [|c s IH].
  - simpl. discriminate.
  - rewrite test_cons. intros Ht. apply orb_prop in Ht as [Ha|Hr].
    + apply accept_traverse in Ha as [[post E]|E].
      * left. exists "", post. exact E.
      * right. exists "". exact E.
    + destruct (IH Hr) as [(pre & post & E)|(pre & E)].
      * left. exists (String c pre), post. simpl. now rewrite E.
      * right. exists (String c pre). simpl. now rewrite E.
Qed.

Lemma test_traverse_middle pre : forall post,
  Regex.test PATH_TRAVERSE_RE (pre ++ "..:" ++ post) = true.
Proof.
  induction pre as [|c pre IH]; intros post.
  - destruct post; reflexivity.
  - change (String c pre ++ "..:" ++ post) with (String c (pre ++ "..:" ++ post)).
    rewrite test_cons, IH. apply orb_true_r.
Qed.

Lemma test_traverse_end pre :
  Regex.test PATH_TRAVERSE_RE (pre ++ "..") = true.
Proof.
  induction pre as [|c pre IH].
  - reflexivity.
  - change (String c pre ++ "..") with (String c (pre ++ "..")).
    rewrite test_cons, IH. apply orb_true_r.
Qed.

Lemma test_traverse_iff s :
  Regex.test PATH_TRAVERSE_RE s = true <-> traversal_pattern s.
Proof.
  split; [apply test_traverse_sound|].
  intros [(pre & post & ->)|(pre & ->)].
  - apply test_traverse_middle.
  - apply test_traverse_end.
Qed.

Context {W : Type} `{Externals} (node : NodeFs (W := W)).

(** C7, as amended.  The key check of the filesystem driver.  [r(key)]
    throws the InvalidKey error iff the key contains "..:" or ends with "..";
    otherwise it is the joined path.  Every operation that resolves its key
    -- [has], [get], [getRaw], [getMeta] and [listKeys], and [set], [setRaw]
    and [remove] of a driver that is not read-only -- fails with that error
    on such a key and leaves the world as it was, whatever the file
    functions are: no file is accessed.  In read-only mode [set], [setRaw]
    and [remove] return at once for every key, without an error and without
    a file access.  Through the engine, [get("../etc/passwd")] is normalized
    to "..:etc:passwd" and fails with InvalidKey, and [get("s1:te..st..js")]
    reads the file "s1/te..st..js" under the base. *)
Theorem fs_traversal_guard id (userOptions : FSStorageOptions) (dir : string) :
  let d := driver_object node id userOptions dir in
  let context := Storage.createStorage (Some d) d in
  (forall key,
     (r node dir key = Throw (InvalidKey "fs" key) <-> traversal_pattern key)
     /\ ((exists e, r node dir key = Throw e) <-> traversal_pattern key)
     /\ (~ traversal_pattern key ->
         r node dir key = Ok (join node dir (JsString.replaceChar ":" "/" key))))
  /\ (forall key w,
        traversal_pattern key ->
        hasItem d key w = (Throw (InvalidKey "fs" key), w)
        /\ getItem d key w = (Throw (InvalidKey "fs" key), w)
        /\ (exists f, getItemRaw d = Some f
                      /\ f key w = (Throw (InvalidKey "fs" key), w))
        /\ (exists f, getMeta d = Some f
                      /\ f key w = (Throw (InvalidKey "fs" key), w))
        /\ getKeys d key {| maxDepth := None |} w = (Throw (InvalidKey "fs" key), w)
        /\ (readOnly userOptions = false ->
            exists fset fraw frm,
              setItem d = Some fset /\ setItemRaw d = Some fraw
              /\ removeItem d = Some frm
              /\ (forall v, fset key v w = (Throw (InvalidKey "fs" key), w))
              /\ (forall v, fraw key v w = (Throw (InvalidKey "fs" key), w))
              /\ frm key w = (Throw (InvalidKey "fs" key), w)))
  /\ (forall key w,
        readOnly userOptions = true ->
        exists fset fraw frm,
          setItem d = Some fset /\ setItemRaw d = Some fraw
          /\ removeItem d = Some frm
          /\ (forall v, fset key v w = (Ok tt, w))
          /\ (forall v, fraw key v w = (Ok tt, w))
          /\ frm key w = (Ok tt, w))
  /\ (forall key w,
        ~ traversal_pattern key ->
        getItem d key w
        = readFile node (join node dir (JsString.replaceChar ":" "/" key))
                   (Some "utf8") w)
  /\ Utils.normalizeKey (Some "../etc/passwd") = "..:etc:passwd"
  /\ (forall w,
        Storage.storage_getItem context "../etc/passwd" w
        = (Throw (InvalidKey "fs" "..:etc:passwd"), w))
  /\ (forall w,
        Storage.storage_getItem context "s1:te..st..js" w
        = (value <- readFile node (join node dir "s1/te..st..js") (Some "utf8") ;;
           ret (destr value))%js w).
Proof.
  intros d context.
  assert (Hr : forall key,
             (r node dir key = Throw (InvalidKey "fs" key) <-> traversal_pattern key)
             /\ ((exists e, r node dir key = Throw e) <-> traversal_pattern key)
             /\ (~ traversal_pattern key ->
                 r node dir key = Ok (join node dir (JsString.replaceChar ":" "/" key)))).
  { intros key. unfold r. rewrite <- test_traverse_iff.
    destruct (Regex.test PATH_TRAVERSE_RE key); repeat split; auto;
      try discriminate; try congruence.
    - intros _. eauto.
    - intros [e He]. discriminate. }
  split; [exact Hr|]. split; [|split; [|split; [|split; [reflexivity|split]]]].
  - intros key w Hpat. apply (proj2 (proj1 (Hr key))) in Hpat.
    unfold d, driver_object. simpl. rewrite Hpat. simpl.
    split; [reflexivity|]. split; [reflexivity|].
    split; [eexists; split; [reflexivity|]; cbv beta; now rewrite Hpat|].
    split; [eexists; split; [reflexivity|]; cbv beta; now rewrite Hpat|].
    split; [reflexivity|].
    intros ->. do 3 eexists.
    split; [reflexivity|]. split; [reflexivity|]. split; [reflexivity|].
    cbv beta. rewrite Hpat. simpl. repeat split.
  - intros key w Hro. do 3 eexists.
    split; [reflexivity|]. split; [reflexivity|]. split; [reflexivity|].
    cbv beta. rewrite Hro. repeat split.
  - intros key w Hnot. apply (proj2 (proj2 (Hr key))) in Hnot.
    unfold d, driver_object. simpl. now rewrite Hnot.
  - intros w. reflexivity.
  - intros w. reflexivity.
Qed.

End FsGuard.

Section FsGuardExample.
Import Types Fs Scenario.

(** The two keys of the traversal scenario on a logging file system: the
    first is rejected and the log of accessed paths stays empty, the second
    reads one file. *)
Lemma fs_traversal_guard_witness :
  let d := driver_object logging_fs 5 {| base := Some "/data"; readOnly := false;
                                         noClear := false |} "/data" in
  let context := Storage.createStorage (Some d) d in
  let w : FsWorld := ([("/data/s1/te..st..js", "ok")], []) in
  traversal_pattern "..:etc:passwd"
  /\ ~ traversal_pattern "s1:te..st..js"
  /\ Storage.storage_getItem (H := plain_externals) context "../etc/passwd" w
     = (Throw (InvalidKey "fs" "..:etc:passwd"), w)
  /\ Storage.storage_getItem (H := plain_externals) context "s1:te..st..js" w
     = (Ok (VString "ok"), (fst w, ["/data/s1/te..st..js"])).
Proof.
  intros d context w.
  destruct (fs_traversal_guard (H := plain_externals) logging_fs 5
              {| base := Some "/data"; readOnly := false; noClear := false |} "/data")
    as (Hr & _ & _ & _ & _ & Hbad & Hgood).
  split; [left; exists "", "etc:passwd"; reflexivity|].
  split.
  - intros Hpat. apply (proj2 (proj1 (Hr "s1:te..st..js"))) in Hpat.
    vm_compute in Hpat. discriminate.
  - split; [exact (Hbad w)|].
    etransitivity; [exact (Hgood w)|reflexivity].
Defined.

(** The claim as stated fails for a read-only driver: [set] with a key that
    contains "..:" returns without an error (and writes nothing). *)
Lemma fs_traversal_guard_counterexample :
  let d := driver_object logging_fs 5 {| base := Some "/data"; readOnly := true;
                                         noClear := false |} "/data" in
  let w : FsWorld := ([], []) in
  traversal_pattern "..:etc:passwd"
  /\ exists fset,
       setItem d = Some fset
       /\ fset "..:etc:passwd" (VString "x") w = (Ok tt, w)
       /\ fst (fset "..:etc:passwd" (VString "x") w)
          <> Throw (InvalidKey "fs" "..:etc:passwd").
Proof.
  cbv zeta. split; [left; exists "", "etc:passwd"; reflexivity|].
  eexists. split; [reflexivity|]. split; [reflexivity|discriminate].
Qed.

End FsGuardExample.

(** ** The HTTP handler: GET of a leaf key *)

Section HttpGet.
Import Storage Types Memory Scenario Server.

(** C8 (the code departs from the claim).  The storage is the default one,
    over the memory driver, and holds "bar" under "foo".  The memory driver
    has no [getMeta], so [storage.getMeta] resolves to [null] and
    [setMetaHeaders] throws a TypeError when it reads [meta.mtime]: GET /foo
    fails instead of returning "bar", with and without
    [Accept: application/octet-stream].  GET of a key that is not stored is
    the 404 of the claim. *)
Theorem http_get_leaf_memory_storage :
  let E := plain_externals in
  let h := set_all E storage0 [("foo", VString "bar")] heap0 in
  let raw := [("accept", "application/octet-stream")] in
  fst (storage_getItem storage0 "foo" h) = Ok (VString "bar")
  /\ fst (storage_getMeta storage0 "foo" h) = Ok None
  /\ fst (createH3StorageHandler storage0 no_hooks (get_request "/foo" []) ([], h))
     = Throw (TypeError "Cannot read properties of null (reading 'mtime')")
  /\ fst (createH3StorageHandler storage0 no_hooks (get_request "/foo" raw) ([], h))
     = Throw (TypeError "Cannot read properties of null (reading 'mtime')")
  /\ fst (createH3StorageHandler storage0 no_hooks (get_request "/foo" []) ([], h))
     <> Ok (BodyText "bar")
  /\ fst (createH3StorageHandler storage0 no_hooks (get_request "/missing" []) ([], h))
     = Throw (H3Error 404 "KV value not found").
Proof.
  cbv zeta. repeat split; try reflexivity. discriminate.
Qed.

End HttpGet.

Section HttpGetMeta.
Context {W : Type} `{Externals}.
Import Storage Types Server JsString Utils.

Lemma bind_lift_ok {A B} (m : M W A) (k : A -> M SW B) hs w v w1 :
  m w = (Ok v, w1) -> bind (lift m) k (hs, w) = k v (hs, w1).
Proof. intros Hm. unfold bind, lift. now rewrite Hm. Qed.

Lemma setMetaHeaders_some meta hs (w : W) :
  setMetaHeaders (Some meta) (hs, w) = (Ok tt, ((hs ++ meta_headers meta)%list, w)).
Proof.
  unfold setMetaHeaders, meta_headers, bind, setResponseHeader, ret.
  destruct (mtime meta) as [t|], (ttl meta) as [n|]; simpl;
    try destruct (Z.eqb n 0); simpl;
    rewrite <- ?app_assoc, ?app_nil_r; reflexivity.
Qed.

(** When the driver does supply a metadata record, GET of a leaf key is as
    the claim describes it: 404 iff the value is [null], otherwise the value
    (raw, or stringified) with the headers for [mtime] and [ttl].  With
    [null] metadata the request fails. *)
Lemma http_get_leaf_with_meta (context : StorageCTX (W := W)) p hdrs b hs w v w1 :
  let event := {| method := "GET"; path := p; headers := hdrs; body := b |} in
  let opts := {| authorize := None; resolvePath := None |} in
  let isRaw := is_octet_stream (JsMap.get hdrs "accept") in
  let key := normalizeKey (Some p) in
  match lastChar p with
  | Some c => Ascii.eqb c ":" || Ascii.eqb c "/"
  | None => false
  end = false ->
  (if isRaw then storage_getItemRaw context key else storage_getItem context key) w
    = (Ok v, w1) ->
  (v = VNull ->
     createH3StorageHandler context opts event (hs, w)
     = (Throw (H3Error 404 "KV value not found"), (hs, w1)))
  /\ (v <> VNull ->
      forall w2,
        (storage_getMeta context key w1 = (Ok None, w2) ->
         createH3StorageHandler context opts event (hs, w)
         = (Throw (TypeError "Cannot read properties of null (reading 'mtime')"),
            (hs, w2)))
        /\ (forall meta text,
              storage_getMeta context key w1 = (Ok (Some meta), w2) ->
              (if isRaw then True else stringify v = Ok text) ->
              createH3StorageHandler context opts event (hs, w)
              = (Ok (if isRaw then BodyValue v else BodyText text),
                 ((hs ++ meta_headers meta)%list, w2)))).
Proof.
  intros event opts isRaw key Hleaf Hget.
  unfold createH3StorageHandler. cbn [resolvePath opts path event method authorize].
  rewrite Hleaf. cbn [MethodToTypeMap String.eqb Ascii.eqb Bool.eqb].
  unfold getRequestHeader. change (headers event) with hdrs.
  fold isRaw. fold key.
  rewrite !(bind_lift_ok _ _ hs _ _ _ Hget).
  split.
  - intros ->. reflexivity.
  - intros Hnn w2. split.
    + intros Hmeta.
      destruct v; try congruence;
        rewrite (bind_lift_ok _ _ hs _ _ _ Hmeta); reflexivity.
    + intros meta text Hmeta Htext.
      destruct v; try congruence;
        rewrite (bind_lift_ok _ _ hs _ _ _ Hmeta);
        unfold bind at 1; rewrite setMetaHeaders_some;
        destruct isRaw; try reflexivity;
        unfold bind, lift, of_result; rewrite Htext; reflexivity.
Qed.

End HttpGetMeta.

(** ** Runs of the repository's tests on the embedding *)

Section RepositoryTests.
Import Storage Types Memory Scenario JsString Utils.

(** The mounts of test/storage.test.ts, "getMount and getMounts": routing
    of normalized keys, and the mount lists the test expects for the bases
    "cache:", "cache:sub:" (with parents) and [""]. *)
Example test_getMount_getMounts :
  let context :=
    fst (mounted (fst (mounted (fst (mounted storage0 "/mnt" (memory 1) heap0))
                               "cache" (memory 2) heap0))
                 "cache:sub" (memory 3) heap0) in
  base (getMount context (normalizeKey (Some "/cache:foo"))) = "cache:"
  /\ base (getMount context (normalizeKey (Some "/cache:sub:foo"))) = "cache:sub:"
  /\ base (getMount context (normalizeKey (Some "/other"))) = ""
  /\ map mountpoint (getMounts context (normalizeBaseKey (Some "/cache")) false)
     = ["cache:sub:"; "cache:"]
  /\ map mountpoint (getMounts context (normalizeBaseKey (Some "/cache:sub")) true)
     = ["cache:sub:"; "cache:"; ""]
  /\ map mountpoint (getMounts context "" false)
     = ["cache:sub:"; "cache:"; "mnt:"; ""].
Proof. cbv zeta. repeat split; reflexivity. Qed.

(** test/storage.test.ts, "mount overides", without its [clear("/mnt")]
    (which also reaches the root driver, an ancestor mount): the value
    written before the mount is shadowed while "/mnt" is mounted and is back
    after the unmount. *)
Example test_mount_overrides :
  let E := plain_externals in
  let h1 := set_all E storage0 [("/mnt/test.txt", VString "v1");
                                ("/mnt/test.base.txt", VString "v1")] heap0 in
  let '(c2, h2) := mounted storage0 "/mnt" (memory 1) h1 in
  let h3 := set_all E c2 [("/mnt/test.txt", VString "v2");
                          ("/mnt/foo/test.txt", VString "v3")] h2 in
  let '(c4, h4) := mounted c2 "/mnt/foo" (memory 2) h3 in
  fst (storage_getItem c4 "/mnt/foo/test.txt" h4) = Ok VNull
  /\ fst (storage_getItem c4 "/mnt/test.txt" h4) = Ok (VString "v2")
  /\ JsMap.keys (h4 0) = ["mnt:test.txt"; "mnt:test.base.txt"]
  /\ exists c5,
       storage_unmount c4 "/mnt" h4 = (Ok c5, h4)
       /\ mountpoints c5 = ["mnt:foo:"; ""]
       /\ fst (storage_getItem c5 "/mnt/test.txt" h4) = Ok (VString "v1").
Proof.
  cbv zeta. simpl mounted. repeat split; try reflexivity.
  eexists. repeat split; reflexivity.
Qed.

(** While the engine is watching, unmounting a driver without [watch] fails:
    the stored handle is [() => {}], which returns [undefined], and
    [unmount] calls [.catch] on that.  The mount stays. *)
Example unmount_while_watching :
  let '(c1, h1) := mounted storage0 "/mnt" (memory 1) heap0 in
  let '(c2, h2) := storage_watch c1 7 h1 in
  fst (storage_unmount c2 "/mnt" h2)
  = Throw (TypeError "Cannot read properties of undefined (reading 'catch')").
Proof. reflexivity. Qed.

(** test/drivers/fs.test.ts: the keys of "invalidKeys" are rejected once the
    engine has normalized them; a file name with dots inside is not. *)
Example test_fs_invalid_keys :
  forallb (fun key => Regex.test Fs.PATH_TRAVERSE_RE (normalizeKey (Some key)))
          ["../foobar"; "..:foobar"; "../"; "..:"; ".."] = true
  /\ Regex.test Fs.PATH_TRAVERSE_RE (normalizeKey (Some "s1/te..st..js")) = false.
Proof. split; reflexivity. Qed.

End RepositoryTests.

(* ================================================================== *)
(** * Further properties of the embedded sources *)
(* ================================================================== *)

(** ** Keys: base keys, joining, and the driver-side normalizer *)

Section KeyAlgebra.
Import Utils JsString KeyShape.

Lemma all_chars_app (P : ascii -> bool) a b :
  all_chars P (a ++ b) = all_chars P a && all_chars P b.
Proof.
  induction a as [|c a IH]; simpl; auto. now rewrite IH, andb_assoc.
Qed.

Lemma strip_trailing_app_colon k : strip_trailing (k ++ ":") = k.
Proof.
  induction k as [|c r IH]; [reflexivity|].
  change (String c r ++ ":") with (String c (r ++ ":")).
  destruct r as [|d r']; [reflexivity|].
  change (String d r' ++ ":") with (String d (r' ++ ":")) in *.
  now rewrite strip_trailing_cons, IH.
Qed.

Lemma lastChar_app a b : b <> "" -> lastChar (a ++ b) = lastChar b.
Proof.
  intros Hb. induction a as [|c a IH]; [reflexivity|].
  change (String c a ++ b) with (String c (a ++ b)).
  destruct (a ++ b) as [|d t] eqn:E.
  - destruct a; [simpl in E; congruence|discriminate].
  - now rewrite lastChar_cons.
Qed.

Lemma nodouble_app a b :
  nodouble a = true -> notrailing a = true -> nodouble b = true ->
  nodouble (a ++ b) = true.
Proof.
  unfold notrailing. intros Ha Hl Hb. induction a as [|c a IH]; [exact Hb|].
  pose proof (nodouble_tail _ _ Ha) as Ha'.
  destruct a as [|d a'].
  - simpl in Hl. change ("" ++ b) with b in IH.
    change (String c "" ++ b) with (String c b).
    destruct b as [|e b']; [reflexivity|].
    rewrite nodouble_cons, Hb. destruct (Ascii.eqb c ":"); [discriminate|reflexivity].
  - rewrite lastChar_cons in Hl.
    change (String c (String d a') ++ b) with (String c (String d (a' ++ b))).
    rewrite nodouble_cons. rewrite nodouble_cons in Ha.
    apply andb_prop in Ha as [Hcd _]. rewrite Hcd. simpl.
    exact (IH Ha' Hl).
Qed.

Lemma normalized_parts s :
  normalized s = true ->
  all_chars (fun c => negb (Ascii.eqb c "?")) s = true
  /\ all_chars (fun c => negb (is_slash c)) s = true
  /\ nodouble s = true /\ noleading s = true /\ notrailing s = true.
Proof.
  unfold normalized. intros H0.
  repeat (apply andb_prop in H0 as [H0 ?]). auto.
Qed.

(** A normalized key followed by one colon normalizes back to the key. *)
Lemma normalizeKey_app_colon k :
  normalized k = true -> normalizeKey (Some (k ++ ":")) = k.
Proof.
  intros Hk. destruct (normalized_parts _ Hk) as (Hq & Hs & Hd & Hl & Ht).
  destruct k as [|c r]; [reflexivity|].
  change (String c r ++ ":") with (String c (r ++ ":")).
  unfold normalizeKey, strip_ends.
  change (String c (r ++ ":")) with (String c r ++ ":").
  rewrite split_query_id, replace_slashes_id, collapse_colons_id.
  - rewrite strip_leading_id; [apply strip_trailing_app_colon|exact Hl].
  - apply nodouble_app; auto.
  - rewrite all_chars_app, Hs. reflexivity.
  - rewrite all_chars_app, Hq. reflexivity.
Qed.

(** The two shapes of a base key. *)
Lemma normalizeBaseKey_cases (base : option string) :
  normalizeBaseKey base = ""
  \/ exists k, k <> "" /\ normalized k = true /\ normalizeBaseKey base = k ++ ":".
Proof.
  pose proof (normalizeKey_normalized base) as Hn.
  unfold normalizeBaseKey.
  destruct (normalizeKey base) as [|c r] eqn:E; auto.
  right. exists (String c r). repeat split; auto. discriminate.
Qed.

(** X1.  [normalizeBaseKey] is idempotent, and a base key is either empty or
    a non-empty normalized key followed by exactly one colon; it names the
    same key as the text it was made from. *)
Theorem normalizeBaseKey_idempotent (base : option string) :
  normalizeBaseKey (Some (normalizeBaseKey base)) = normalizeBaseKey base
  /\ (normalizeBaseKey base = ""
      \/ exists k, k <> "" /\ normalized k = true
                   /\ normalizeBaseKey base = k ++ ":")
  /\ normalizeKey (Some (normalizeBaseKey base)) = normalizeKey base.
Proof.
  split; [|split; [apply normalizeBaseKey_cases|]].
  - pose proof (normalizeKey_normalized base) as Hn.
    unfold normalizeBaseKey at 2 3.
    destruct (normalizeKey base) as [|c r] eqn:E; [reflexivity|].
    unfold normalizeBaseKey. now rewrite (normalizeKey_app_colon _ Hn).
  - pose proof (normalizeKey_normalized base) as Hn.
    unfold normalizeBaseKey.
    destruct (normalizeKey base) as [|c r] eqn:E; [reflexivity|].
    now apply normalizeKey_app_colon.
Qed.

Lemma string_app_assoc (a b c : string) : (a ++ b) ++ c = a ++ b ++ c.
Proof. induction a as [|x a IH]; simpl; [reflexivity|now rewrite IH]. Qed.

Lemma string_app_nil_r (a : string) : a ++ "" = a.
Proof. induction a as [|x a IH]; simpl; [reflexivity|now rewrite IH]. Qed.

Lemma string_length_app (a b : string) :
  String.length (a ++ b) = (String.length a + String.length b)%nat.
Proof. induction a as [|x a IH]; simpl; [reflexivity|now rewrite IH]. Qed.

Lemma startsWith_app a b : startsWith (a ++ b) a = true.
Proof.
  unfold startsWith. induction a as [|x a IH]; simpl.
  - now destruct b.
  - destruct (Ascii.ascii_dec x x); [exact IH|contradiction].
Qed.

Lemma slice_app a b : slice (String.length a) (a ++ b) = b.
Proof. induction a as [|x a IH]; simpl; [reflexivity|exact IH]. Qed.

(** What a prefix test establishes: the string is the prefix followed by
    the slice. *)
Lemma startsWith_slice s p :
  startsWith s p = true -> p ++ slice (String.length p) s = s.
Proof.
  unfold startsWith. revert s. induction p as [|x p IH]; intros s Hp.
  - reflexivity.
  - destruct s as [|y s]; [discriminate|]. simpl in Hp.
    destruct (Ascii.ascii_dec x y) as [->|]; [|discriminate].
    simpl. now rewrite IH.
Qed.

Lemma collapse_colons_app a s :
  nodouble a = true -> notrailing a = true ->
  collapse_colons (a ++ s) = a ++ collapse_colons s.
Proof.
  unfold notrailing. induction a as [|c a IH]; intros Hd Hl; [reflexivity|].
  pose proof (nodouble_tail _ _ Hd) as Hd'.
  change (String c a ++ s) with (String c (a ++ s)).
  destruct a as [|d a'].
  - simpl in Hl. destruct (Ascii.eqb c ":") eqn:Ec; [discriminate|].
    now rewrite (collapse_colons_other _ _ Ec).
  - rewrite lastChar_cons in Hl.
    rewrite collapse_colons_cons.
    change (String d a' ++ s) with (String d (a' ++ s)) in *.
    rewrite nodouble_cons in Hd. apply andb_prop in Hd as [Hcd _].
    rewrite (IH Hd' Hl).
    destruct (Ascii.eqb_spec c ":") as [->|]; [|reflexivity].
    simpl in Hcd. destruct (Ascii.eqb d ":"); [discriminate|reflexivity].
Qed.

Lemma noleading_first c r : noleading (String c r) = true -> Ascii.eqb c ":" = false.
Proof. simpl. now destruct (Ascii.eqb c ":"). Qed.

(** A leading colon in front of a normalized key is trimmed. *)
Lemma normalizeKey_colon_app k :
  normalized k = true -> k <> "" -> normalizeKey (Some (":" ++ k)) = k.
Proof.
  intros Hk Hne. destruct (normalized_parts _ Hk) as (Hq & Hs & Hd & Hl & Ht).
  destruct k as [|c r]; [congruence|].
  pose proof (noleading_first _ _ Hl) as Ec.
  unfold normalizeKey, strip_ends.
  change (":" ++ String c r) with (String ":" (String c r)) at 1.
  cbv iota.
  rewrite split_query_id
    by (rewrite (all_chars_app _ ":" (String c r)), Hq; reflexivity).
  rewrite replace_slashes_id
    by (rewrite (all_chars_app _ ":" (String c r)), Hs; reflexivity).
  change (":" ++ String c r) with (String ":" (String c r)).
  rewrite collapse_colons_cons. cbn [Ascii.eqb Bool.eqb]. rewrite Ec.
  rewrite (collapse_colons_id _ Hd).
  cbn [strip_leading Ascii.eqb Bool.eqb].
  now apply strip_trailing_id.
Qed.

(** Two normalized keys joined by a doubled colon normalize to the keys
    joined by one colon. *)
Lemma normalizeKey_join2 b k :
  normalized b = true -> b <> "" -> normalized k = true -> k <> "" ->
  normalizeKey (Some (b ++ "::" ++ k)) = b ++ ":" ++ k.
Proof.
  intros Hb Hbne Hk Hkne.
  destruct (normalized_parts _ Hb) as (Hbq & Hbs & Hbd & Hbl & Hbt).
  destruct (normalized_parts _ Hk) as (Hq & Hs & Hd & Hl & Ht).
  assert (Hcol : collapse_colons ("::" ++ k) = ":" ++ k).
  { destruct k as [|c r]; [congruence|].
    pose proof (noleading_first _ _ Hl) as Ec.
    change ("::" ++ String c r) with (String ":" (String ":" (String c r))).
    rewrite collapse_colons_cons. cbn [Ascii.eqb Bool.eqb].
    rewrite collapse_colons_cons. cbn [Ascii.eqb Bool.eqb]. rewrite Ec.
    now rewrite (collapse_colons_id _ Hd). }
  destruct b as [|c r]; [congruence|].
  change (String c r ++ "::" ++ k) with (String c (r ++ "::" ++ k)).
  unfold normalizeKey, strip_ends.
  change (String c (r ++ "::" ++ k)) with (String c r ++ "::" ++ k).
  rewrite split_query_id, replace_slashes_id.
  - rewrite (collapse_colons_app _ _ Hbd Hbt), Hcol.
    rewrite strip_leading_id by exact Hbl.
    apply strip_trailing_id. unfold notrailing.
    rewrite lastChar_app by (destruct k; discriminate).
    rewrite (lastChar_app ":" k Hkne). exact Ht.
  - rewrite !all_chars_app, Hbs, Hs. reflexivity.
  - rewrite !all_chars_app, Hbq, Hq. reflexivity.
Qed.

(** X2.  Joining a base key with a non-empty normalized relative key, as
    [getKeys] does for the keys a driver lists, prepends the base key
    unchanged: the joined key starts with the base key, and cutting the base
    key off again (what [getMount] does with a mount base) gives the relative
    key back. *)
Theorem joinKeys_base_relative (base : option string) (k : string) :
  normalized k = true -> k <> "" ->
  let nb := normalizeBaseKey base in
  joinKeys [nb; k] = nb ++ k
  /\ startsWith (joinKeys [nb; k]) nb = true
  /\ slice (String.length nb) (joinKeys [nb; k]) = k.
Proof.
  intros Hk Hne nb.
  assert (E : joinKeys [nb; k] = nb ++ k).
  { unfold joinKeys. cbn [join].
    destruct (normalizeBaseKey_cases base) as [E0|(b & Hb & Hbn & E0)];
      fold nb in E0; rewrite E0.
    - now apply normalizeKey_colon_app.
    - rewrite !string_app_assoc. now apply normalizeKey_join2. }
  rewrite E. split; [reflexivity|]. split; [apply startsWith_app|apply slice_app].
Qed.

End KeyAlgebra.

Section KeyAlgebraDrivers.
Import Utils JsString KeyShape.

(** The base key of "/cache/" joined with the relative key "a:b". *)
Lemma joinKeys_base_relative_witness :
  normalized "a:b" = true
  /\ normalizeBaseKey (Some "/cache/") = "cache:"
  /\ joinKeys [normalizeBaseKey (Some "/cache/"); "a:b"] = "cache:a:b"
  /\ slice (String.length (normalizeBaseKey (Some "/cache/")))
           (joinKeys [normalizeBaseKey (Some "/cache/"); "a:b"]) = "a:b".
Proof.
  assert (Hn : normalized "a:b" = true) by reflexivity.
  assert (Hne : "a:b" <> "") by discriminate.
  destruct (joinKeys_base_relative (Some "/cache/") "a:b" Hn Hne) as (Hj & _ & Hs).
  split; [exact Hn|]. split; [reflexivity|]. split; [exact Hj|exact Hs].
Defined.

Lemma replace_seps_colon s :
  all_chars (fun c => negb (is_slash c)) s = true ->
  DriverUtils.replace_seps ":" s = s.
Proof.
  induction s as [|c r IH]; [reflexivity|].
  cbn [all_chars DriverUtils.replace_seps]. intros Hs.
  apply andb_prop in Hs as [Hc Hr]. rewrite (IH Hr). f_equal.
  unfold DriverUtils.is_sep. unfold is_slash in Hc.
  destruct (Ascii.eqb_spec c ":") as [->|]; [reflexivity|].
  simpl. destruct (Ascii.eqb c "/" || Ascii.eqb c "\"); [discriminate|reflexivity].
Qed.

Lemma replace_seps_slash s :
  all_chars (fun c => negb (is_slash c)) s = true ->
  DriverUtils.replace_seps "/" s = replaceChar ":" "/" s.
Proof.
  induction s as [|c r IH]; [reflexivity|].
  cbn [all_chars DriverUtils.replace_seps replaceChar]. intros Hs.
  apply andb_prop in Hs as [Hc Hr]. rewrite (IH Hr). f_equal.
  unfold DriverUtils.is_sep. unfold is_slash in Hc.
  destruct (Ascii.eqb c ":"); [reflexivity|].
  simpl. destruct (Ascii.eqb c "/" || Ascii.eqb c "\"); [discriminate|reflexivity].
Qed.

(** A character of a normalized key that is not a colon is no separator for
    the driver-side normalizer, before and after colons are replaced. *)
Lemma is_sep_replaced c d :
  negb (is_slash c) = true -> Ascii.eqb c ":" = false ->
  DriverUtils.is_sep (if Ascii.eqb c ":" then d else c) = false.
Proof.
  intros Hc Ec. rewrite Ec. unfold DriverUtils.is_sep. rewrite Ec.
  unfold is_slash in Hc. simpl.
  now destruct (Ascii.eqb c "/" || Ascii.eqb c "\").
Qed.

Lemma driver_strip_trailing_cons c d r :
  DriverUtils.strip_trailing (String c (String d r))
  = String c (DriverUtils.strip_trailing (String d r)).
Proof. reflexivity. Qed.

Lemma driver_strip_trailing_id d s :
  all_chars (fun c => negb (is_slash c)) s = true ->
  notrailing s = true ->
  DriverUtils.strip_trailing (replaceChar ":" d s) = replaceChar ":" d s.
Proof.
  unfold notrailing. induction s as [|c r IH]; [reflexivity|].
  cbn [all_chars]. intros Hs Hl. apply andb_prop in Hs as [Hc Hr].
  destruct r as [|e r'].
  - simpl in Hl. cbn [replaceChar DriverUtils.strip_trailing].
    destruct (Ascii.eqb c ":") eqn:Ec; [discriminate|].
    pose proof (is_sep_replaced c d Hc Ec) as Hsep. rewrite Ec in Hsep.
    now rewrite Hsep.
  - rewrite lastChar_cons in Hl. specialize (IH Hr Hl).
    cbn [replaceChar] in *. now rewrite driver_strip_trailing_cons, IH.
Qed.

Lemma driver_strip_leading_id d s :
  all_chars (fun c => negb (is_slash c)) s = true ->
  noleading s = true ->
  DriverUtils.strip_leading (replaceChar ":" d s) = replaceChar ":" d s.
Proof.
  destruct s as [|c r]; [reflexivity|].
  cbn [all_chars]. intros Hs Hl. apply andb_prop in Hs as [Hc _].
  pose proof (noleading_first _ _ Hl) as Ec.
  cbn [replaceChar DriverUtils.strip_leading].
  now rewrite (is_sep_replaced c d Hc Ec).
Qed.

Lemma replaceChar_same c s : replaceChar c c s = s.
Proof.
  induction s as [|a r IH]; [reflexivity|]. cbn [replaceChar]. rewrite IH.
  now destruct (Ascii.eqb_spec a c) as [->|].
Qed.

(** X3.  On a key that the engine has normalized, the normalizer of
    [drivers/utils] with the separator ':' changes nothing, and with the
    separator '/' it only turns every colon into a slash. *)
Theorem driver_normalizeKey_on_engine_key (key : option string) :
  let k := Utils.normalizeKey key in
  DriverUtils.normalizeKey (Some k) ":" = k
  /\ DriverUtils.normalizeKey (Some k) "/" = replaceChar ":" "/" k.
Proof.
  intros k. pose proof (normalizeKey_normalized key) as Hn. fold k in Hn.
  destruct (normalized_parts _ Hn) as (_ & Hs & _ & Hl & Ht).
  unfold DriverUtils.normalizeKey. destruct k as [|c r] eqn:E; [split; reflexivity|].
  rewrite <- E in *. split.
  - rewrite (replace_seps_colon _ Hs).
    rewrite <- (replaceChar_same ":" k).
    rewrite (driver_strip_leading_id ":" _ Hs Hl).
    apply (driver_strip_trailing_id ":" _ Hs Ht).
  - rewrite (replace_seps_slash _ Hs).
    rewrite (driver_strip_leading_id "/" _ Hs Hl).
    apply (driver_strip_trailing_id "/" _ Hs Ht).
Qed.

End KeyAlgebraDrivers.

(** ** The memory driver *)

Section MemoryDriver.
Import Types Memory.
Implicit Types (h : heap) (l : loc) (key : string).

Lemma JsMap_keys_set_present {V} (m : JsMap.t V) k v :
  JsMap.has m k = true -> JsMap.keys (JsMap.set m k v) = JsMap.keys m.
Proof.
  unfold JsMap.has. induction m as [|[k' v'] m IH]; simpl; [discriminate|].
  destruct (String.eqb k' k) eqn:E; simpl; [reflexivity|].
  intros Hm. now rewrite IH.
Qed.

Lemma JsMap_NoDup_set {V} (m : JsMap.t V) k v :
  NoDup (JsMap.keys m) -> NoDup (JsMap.keys (JsMap.set m k v)).
Proof.
  intros Hnd. destruct (JsMap.has m k) eqn:E.
  - now rewrite JsMap_keys_set_present.
  - rewrite JsMap_keys_set_absent by exact E.
    apply NoDup_app; [exact Hnd|repeat constructor; intros []|].
    intros x Hin [<-|[]].
    apply JsMap_has_In in Hin. congruence.
Qed.

Lemma JsMap_get_delete_other {V} (m : JsMap.t V) k k' :
  k' <> k -> JsMap.get (JsMap.delete m k) k' = JsMap.get m k'.
Proof.
  intros Hne. induction m as [|[k0 v0] m IH]; simpl; [reflexivity|].
  destruct (String.eqb_spec k0 k) as [->|Hne0].
  - destruct (String.eqb_spec k k'); congruence.
  - simpl. now rewrite IH.
Qed.

Lemma JsMap_keys_delete {V} (m : JsMap.t V) k :
  NoDup (JsMap.keys m) ->
  JsMap.keys (JsMap.delete m k)
  = filter (fun k' => negb (String.eqb k' k)) (JsMap.keys m).
Proof.
  induction m as [|[k0 v0] m IH]; simpl; [reflexivity|].
  intros Hnd. inversion Hnd as [|? ? Hnotin Hnd']; subst.
  destruct (String.eqb_spec k0 k) as [->|Hne0]; simpl.
  - symmetry. apply forallb_filter_id. apply forallb_forall.
    intros x Hin. destruct (String.eqb_spec x k) as [->|]; [contradiction|reflexivity].
  - now rewrite IH.
Qed.

(** X4.  Writing to the memory driver and reading back.  [setItem] and
    [setItemRaw] are the same operation; after [setItem(key, v)] the driver
    answers [v] for [key] ([null] when [v] is [null] or [undefined]) and
    [hasItem(key)] is true; every other key and every other memory driver is
    as before; the key list keeps its order, with a new key at the end; the
    map keeps its keys distinct. *)
Theorem memory_setItem_getItem l key v h :
  exists set,
    setItem (memory l) = Some set
    /\ setItemRaw (memory l) = Some set
    /\ exists h',
         set key v h = (Ok tt, h')
         /\ getItem (memory l) key h'
            = (Ok match v with VUndefined | VNull => VNull | _ => v end, h')
         /\ hasItem (memory l) key h' = (Ok true, h')
         /\ (forall key', key' <> key ->
               getItem (memory l) key' h' = (fst (getItem (memory l) key' h), h')
               /\ hasItem (memory l) key' h' = (fst (hasItem (memory l) key' h), h'))
         /\ (forall l', l' <> l -> h' l' = h l')
         /\ getKeys (memory l) "" {| maxDepth := None |} h'
            = (Ok (if JsMap.has (h l) key then JsMap.keys (h l)
                   else (JsMap.keys (h l) ++ [key])%list), h')
         /\ (NoDup (JsMap.keys (h l)) -> NoDup (JsMap.keys (h' l))).
Proof.
  exists (data_set l). split; [reflexivity|]. split; [reflexivity|].
  exists (heap_upd h l (JsMap.set (h l) key v)).
  split; [reflexivity|]. simpl. unfold get_or_null. rewrite !heap_upd_same.
  rewrite JsMap_get_set_eq, JsMap_has_set, String.eqb_refl. simpl.
  split; [now destruct v|]. split; [reflexivity|]. split; [|split; [|split]].
  - intros key' Hne. rewrite JsMap_get_set_neq by exact Hne.
    rewrite JsMap_has_set.
    destruct (String.eqb_spec key' key); [contradiction|]. split; reflexivity.
  - intros l' Hne. now apply heap_upd_other.
  - destruct (JsMap.has (h l) key) eqn:E.
    + now rewrite JsMap_keys_set_present.
    + now rewrite JsMap_keys_set_absent.
  - apply JsMap_NoDup_set.
Qed.

(** X5.  Removing from the memory driver (whose map has distinct keys, as
    every map built by [setItem] has): afterwards [hasItem(key)] is false
    and [getItem(key)] is [null]; every other key and every other memory
    driver is as before; the key list is the old one without [key], in the
    same order. *)
Theorem memory_removeItem l key h :
  NoDup (JsMap.keys (h l)) ->
  exists rm h',
    removeItem (memory l) = Some rm
    /\ rm key h = (Ok tt, h')
    /\ hasItem (memory l) key h' = (Ok false, h')
    /\ getItem (memory l) key h' = (Ok VNull, h')
    /\ (forall key', key' <> key ->
          getItem (memory l) key' h' = (fst (getItem (memory l) key' h), h')
          /\ hasItem (memory l) key' h' = (fst (hasItem (memory l) key' h), h'))
    /\ (forall l', l' <> l -> h' l' = h l')
    /\ getKeys (memory l) "" {| maxDepth := None |} h'
       = (Ok (filter (fun k => negb (String.eqb k key)) (JsMap.keys (h l))), h')
    /\ NoDup (JsMap.keys (h' l)).
Proof.
  intros Hnd. eexists. exists (heap_upd h l (JsMap.delete (h l) key)).
  split; [reflexivity|]. split; [reflexivity|].
  simpl. unfold get_or_null. rewrite !heap_upd_same.
  assert (Hhas : JsMap.has (JsMap.delete (h l) key) key = false).
  { rewrite JsMap_has_delete by exact Hnd. now rewrite String.eqb_refl. }
  rewrite Hhas. split; [reflexivity|]. split; [|split; [|split; [|split]]].
  - unfold JsMap.has in Hhas.
    now destruct (JsMap.get (JsMap.delete (h l) key) key).
  - intros key' Hne. rewrite JsMap_get_delete_other by exact Hne.
    unfold JsMap.has. rewrite JsMap_get_delete_other by exact Hne.
    split; reflexivity.
  - intros l' Hne. now apply heap_upd_other.
  - now rewrite JsMap_keys_delete.
  - now apply JsMap_NoDup_delete.
Qed.

(** Removing "a" from the map that holds "a" and "b". *)
Lemma memory_removeItem_witness :
  let h := heap_upd heap0 1 [("a", VNumber 1); ("b", VNumber 2)] in
  NoDup (JsMap.keys (h 1))
  /\ exists rm h',
       removeItem (memory 1) = Some rm
       /\ rm "a" h = (Ok tt, h')
       /\ hasItem (memory 1) "a" h' = (Ok false, h')
       /\ fst (getKeys (memory 1) "" {| maxDepth := None |} h') = Ok ["b"].
Proof.
  intros h.
  assert (Hnd : NoDup (JsMap.keys (h 1))).
  { repeat constructor; simpl; intuition discriminate. }
  split; [exact Hnd|].
  destruct (memory_removeItem 1 "a" h Hnd)
    as (rm & h' & Hrm & Hrun & Hhas & _ & _ & _ & Hkeys & _).
  exists rm, h'. repeat (split; [assumption|]). now rewrite Hkeys.
Defined.

End MemoryDriver.

(** ** The overlay driver over memory layers *)

Section OverlayMemory.
Import Types Memory Overlay.
Implicit Types (h : heap) (l : loc) (key : string).

Lemma strict_eq_string_iff v s :
  JsValue.strict_eq_string v s = true <-> v = VString s.
Proof.
  destruct v; simpl; try (split; [discriminate|intros E; discriminate]).
  rewrite string_eqb_iff. split; [now intros ->|now intros [= ->]].
Qed.

(** The scan of [hasItem] below a top layer that does not have the key. *)
Lemma hasItem_loop_lower l0 ls0 key h :
  JsMap.has (h l0) key = false ->
  forall ls,
    hasItem_loop (map memory (l0 :: ls0)) (map memory ls) key h
    = (Ok (existsb (fun l => JsMap.has (h l) key) ls), h).
Proof.
  intros Htop. induction ls as [|l ls IH]; [reflexivity|].
  cbn [map hasItem_loop]. unfold bind at 1. cbn [hasItem memory].
  destruct (JsMap.has (h l) key) eqn:E.
  - cbn [top hd_error oid memory existsb]. rewrite E.
    destruct (Nat.eqb_spec l l0) as [->|]; [congruence|reflexivity].
  - cbn [existsb]. rewrite E. exact IH.
Qed.

Lemma hasItem_loop_memory l0 ls key h :
  hasItem_loop (map memory (l0 :: ls)) (map memory (l0 :: ls)) key h
  = (Ok (if JsMap.has (h l0) key
         then negb (JsValue.strict_eq_string (get_or_null (h l0) key) OVERLAY_REMOVED)
         else existsb (fun l => JsMap.has (h l) key) ls), h).
Proof.
  destruct (JsMap.has (h l0) key) eqn:E.
  - cbn [map hasItem_loop]. unfold bind at 1. cbn [hasItem memory]. rewrite E.
    cbn [top hd_error oid memory]. rewrite Nat.eqb_refl.
    unfold bind, top_getItem. cbn [top hd_error getItem memory].
    now destruct (JsValue.strict_eq_string _ _).
  - change (map memory (l0 :: ls)) with (memory l0 :: map memory ls) at 2.
    cbn [hasItem_loop]. unfold bind at 1. cbn [hasItem memory]. rewrite E.
    now apply hasItem_loop_lower.
Qed.

(** X6.  [hasItem] of an overlay of memory drivers: when the top layer has
    the key, the answer is whether the top value is something other than the
    tombstone sentinel; otherwise it is whether some lower layer has the
    key.  In particular [hasItem(key)] is false after [removeItem(key)],
    whatever the lower layers hold. *)
Theorem overlay_hasItem_memory id l0 ls key h :
  let ov := overlay id (map memory (l0 :: ls)) in
  hasItem ov key h
  = (Ok (if JsMap.has (h l0) key
         then negb (JsValue.strict_eq_string (get_or_null (h l0) key) OVERLAY_REMOVED)
         else existsb (fun l => JsMap.has (h l) key) ls), h)
  /\ exists rm h',
       removeItem ov = Some rm
       /\ rm key h = (Ok tt, h')
       /\ hasItem ov key h' = (Ok false, h').
Proof.
  intros ov. split; [apply hasItem_loop_memory|].
  eexists. exists (heap_upd h l0 (JsMap.set (h l0) key (VString OVERLAY_REMOVED))).
  split; [reflexivity|]. split; [reflexivity|].
  change (hasItem ov key) with (hasItem_loop (map memory (l0 :: ls))
                                             (map memory (l0 :: ls)) key).
  rewrite hasItem_loop_memory. unfold get_or_null.
  now rewrite heap_upd_same, JsMap_has_set, String.eqb_refl, JsMap_get_set_eq.
Qed.

(** X7.  Writing through an overlay of memory drivers.  [setItem(key, v)]
    for a value that is not [null], [undefined] or the sentinel changes the
    map of the top layer only; afterwards [getItem(key)] answers [v] and
    [hasItem(key)] is true, whatever the lower layers hold. *)
Theorem overlay_setItem_memory id l0 ls key v h :
  v <> VNull -> v <> VUndefined -> v <> VString OVERLAY_REMOVED ->
  let ov := overlay id (map memory (l0 :: ls)) in
  exists set h',
    setItem ov = Some set
    /\ set key v h = (Ok tt, h')
    /\ h' = heap_upd h l0 (JsMap.set (h l0) key v)
    /\ (forall l, l <> l0 -> h' l = h l)
    /\ getItem ov key h' = (Ok v, h')
    /\ hasItem ov key h' = (Ok true, h').
Proof.
  intros Hnull Hundef Hsent ov.
  eexists. exists (heap_upd h l0 (JsMap.set (h l0) key v)).
  split; [reflexivity|]. split; [reflexivity|]. split; [reflexivity|].
  split; [intros l Hne; now apply heap_upd_other|].
  set (h' := heap_upd h l0 (JsMap.set (h l0) key v)).
  assert (Hget : get_or_null (h' l0) key = v).
  { unfold h', get_or_null. rewrite heap_upd_same, JsMap_get_set_eq.
    destruct v; congruence. }
  assert (Hns : JsValue.strict_eq_string v OVERLAY_REMOVED = false).
  { destruct (JsValue.strict_eq_string v OVERLAY_REMOVED) eqn:E; [|reflexivity].
    apply strict_eq_string_iff in E. contradiction. }
  split.
  - change (getItem ov key h') with (getItem_loop (map memory (l0 :: ls)) key h').
    cbn [map getItem_loop]. unfold bind. cbn [getItem memory].
    rewrite Hget, Hns. destruct v; try reflexivity; congruence.
  - change (hasItem ov key) with (hasItem_loop (map memory (l0 :: ls))
                                               (map memory (l0 :: ls)) key).
    rewrite hasItem_loop_memory, Hget, Hns.
    unfold h'. now rewrite heap_upd_same, JsMap_has_set, String.eqb_refl.
Qed.

(** A cache layer at 1 over a base layer at 2 that already holds "k". *)
Lemma overlay_setItem_memory_witness :
  let h := heap_upd heap0 2 [("k", VString "old")] in
  let ov := overlay 9 (map memory [1; 2]) in
  exists set h',
    setItem ov = Some set
    /\ set "k" (VString "new") h = (Ok tt, h')
    /\ h' 2 = h 2
    /\ getItem ov "k" h' = (Ok (VString "new"), h')
    /\ fst (getItem (memory 2) "k" h') = Ok (VString "old").
Proof.
  intros h ov.
  assert (H1 : VString "new" <> VNull) by discriminate.
  assert (H2 : VString "new" <> VUndefined) by discriminate.
  assert (H3 : VString "new" <> VString OVERLAY_REMOVED) by discriminate.
  destruct (overlay_setItem_memory 9 1 [2] "k" (VString "new") h H1 H2 H3)
    as (set & h' & Hset & Hrun & Hh' & Hframe & Hget & _).
  exists set, h'. split; [exact Hset|]. split; [exact Hrun|].
  split; [apply Hframe; discriminate|]. split; [exact Hget|].
  rewrite Hh'. reflexivity.
Defined.

End OverlayMemory.

(** ** Key lists without repeats *)

Section Dedupe.
Import JsString.

Lemma dedupe_In x xs : In x (dedupe xs) <-> In x xs.
Proof.
  induction xs as [|y rest IH]; [tauto|].
  cbn [dedupe In]. rewrite filter_In, IH.
  destruct (String.eqb_spec x y) as [->|Hne]; [tauto|].
  split; [tauto|]. intros [->|Hin]; [contradiction|]. tauto.
Qed.

Lemma dedupe_NoDup xs : NoDup (dedupe xs).
Proof.
  induction xs as [|y rest IH]; [constructor|].
  cbn [dedupe]. constructor.
  - rewrite filter_In. intros [_ Hy]. now rewrite String.eqb_refl in Hy.
  - now apply NoDup_filter.
Qed.

End Dedupe.

Section OverlayKeys.
Import Types Memory Overlay.
Implicit Types (h : heap) (l : loc) (key : string).

Lemma flat_map_truthy (p : string -> bool) xs :
  flat_map truthy_key (map (fun k => if p k then None else Some k) xs)
  = filter (fun k => negb (p k) && negb (String.eqb k "")) xs.
Proof.
  induction xs as [|x rest IH]; [reflexivity|].
  cbn [map flat_map filter]. rewrite IH.
  destruct (p x); [reflexivity|]. now destruct x.
Qed.

(** X8.  [getKeys] of an overlay of memory drivers succeeds and lists, each
    once, exactly the non-empty keys that some layer holds (in the form the
    driver-side normalizer gives them) and that the top layer does not mark
    with the tombstone sentinel. *)
Theorem overlay_getKeys_memory id l0 ls base opts h :
  let ov := overlay id (map memory (l0 :: ls)) in
  exists keys,
    getKeys ov base opts h = (Ok keys, h)
    /\ NoDup keys
    /\ forall k,
         In k keys <->
         k <> ""
         /\ (exists l key, In l (l0 :: ls) /\ In key (JsMap.keys (h l))
                           /\ DriverUtils.normalizeKey (Some key) ":" = k)
         /\ get_or_null (h l0) k <> VString OVERLAY_REMOVED.
Proof.
  intros ov.
  change (getKeys ov base opts h)
    with (getKeys_overlay (map memory (l0 :: ls)) base opts h).
  unfold getKeys_overlay, bind at 1. rewrite memory_layers_keys.
  set (uniqueKeys := JsString.dedupe _). unfold bind.
  rewrite (mapM_pure _
             (fun w k =>
                if JsValue.strict_eq_string (get_or_null (w l0) k) OVERLAY_REMOVED
                then None else Some k)).
  2:{ intros k w. unfold bind. simpl. now destruct (JsValue.strict_eq_string _ _). }
  eexists. split; [reflexivity|].
  rewrite (flat_map_truthy
             (fun k => JsValue.strict_eq_string (get_or_null (h l0) k) OVERLAY_REMOVED)).
  split; [apply NoDup_filter, dedupe_NoDup|].
  intros k. rewrite filter_In. unfold uniqueKeys.
  rewrite dedupe_In, in_concat, andb_true_iff, !negb_true_iff.
  rewrite <- not_true_iff_false, strict_eq_string_iff.
  split.
  - intros ((keys & Hkeys & Hk) & Hns & Hne).
    apply in_map_iff in Hkeys as (l & <- & Hl).
    apply in_map_iff in Hk as (key & Hnk & Hkey).
    split; [intros ->; discriminate|]. split; [eauto|exact Hns].
  - intros (Hne & (l & key & Hl & Hkey & Hnk) & Hns).
    split; [|split; [exact Hns|]].
    + exists (map (fun key => DriverUtils.normalizeKey (Some key) ":")
                  (JsMap.keys (h l))).
      split; [apply in_map_iff; eauto|apply in_map_iff; eauto].
    + destruct (String.eqb_spec k ""); [contradiction|reflexivity].
Qed.

End OverlayKeys.

(** ** Routing: what [getMount] and [getMounts] hand to the operations *)

Section RoutingMore.
Context {W : Type}.
Import Types Storage JsString.
Implicit Types (context : StorageCTX (W := W)).

Lemma startsWith_length s p :
  startsWith s p = true -> (String.length p <= String.length s)%nat.
Proof.
  intros Hp. apply startsWith_slice in Hp. rewrite <- Hp, string_length_app. lia.
Qed.

Lemma startsWith_full s p :
  startsWith s p = true -> (String.length s <= String.length p)%nat -> p = s.
Proof.
  intros Hp Hl. apply startsWith_slice in Hp.
  assert (E : String.length (slice (String.length p) s) = 0%nat).
  { apply (f_equal String.length) in Hp. rewrite string_length_app in Hp. lia. }
  destruct (slice (String.length p) s); [|discriminate].
  now rewrite string_app_nil_r in Hp.
Qed.

Lemma startsWith_refl s : startsWith s s = true.
Proof. rewrite <- (string_app_nil_r s) at 1. apply startsWith_app. Qed.

Lemma getMount_loop_split context key bases :
  let m := getMount_loop context bases key in
  startsWith key (base m) = true /\ base m ++ relativeKey m = key.
Proof.
  induction bases as [|b rest IH]; cbn [getMount_loop].
  - split; [apply startsWith_empty|reflexivity].
  - destruct (startsWith key b) eqn:E; [|exact IH].
    cbn [base relativeKey]. split; [exact E|now apply startsWith_slice].
Qed.

(** X9.  [getMount] splits the key and loses nothing: for every context and
    every key, the base it returns is a prefix of the key and the base
    followed by the relative key is the key. *)
Theorem getMount_splits_key context key :
  let m := getMount context key in
  startsWith key (base m) = true
  /\ base m ++ relativeKey m = key
  /\ String.length key = (String.length (base m) + String.length (relativeKey m))%nat.
Proof.
  intros m. destruct (getMount_loop_split context key (mountpoints context)) as [Hp Hs].
  fold (getMount context key) in Hp, Hs. fold m in Hp, Hs.
  split; [exact Hp|]. split; [exact Hs|].
  rewrite <- Hs at 1. apply string_length_app.
Qed.

(** X10.  The entries of [getMounts(base, includeParent)] in a reachable
    context.  Each entry is a mounted base together with its driver.  An
    entry has a relative base only when it is a proper ancestor of [base]
    (so only with [includeParent]), and then mountpoint followed by relative
    base is [base]; every other entry is a mount at or below [base] and has
    no relative base.  Without [includeParent] -- the call of [getKeys] --
    no entry has a relative base. *)
Theorem getMounts_entries context base includeParent :
  reachable context ->
  Forall (fun e =>
            In (mountpoint e) (mountpoints context)
            /\ (exists d, mdriver e = Some d
                          /\ JsMap.get (mounts context) (mountpoint e) = Some d)
            /\ match relativeBase e with
               | Some rb =>
                   includeParent = true /\ rb <> ""
                   /\ mountpoint e ++ rb = base
                   /\ startsWith (mountpoint e) base = false
               | None => startsWith (mountpoint e) base = true
               end)
         (getMounts context base includeParent)
  /\ (includeParent = false ->
      Forall (fun e => relativeBase e = None) (getMounts context base includeParent)).
Proof.
  intros Hreach. pose proof (reachable_mount_inv _ Hreach) as (_ & _ & _ & _ & Hiff).
  assert (Hall : forall e, In e (getMounts context base includeParent) ->
            In (mountpoint e) (mountpoints context)
            /\ (exists d, mdriver e = Some d
                          /\ JsMap.get (mounts context) (mountpoint e) = Some d)
            /\ match relativeBase e with
               | Some rb =>
                   includeParent = true /\ rb <> ""
                   /\ mountpoint e ++ rb = base
                   /\ startsWith (mountpoint e) base = false
               | None => startsWith (mountpoint e) base = true
               end).
  { intros e He. unfold getMounts in He.
    apply in_map_iff in He as (mp & <- & Hmp).
    apply filter_In in Hmp as [Hin Hf]. cbn [mountpoint mdriver relativeBase].
    split; [exact Hin|]. split.
    - apply Hiff in Hin. unfold JsMap.has in Hin.
      destruct (JsMap.get (mounts context) mp) as [d|]; [eauto|discriminate].
    - destruct (Nat.ltb_spec (String.length mp) (String.length base)) as [Hlt|Hge].
      + destruct (startsWith mp base) eqn:E.
        * apply startsWith_length in E. lia.
        * simpl in Hf. apply andb_prop in Hf as [-> Hp].
          split; [reflexivity|]. apply startsWith_slice in Hp.
          split; [|split; [exact Hp|reflexivity]].
          intros E0. rewrite E0, string_app_nil_r in Hp. subst mp. lia.
      + destruct (startsWith mp base) eqn:E; [reflexivity|].
        simpl in Hf. apply andb_prop in Hf as [_ Hp].
        apply startsWith_full in Hp; [|exact Hge]. subst mp.
        now rewrite startsWith_refl in E. }
  split; [now apply Forall_forall|].
  intros ->. apply Forall_forall. intros e He.
  destruct (Hall e He) as (_ & _ & Hrb).
  destruct (relativeBase e); [|reflexivity]. destruct Hrb as [Hf _]. discriminate.
Qed.

End RoutingMore.

Section RoutingMoreExamples.
Import Storage Types Memory Scenario JsString Utils.

(** The storage with mounts at "mnt:", "cache:" and "cache:sub:", asked for
    the mounts of "cache:sub:" with its ancestors. *)
Lemma getMounts_entries_witness :
  let context :=
    fst (mounted (fst (mounted (fst (mounted storage0 "/mnt" (memory 1) heap0))
                               "cache" (memory 2) heap0))
                 "cache:sub" (memory 3) heap0) in
  reachable context
  /\ map (fun e => (mountpoint e, relativeBase e)) (getMounts context "cache:sub:" true)
     = [("cache:sub:", None); ("cache:", Some "sub:"); ("", Some "cache:sub:")]
  /\ Forall (fun e => exists d, mdriver e = Some d) (getMounts context "cache:sub:" true).
Proof.
  intros context.
  destruct (getMounts_entries context "cache:sub:" true mounts_example_reachable)
    as [Hall _].
  split; [exact mounts_example_reachable|]. split; [reflexivity|].
  eapply Forall_impl; [|exact Hall].
  intros e (_ & (d & Hd & _) & _). eauto.
Defined.

End RoutingMoreExamples.

(** ** Watching: handles and subscribers *)

Section WatchHandles.
Context {W : Type}.
Import Types Storage.
Implicit Types (context : StorageCTX (W := W)).




Lemma remove_first_absent {A} (eqb : A -> A -> bool) x xs :
  (forall a b, eqb a b = true <-> a = b) ->
  ~ In x xs -> remove_first eqb x xs = None.
Proof.
  intros Heqb. induction xs as [|y rest IH]; [reflexivity|].
  intros Hnot. cbn [remove_first].
  destruct (eqb y x) eqn:E.
  - apply Heqb in E. subst y. exfalso. apply Hnot. now left.
  - rewrite IH; [reflexivity|]. intros Hin. apply Hnot. now right.
Qed.

Lemma remove_first_listener pre (cb : Listener) post :
  ~ In cb pre ->
  remove_first Nat.eqb cb (pre ++ cb :: post) = Some (pre ++ post)%list.
Proof.
  induction pre as [|p pre IH]; cbn [remove_first app]; intros Hnot.
  - now rewrite Nat.eqb_refl.
  - destruct (Nat.eqb_spec p cb) as [->|Hne]; [exfalso; apply Hnot; now left|].
    rewrite IH; [reflexivity|]. intros Hin. apply Hnot. now right.
Qed.

Lemma stopWatch_ok context w context' w' :
  stopWatch context w = (Ok context', w') ->
  mounts context' = mounts context
  /\ mountpoints context' = mountpoints context
  /\ watchListeners context' = watchListeners context
  /\ (watching context = true -> watching context' = false /\ unwatch context' = [])
  /\ (watching context = false -> context' = context /\ w' = w).
Proof.
  unfold stopWatch. destruct (watching context) eqn:Ew; cbn [negb].
  - unfold bind. destruct (stopWatch_loop (unwatch context) w) as [[[]|e] w1];
      [|discriminate].
    intros [= <- <-]. repeat split; auto; discriminate.
  - intros [= <- <-]. repeat split; auto; discriminate.
Qed.

Lemma watch_unwatch_context context (cb : Listener) w :
  let res := storage_watch_unwatch context cb w in
  watchListeners (snd (fst res)) = splice_indexOf Nat.eqb cb (watchListeners context)
  /\ mounts (snd (fst res)) = mounts context
  /\ mountpoints (snd (fst res)) = mountpoints context.
Proof.
  unfold storage_watch_unwatch.
  set (c1 := set_watchListeners context _).
  change (splice_indexOf Nat.eqb cb (watchListeners context))
    with (watchListeners c1).
  change (mounts context) with (mounts c1).
  change (mountpoints context) with (mountpoints c1).
  destruct (watchListeners c1) eqn:El; [|cbn [fst snd]; auto].
  destruct (watching c1); [|cbn [fst snd]; auto].
  destruct (stopWatch c1 w) as [[c2|e] w2] eqn:Es; cbn [fst snd]; [|auto].
  apply stopWatch_ok in Es as (-> & -> & -> & _). auto.
Qed.

(** X12.  The function that [storage.watch(cb)] resolves to.  Calling it
    drops the first registration of [cb] and keeps the other subscribers in
    order; when [cb] is not registered (the function was called before),
    [indexOf] is -1 and [splice(-1, 1)] drops the last subscriber instead.
    The mounts are never touched.  As long as a subscriber is left, or the
    storage is not watching, nothing else happens; when the last subscriber
    goes while the storage is watching, the stored driver handles are run and
    on success the storage has stopped watching and holds no handle.  After
    [watch(cb)] for a new [cb], calling the function gives back the
    subscriber list from before. *)
Theorem watch_handle_unsubscribes context (cb : Listener) w :
  let res := storage_watch_unwatch context cb w in
  let context' := snd (fst res) in
  (forall pre post,
      watchListeners context = (pre ++ cb :: post)%list -> ~ In cb pre ->
      watchListeners context' = (pre ++ post)%list)
  /\ (~ In cb (watchListeners context) ->
      watchListeners context' = removelast (watchListeners context))
  /\ mounts context' = mounts context
  /\ mountpoints context' = mountpoints context
  /\ (watchListeners context' <> [] \/ watching context = false ->
      res = (Ok tt, set_watchListeners context (watchListeners context'), w))
  /\ (watchListeners context' = [] -> watching context = true ->
      fst (fst res) = Ok tt ->
      watching context' = false /\ unwatch context' = [])
  /\ (forall w0,
        ~ In cb (watchListeners context) ->
        watchListeners
          (snd (fst (storage_watch_unwatch (fst (storage_watch context cb w0)) cb w)))
        = watchListeners context).
Proof.
  intros res context'.
  destruct (watch_unwatch_context context cb w) as (Hls & Hm & Hmp).
  fold res in Hls, Hm, Hmp. fold context' in Hls, Hm, Hmp.
  split; [|split; [|split; [exact Hm|split; [exact Hmp|split; [|split]]]]].
  - intros pre post E Hnot. rewrite Hls, E. unfold splice_indexOf.
    now rewrite remove_first_listener.
  - intros Hnot. rewrite Hls. unfold splice_indexOf.
    rewrite remove_first_absent; auto. intros a b. apply Nat.eqb_eq.
  - rewrite Hls. intros Hor. unfold res, storage_watch_unwatch.
    set (c1 := set_watchListeners context _).
    change (splice_indexOf Nat.eqb cb (watchListeners context))
      with (watchListeners c1) in Hor.
    change (watching context) with (watching c1) in Hor.
    destruct (watchListeners c1); [|reflexivity].
    destruct Hor as [Hne| ->]; [congruence|reflexivity].
  - rewrite Hls. intros Hnil Hw. unfold context', res, storage_watch_unwatch.
    set (c1 := set_watchListeners context _).
    change (splice_indexOf Nat.eqb cb (watchListeners context))
      with (watchListeners c1) in Hnil.
    change (watching context) with (watching c1) in Hw.
    rewrite Hnil, Hw.
    destruct (stopWatch c1 w) as [[c2|e] w2] eqn:Es; cbn [fst snd]; [|discriminate].
    intros _. apply stopWatch_ok in Es as (_ & _ & _ & Hstop & _). now apply Hstop.
  - intros w0 Hnot.
    destruct (watch_unwatch_context (fst (storage_watch context cb w0)) cb w)
      as (-> & _ & _).
    assert (E : watchListeners (fst (storage_watch context cb w0))
                = (watchListeners context ++ [cb])%list).
    { unfold storage_watch. cbn [watching set_watchListeners].
      destruct (negb (watching context)); [|reflexivity].
      now destruct (startWatch_mounts
                      (set_watchListeners context (watchListeners context ++ [cb])) w0)
        as (_ & _ & _ & ->). }
    rewrite E. unfold splice_indexOf.
    rewrite remove_first_listener by exact Hnot. apply app_nil_r.
Qed.

End WatchHandles.

Section WatchHandlesExample.
Import Storage Types Memory Scenario.


End WatchHandlesExample.

(** ** The engine over its drivers: [getKeys], [clear] and single items *)

Section EngineOperations.
Context {W : Type} `{Externals}.
Import Types Storage JsString Utils KeyShape.
Implicit Types (context : StorageCTX (W := W)).

(** When every call succeeds with a result that satisfies [P], so does
    [Promise.all]. *)
Lemma mapM_total {A B} (f : A -> M W B) (P : B -> Prop) xs :
  (forall x, In x xs -> forall w, exists y w', f x w = (Ok y, w') /\ P y) ->
  forall w, exists ys w', mapM f xs w = (Ok ys, w') /\ Forall P ys.
Proof.
  induction xs as [|x rest IH]; intros Hf w.
  - exists [], w. split; [reflexivity|constructor].
  - destruct (Hf x (or_introl eq_refl) w) as (y & w1 & Hy & HP).
    destruct (IH (fun x' Hx' => Hf x' (or_intror Hx')) w1) as (ys & w2 & Hys & HPs).
    exists (y :: ys), w2. cbn [mapM]. rewrite Hy, Hys. split; [reflexivity|].
    now constructor.
Qed.

Lemma getMounts_driver context base includeParent e :
  reachable context ->
  In e (getMounts context base includeParent) ->
  exists d, mdriver e = Some d.
Proof.
  intros Hreach He.
  pose proof (reachable_mount_inv _ Hreach) as (_ & _ & _ & _ & Hiff).
  unfold getMounts in He. apply in_map_iff in He as (mp & <- & Hmp).
  apply filter_In in Hmp as [Hin _]. cbn [mdriver].
  apply Hiff in Hin. unfold JsMap.has in Hin.
  destruct (JsMap.get (mounts context) mp) as [d|]; [eauto|discriminate].
Qed.

Lemma filterKeyByBase_true key base :
  filterKeyByBase key (Some base) = true ->
  startsWith key base = true /\ lastChar key <> Some "$"%char.
Proof.
  unfold filterKeyByBase.
  assert (Hmeta : match lastChar key with
                  | Some c => negb (Ascii.eqb c "$")
                  | None => true
                  end = true -> lastChar key <> Some "$"%char).
  { destruct (lastChar key) as [c|]; [|discriminate].
    intros Hc [= ->]. discriminate. }
  destruct base as [|c r].
  - intros Hm. split; [apply startsWith_empty|now apply Hmeta].
  - intros Hm. apply andb_prop in Hm as [Hp Hm]. split; [exact Hp|now apply Hmeta].
Qed.

(** X13.  [getKeys] on a reachable storage never fails: a mount whose
    driver fails to list its keys contributes none.  The keys it returns are
    distinct and normalized, start with the normalized base and do not end
    in '$'. *)
Theorem storage_getKeys_sound context base opts w :
  reachable context ->
  exists keys w',
    storage_getKeys context base opts w = (Ok keys, w')
    /\ NoDup keys
    /\ forall k, In k keys ->
         startsWith k (normalizeBaseKey base) = true
         /\ lastChar k <> Some "$"%char
         /\ normalized k = true.
Proof.
  intros Hreach. unfold storage_getKeys.
  set (nb := normalizeBaseKey base).
  set (f := fun e : MountsEntry => catch _ _).
  destruct (mapM_total f (Forall (fun k => normalized k = true))
              (getMounts context nb false)) with (w := w)
    as (keys & w' & Hrun & Hall).
  { intros e He w0. destruct (getMounts_driver _ _ _ _ Hreach He) as [d Hd].
    unfold f, catch, entry_driver. rewrite Hd. unfold bind, asyncCall.
    destruct (getKeys d (or_empty (relativeBase e)) opts w0) as [[ks|err] w1].
    - eexists. eexists. split; [reflexivity|].
      apply Forall_forall. intros k Hk. apply filter_In in Hk as [Hk _].
      apply in_map_iff in Hk as (k0 & <- & _). apply normalizeKey_normalized.
    - eexists. eexists. split; [reflexivity|constructor]. }
  unfold bind. rewrite Hrun. eexists. eexists. split; [reflexivity|].
  split; [apply NoDup_filter, dedupe_NoDup|].
  intros k Hk. apply filter_In in Hk as [Hk Hf].
  apply filterKeyByBase_true in Hf as [Hp Hm].
  split; [exact Hp|]. split; [exact Hm|].
  apply dedupe_In, in_concat in Hk as (ks & Hks & Hk).
  rewrite Forall_forall in Hall. specialize (Hall ks Hks).
  rewrite Forall_forall in Hall. now apply Hall.
Qed.

End EngineOperations.

Section EngineOverMemory.
Context `{Externals}.
Import Types Storage JsString Utils KeyShape Memory.
Implicit Types (context : StorageCTX (W := heap)) (h : heap) (l : loc).

(** X14.  [clear] on the default storage.  The root mount is an ancestor of
    every base and the memory driver clears its whole map whatever base it
    is given, so [clear(base)] on a storage whose only mount is a memory
    driver removes every item, for every [base]. *)
Theorem storage_clear_memory_root l (base : option string) h :
  let context := createStorage None (memory l) in
  storage_clear context base h = (Ok tt, heap_upd h l JsMap.empty)
  /\ (forall key,
        storage_hasItem context key (heap_upd h l JsMap.empty)
        = (Ok false, heap_upd h l JsMap.empty)).
Proof.
  intros context. split.
  - unfold storage_clear, getMounts, context. cbn [createStorage mountpoints filter].
    rewrite startsWith_empty, andb_true_l, orb_true_r.
    cbn [map mapM]. unfold entry_driver. cbn [mdriver mounts JsMap.get String.eqb].
    reflexivity.
  - intros key. unfold storage_hasItem, getMount, context.
    cbn [createStorage mountpoints getMount_loop].
    rewrite startsWith_empty. unfold with_driver.
    cbn [createStorage driver mounts JsMap.get String.eqb asyncCall hasItem memory
         relativeKey].
    now rewrite heap_upd_same.
Qed.

(** X15.  Writing and reading one item through the engine, on a mount
    served by a memory driver.  [setItem] and [setItemRaw] hand the value to
    the driver as it is (the driver has [setItemRaw], so nothing is
    serialized) under the relative key of the normalized key.  Reading under
    any key that normalizes alike -- "a/b" for "a:b" -- returns that value
    ([null] for [null] and [undefined]), through [destr] for [getItem];
    [hasItem] is true, and after [removeItem] it is false again. *)
Theorem storage_setItem_getItem_memory context k k' v l h :
  normalizeKey (Some k') = normalizeKey (Some k) ->
  driver (getMount context (normalizeKey (Some k))) = Some (memory l) ->
  let rk := relativeKey (getMount context (normalizeKey (Some k))) in
  let stored := match v with VUndefined | VNull => VNull | _ => v end in
  let h' := heap_upd h l (JsMap.set (h l) rk v) in
  storage_setItem context k v h = (Ok tt, h')
  /\ storage_setItemRaw context k v h = (Ok tt, h')
  /\ storage_getItem context k' h' = (Ok (destr stored), h')
  /\ storage_getItemRaw context k' h' = (Ok stored, h')
  /\ storage_hasItem context k' h' = (Ok true, h')
  /\ (forall l', l' <> l -> h' l' = h l')
  /\ (NoDup (JsMap.keys (h l)) ->
      exists h'',
        storage_removeItem context k' h' = (Ok tt, h'')
        /\ storage_hasItem context k h'' = (Ok false, h'')
        /\ storage_getItemRaw context k h'' = (Ok VNull, h'')).
Proof.
  intros Ek Hd rk stored h'.
  assert (Hget : get_or_null (h' l) rk = stored).
  { unfold h', get_or_null. rewrite heap_upd_same, JsMap_get_set_eq.
    now destruct v. }
  unfold storage_setItem, storage_setItemRaw, storage_getItem, storage_getItemRaw,
    storage_hasItem, storage_removeItem.
  rewrite Ek. unfold with_driver. rewrite Hd. fold rk.
  cbn [setItemRaw getItemRaw getItem hasItem removeItem memory asyncCall].
  split; [reflexivity|]. split; [reflexivity|].
  split; [unfold bind; now rewrite Hget|]. split; [now rewrite Hget|].
  split; [unfold h'; now rewrite heap_upd_same, JsMap_has_set, String.eqb_refl|].
  split; [intros l' Hne; now apply heap_upd_other|].
  intros Hnd. eexists. split; [reflexivity|].
  rewrite !heap_upd_same.
  assert (Hhas : JsMap.has (JsMap.delete (h' l) rk) rk = false).
  { rewrite JsMap_has_delete, String.eqb_refl; [reflexivity|].
    unfold h'. rewrite heap_upd_same. now apply JsMap_NoDup_set. }
  rewrite Hhas. split; [reflexivity|].
  unfold get_or_null. unfold JsMap.has in Hhas.
  now destruct (JsMap.get (JsMap.delete (h' l) rk) rk).
Qed.

End EngineOverMemory.

Section EngineExamples.
Import Types Storage JsString Utils KeyShape Memory Scenario.

(** The default storage holding "a", "b:c" and "x$": the keys of the root
    level that do not end in '$'. *)
Lemma storage_getKeys_sound_witness :
  let h := heap_upd heap0 0 [("a", VNumber 1); ("b:c", VNumber 2); ("x$", VNumber 3)] in
  reachable storage0
  /\ exists keys w',
       storage_getKeys storage0 None {| maxDepth := None |} h = (Ok keys, w')
       /\ NoDup keys
       /\ keys = ["a"].
Proof.
  intros h.
  assert (Hr : reachable storage0) by apply (reach_create None (memory 0)).
  destruct (storage_getKeys_sound storage0 None {| maxDepth := None |} h Hr)
    as (keys & w' & Hrun & Hnd & _).
  split; [exact Hr|]. exists keys, w'. split; [exact Hrun|]. split; [exact Hnd|].
  assert (E : fst (storage_getKeys storage0 None {| maxDepth := None |} h) = Ok ["a"])
    by reflexivity.
  rewrite Hrun in E. now injection E.
Defined.

(** The mounted storage of the routing tests: "cache/sub/x" is written and
    read back as "cache:sub:x" through the driver at "cache:sub:". *)
Lemma storage_setItem_getItem_memory_witness :
  let context :=
    fst (mounted (fst (mounted (fst (mounted storage0 "/mnt" (memory 1) heap0))
                               "cache" (memory 2) heap0))
                 "cache:sub" (memory 3) heap0) in
  normalizeKey (Some "cache:sub:x") = normalizeKey (Some "cache/sub/x")
  /\ driver (getMount context (normalizeKey (Some "cache/sub/x"))) = Some (memory 3)
  /\ storage_setItem (H := plain_externals) context "cache/sub/x" (VString "v") heap0
     = (Ok tt, heap_upd heap0 3 [("x", VString "v")])
  /\ storage_getItem (H := plain_externals) context "cache:sub:x"
       (heap_upd heap0 3 [("x", VString "v")])
     = (Ok (VString "v"), heap_upd heap0 3 [("x", VString "v")]).
Proof.
  intros context.
  assert (Ek : normalizeKey (Some "cache:sub:x") = normalizeKey (Some "cache/sub/x"))
    by reflexivity.
  assert (Hd : driver (getMount context (normalizeKey (Some "cache/sub/x")))
               = Some (memory 3)) by reflexivity.
  destruct (storage_setItem_getItem_memory (H := plain_externals)
              context "cache/sub/x" "cache:sub:x" (VString "v") 3 heap0 Ek Hd)
    as (Hset & _ & Hgetk & _).
  split; [exact Ek|]. split; [exact Hd|]. split; [exact Hset|exact Hgetk].
Defined.

End EngineExamples.

(** ** The batch operations: grouping by mount *)

Section Grouping.
Import JsString.

Lemma dedupe_snoc_notin x xs :
  ~ In x xs -> dedupe (xs ++ [x])%list = (dedupe xs ++ [x])%list.
Proof.
  induction xs as [|y rest IH]; [reflexivity|].
  intros Hnot. cbn [app dedupe].
  rewrite IH by (intros Hin; apply Hnot; now right).
  rewrite filter_app. cbn [filter].
  destruct (String.eqb_spec x y) as [->|Hne]; [exfalso; apply Hnot; now left|].
  reflexivity.
Qed.

Lemma dedupe_snoc_in x xs : In x xs -> dedupe (xs ++ [x])%list = dedupe xs.
Proof.
  induction xs as [|y rest IH]; [intros []|].
  intros Hin. cbn [app dedupe]. f_equal.
  destruct (in_dec string_dec x rest) as [Hx|Hx]; [now rewrite IH|].
  destruct Hin as [->|Hin]; [|contradiction].
  rewrite (dedupe_snoc_notin _ _ Hx), filter_app. cbn [filter].
  rewrite String.eqb_refl. cbn [negb]. apply app_nil_r.
Qed.

Lemma JsMap_get_tabulate {V} (f : string -> V) bs b :
  In b bs -> JsMap.get (map (fun b' => (b', f b')) bs) b = Some (f b).
Proof.
  induction bs as [|b0 rest IH]; [intros []|].
  intros Hin. cbn [map JsMap.get].
  destruct (String.eqb_spec b0 b) as [->|Hne]; [reflexivity|].
  destruct Hin as [E|Hin]; [congruence|now apply IH].
Qed.

Lemma JsMap_get_absent {V} (m : JsMap.t V) b :
  ~ In b (JsMap.keys m) -> JsMap.get m b = None.
Proof.
  intros Hnot. destruct (JsMap.get m b) eqn:E; [|reflexivity].
  exfalso. apply Hnot. apply JsMap_has_In. unfold JsMap.has. now rewrite E.
Qed.

Lemma JsMap_set_absent {V} (m : JsMap.t V) b v :
  ~ In b (JsMap.keys m) -> JsMap.set m b v = (m ++ [(b, v)])%list.
Proof.
  induction m as [|[k0 v0] m IH]; [reflexivity|].
  cbn [JsMap.keys map fst In]. intros Hnot. cbn [JsMap.set app].
  destruct (String.eqb_spec k0 b) as [->|Hne]; [exfalso; apply Hnot; now left|].
  f_equal. apply IH. intros Hin. apply Hnot. now right.
Qed.

Lemma JsMap_set_tabulate {V} (f : string -> V) bs b v :
  NoDup bs -> In b bs ->
  JsMap.set (map (fun b' => (b', f b')) bs) b v
  = map (fun b' => (b', if String.eqb b' b then v else f b')) bs.
Proof.
  induction bs as [|b0 rest IH]; [intros _ []|].
  intros Hnd Hin. inversion Hnd as [|? ? Hnotin Hnd']; subst.
  cbn [map JsMap.set].
  destruct (String.eqb_spec b0 b) as [->|Hne].
  - f_equal. apply map_ext_in. intros b' Hb'.
    destruct (String.eqb_spec b' b) as [->|]; [contradiction|reflexivity].
  - f_equal. destruct Hin as [E|Hin]; [congruence|now apply IH].
Qed.

End Grouping.

Section BatchOperations.
Context {W : Type} `{Externals}.
Variable batch_methods : Types.Driver W -> StorageBatch.BatchMethods (W := W).
Import Types JsString Utils Storage StorageBatch.
Implicit Types (context : StorageCTX (W := W)) (es : list BatchEntry).

Lemma getMount_driver_lookup context k :
  Storage.driver (getMount context k)
  = JsMap.get (mounts context) (Storage.base (getMount context k)).
Proof.
  unfold getMount. induction (mountpoints context) as [|b rest IH]; [reflexivity|].
  cbn [getMount_loop]. now destruct (startsWith k b).
Qed.

Lemma grouped_snoc_in context es e :
  In (entry_base context e) (map (entry_base context) es) ->
  grouped context (es ++ [e])
  = map (fun bg : string * list BatchEntry =>
           (fst bg, if String.eqb (fst bg) (entry_base context e)
                    then (snd bg ++ [e])%list else snd bg))
        (grouped context es).
Proof.
  intros Hin. unfold grouped. rewrite map_app. cbn [map].
  rewrite (dedupe_snoc_in _ _ Hin), map_map. apply map_ext. intros b.
  cbn [fst snd]. rewrite filter_app. cbn [filter].
  rewrite (String.eqb_sym b).
  destruct (String.eqb (entry_base context e) b); [reflexivity|now rewrite app_nil_r].
Qed.

Lemma filter_none {A} (p : A -> bool) xs :
  (forall x, In x xs -> p x = false) -> filter p xs = [].
Proof.
  induction xs as [|x rest IH]; [reflexivity|].
  intros Hf. cbn [filter]. rewrite (Hf x (or_introl eq_refl)).
  apply IH. intros y Hy. apply Hf. now right.
Qed.

Lemma grouped_snoc_notin context es e :
  ~ In (entry_base context e) (map (entry_base context) es) ->
  grouped context (es ++ [e])
  = (grouped context es ++ [(entry_base context e, [e])])%list.
Proof.
  intros Hnot. unfold grouped. rewrite map_app. cbn [map].
  rewrite (dedupe_snoc_notin _ _ Hnot), map_app. cbn [map]. f_equal.
  - apply map_ext_in. intros b Hb. apply (proj1 (dedupe_In _ _)) in Hb.
    rewrite filter_app. cbn [filter].
    destruct (String.eqb_spec (entry_base context e) b) as [E|_];
      [subst b; contradiction|now rewrite app_nil_r].
  - rewrite filter_app. cbn [filter]. rewrite String.eqb_refl.
    rewrite filter_none; [reflexivity|].
    intros x Hx. destruct (String.eqb_spec (entry_base context x) (entry_base context e))
      as [E|]; [|reflexivity].
    exfalso. apply Hnot. rewrite <- E. now apply in_map.
Qed.

Lemma grouped_keys context es :
  map fst (grouped context es) = dedupe (map (entry_base context) es).
Proof. unfold grouped. rewrite map_map. cbn [fst]. apply map_id. Qed.

(** The [Map] that the loop of [runBatch] builds holds the groups. *)
Lemma collect_entries context es :
  fold_left (fun batches e =>
               getBatch_push batches (getMount context (StorageBatch.key e)) e)
            es JsMap.empty
  = map (fun bg => (fst bg, batch_of context (fst bg) (snd bg))) (grouped context es).
Proof.
  induction es as [|e es IH] using rev_ind; [reflexivity|].
  rewrite fold_left_app. cbn [fold_left]. rewrite IH. clear IH.
  unfold getBatch_push. rewrite getMount_driver_lookup.
  fold (entry_base context e).
  set (F := fun b' => batch_of context b'
                        (filter (fun e0 => String.eqb (entry_base context e0) b') es)).
  set (bs := dedupe (map (entry_base context) es)).
  assert (HG : map (fun bg => (fst bg, batch_of context (fst bg) (snd bg)))
                   (grouped context es)
               = map (fun b' => (b', F b')) bs).
  { unfold grouped. now rewrite map_map. }
  rewrite HG. clear HG.
  destruct (in_dec string_dec (entry_base context e) (map (entry_base context) es))
    as [Hin|Hnot].
  - assert (Hb : In (entry_base context e) bs) by now apply dedupe_In.
    rewrite (JsMap_get_tabulate F bs _ Hb).
    rewrite (JsMap_set_tabulate F bs _ _ (dedupe_NoDup _) Hb).
    rewrite (grouped_snoc_in _ _ _ Hin). unfold grouped.
    rewrite !map_map. cbn [fst snd]. apply map_ext. intros b'.
    destruct (String.eqb_spec b' (entry_base context e)) as [->|]; reflexivity.
  - assert (Hb : ~ In (entry_base context e) (JsMap.keys (map (fun b' => (b', F b')) bs))).
    { unfold JsMap.keys. rewrite map_map. cbn [fst]. rewrite map_id.
      unfold bs. now rewrite dedupe_In. }
    rewrite (JsMap_get_absent _ _ Hb), (JsMap_set_absent _ _ _ Hb).
    cbn [StorageBatch.driver StorageBatch.base StorageBatch.items app].
    rewrite (grouped_snoc_notin _ _ _ Hnot), map_app. cbn [map fst snd].
    unfold grouped. now rewrite !map_map.
Qed.

Lemma fold_left_map_entries {A B C} (f : A -> C -> A) (g : B -> C) xs a :
  fold_left (fun acc x => f acc (g x)) xs a = fold_left f (map g xs) a.
Proof. revert a. induction xs as [|x rest IH]; intros a; [reflexivity|apply IH]. Qed.

Lemma collect_batches_grouped context items :
  map snd (collect_batches context items)
  = map (fun bg => batch_of context (fst bg) (snd bg))
        (grouped context (map (entry_of context) items)).
Proof.
  unfold collect_batches.
  rewrite (fold_left_map_entries
             (fun batches e =>
                getBatch_push batches (getMount context (StorageBatch.key e)) e)
             (entry_of context)).
  rewrite collect_entries, map_map. reflexivity.
Qed.


Lemma map_promise_all_promise {A B} (f : A -> W -> Started B * W) (g : A -> M W B) xs :
  (forall x, In x xs -> forall w, f x w = promise (g x) w) ->
  forall w, map_promise_all f xs w = promise (mapM g xs) w.
Proof.
  induction xs as [|x rest IH]; intros Hf w; [reflexivity|].
  cbn [map_promise_all]. rewrite (Hf x (or_introl eq_refl)).
  unfold promise at 1 2. cbn [mapM]. destruct (g x w) as [ry w1].
  rewrite (IH (fun x' Hx' => Hf x' (or_intror Hx'))).
  unfold promise. now destruct (mapM g rest w1) as [rys w2].
Qed.

Lemma mapM_ext_in {A B} (f g : A -> M W B) xs :
  (forall x, In x xs -> forall w, f x w = g x w) ->
  forall w, mapM f xs w = mapM g xs w.
Proof.
  induction xs as [|x rest IH]; intros Hf w; [reflexivity|].
  cbn [mapM]. rewrite (Hf x (or_introl eq_refl)). destruct (g x w) as [ry w1].
  now rewrite (IH (fun x' Hx' => Hf x' (or_intror Hx'))).
Qed.

Lemma mapM_map {A B C} (f : B -> M W C) (g : A -> B) xs w :
  mapM f (map g xs) w = mapM (fun x => f (g x)) xs w.
Proof.
  revert w. induction xs as [|x rest IH]; intros w; [reflexivity|].
  cbn [map mapM]. destruct (f (g x) w) as [ry w1]. now rewrite IH.
Qed.

Lemma mapM_app {A B} (f : A -> M W B) xs ys w :
  mapM f (xs ++ ys) w
  = let '(r1, w1) := mapM f xs w in
    let '(r2, w2) := mapM f ys w1 in
    (match r1, r2 with
     | Ok a, Ok b => Ok (a ++ b)%list
     | Throw e, _ => Throw e
     | Ok _, Throw e => Throw e
     end, w2).
Proof.
  revert w. induction xs as [|x rest IH]; intros w.
  - cbn [app mapM]. now destruct (mapM f ys w) as [[r2|e] w2].
  - cbn [app mapM]. destruct (f x w) as [ry w1]. rewrite IH.
    destruct (mapM f rest w1) as [r1 w2]. destruct (mapM f ys w2) as [r2 w3].
    now destruct ry, r1, r2.
Qed.

Lemma mapM_concat {A B} (f : A -> M W B) (xss : list (list A)) w :
  mapM f (List.concat xss) w
  = let '(r, w') := mapM (fun xs => mapM f xs) xss w in
    (match r with Ok yss => Ok (List.concat yss) | Throw e => Throw e end, w').
Proof.
  revert w. induction xss as [|xs rest IH]; intros w; [reflexivity|].
  cbn [List.concat mapM]. rewrite mapM_app. destruct (mapM f xs w) as [r1 w1].
  rewrite IH. destruct (mapM (fun xs0 => mapM f xs0) rest w1) as [r w2].
  now destruct r1, r.
Qed.

(** What [entry_of] records about an item. *)
Lemma entry_of_wf context item :
  let e := entry_of context item in
  normalizeKey (Some (StorageBatch.key e)) = StorageBatch.key e
  /\ StorageBatch.relativeKey e = Storage.relativeKey (getMount context (StorageBatch.key e))
  /\ StorageBatch.value e = item_value item.
Proof.
  intros e. unfold e, entry_of.
  cbn [StorageBatch.key StorageBatch.relativeKey StorageBatch.value].
  split; [|split; reflexivity].
  apply normalizeKey_fixes_normalized, normalizeKey_normalized.
Qed.

(** The batches of a reachable context have drivers. *)
Lemma grouped_driver context es b g :
  reachable context ->
  In (b, g) (grouped context es) ->
  (exists d, JsMap.get (mounts context) b = Some d)
  /\ forall e, In e g -> In e es /\ entry_base context e = b.
Proof.
  intros Hreach Hin. unfold grouped in Hin.
  apply in_map_iff in Hin as (b' & [= -> <-] & Hb).
  apply (proj1 (dedupe_In _ _)) in Hb. apply in_map_iff in Hb as (e0 & <- & _).
  split.
  - destruct (getMount_routes context (StorageBatch.key e0)
                (reachable_mount_inv _ Hreach)) as (_ & _ & _ & _ & d & _ & Hd).
    exists d. exact Hd.
  - intros e He. apply filter_In in He as [He Hb]. split; [exact He|].
    now apply String.eqb_eq.
Qed.

Lemma getItem_entry context e d w :
  normalizeKey (Some (StorageBatch.key e)) = StorageBatch.key e ->
  StorageBatch.relativeKey e
  = Storage.relativeKey (getMount context (StorageBatch.key e)) ->
  Storage.driver (getMount context (StorageBatch.key e)) = Some d ->
  (value <- asyncCall (Some (getItem d (StorageBatch.relativeKey e))) ;;
   ret (StorageBatch.key e, destr value)) w
  = (v <- storage_getItem context (StorageBatch.key e) ;;
     ret (StorageBatch.key e, v)) w.
Proof.
  intros Hk Hrk Hd. unfold storage_getItem. rewrite Hk. unfold with_driver.
  rewrite Hd, <- Hrk. unfold bind, asyncCall.
  now destruct (getItem d (StorageBatch.relativeKey e) w) as [[v|err] w1].
Qed.


Lemma grouped_update_other (G : list (string * list BatchEntry)) b e :
  ~ In b (map fst G) ->
  map snd (map (fun bg : string * list BatchEntry =>
                  (fst bg, if String.eqb (fst bg) b
                           then (snd bg ++ [e])%list else snd bg)) G)
  = map snd G.
Proof.
  intros Hnot. rewrite map_map. apply map_ext_in. intros [b0 g0] Hin. cbn [fst snd].
  destruct (String.eqb_spec b0 b) as [->|]; [|reflexivity].
  exfalso. apply Hnot. apply in_map_iff. now exists (b, g0).
Qed.

Lemma grouped_update_perm (G : list (string * list BatchEntry)) b e :
  NoDup (map fst G) -> In b (map fst G) ->
  Permutation
    (List.concat
       (map snd (map (fun bg : string * list BatchEntry =>
                        (fst bg, if String.eqb (fst bg) b
                                 then (snd bg ++ [e])%list else snd bg)) G)))
    (List.concat (map snd G) ++ [e])%list.
Proof.
  induction G as [|[b0 g0] G IH]; [intros _ []|].
  cbn [map fst snd List.concat]. intros Hnd Hin.
  inversion Hnd as [|? ? Hnotin Hnd']; subst.
  destruct (String.eqb_spec b0 b) as [->|Hne].
  - rewrite (grouped_update_other _ _ _ Hnotin), <- !app_assoc.
    apply Permutation_app_head, Permutation_app_comm.
  - rewrite <- app_assoc. apply Permutation_app_head, IH; [exact Hnd'|].
    destruct Hin as [E|Hin]; [congruence|exact Hin].
Qed.

Lemma served_perm context es :
  Permutation (List.concat (map snd (grouped context es))) es.
Proof.
  induction es as [|e es IH] using rev_ind; [constructor|].
  destruct (in_dec string_dec (entry_base context e) (map (entry_base context) es))
    as [Hin|Hnot].
  - rewrite (grouped_snoc_in _ _ _ Hin).
    rewrite grouped_update_perm.
    + now apply Permutation_app_tail.
    + rewrite grouped_keys. apply dedupe_NoDup.
    + rewrite grouped_keys. now apply dedupe_In.
  - rewrite (grouped_snoc_notin _ _ _ Hnot), map_app, concat_app.
    cbn [map snd List.concat]. rewrite app_nil_r. now apply Permutation_app_tail.
Qed.

Lemma dedupe_const b xs :
  (forall x, In x xs -> x = b) -> xs <> [] -> dedupe xs = [b].
Proof.
  induction xs as [|x rest IH]; [congruence|].
  intros Hall _. cbn [dedupe]. rewrite (Hall x (or_introl eq_refl)).
  destruct rest as [|y rest']; [reflexivity|].
  rewrite IH; [|intros z Hz; apply Hall; now right|discriminate].
  cbn [filter]. now rewrite String.eqb_refl.
Qed.

Lemma served_one_base context items b :
  (forall item, In item items -> entry_base context (entry_of context item) = b) ->
  served context items = map (entry_of context) items.
Proof.
  intros Hall. unfold served, grouped.
  set (es := map (entry_of context) items).
  assert (Hes : forall e, In e es -> entry_base context e = b).
  { intros e He. apply in_map_iff in He as (it & <- & Hit). now apply Hall. }
  clearbody es. destruct es as [|e0 es']; [reflexivity|].
  rewrite (dedupe_const b).
  - cbn [map snd List.concat]. rewrite app_nil_r.
    apply forallb_filter_id. apply forallb_forall. intros e He.
    apply String.eqb_eq. now apply Hes.
  - intros x Hx. apply in_map_iff in Hx as (e & <- & He). now apply Hes.
  - discriminate.
Qed.

(** X16.  [getItems] on a reachable storage whose drivers have no
    [getItems] of their own.  The items are answered one by one as [getItem]
    answers them, each under its normalized key, in the order [served]:
    grouped by the mount that serves them, the mounts in the order of their
    first item, the items of a mount in the order of the request.  That
    order is a rearrangement of the request, and it is the order of the
    request when one mount serves all the items. *)
Theorem storage_getItems_grouped context items w :
  reachable context ->
  (forall b d, JsMap.get (mounts context) b = Some d ->
               getItems (batch_methods d) = None) ->
  storage_getItems batch_methods context items w
  = mapM (fun e => v <- storage_getItem context (StorageBatch.key e) ;;
                   ret (StorageBatch.key e, v))
         (served context items) w
  /\ Permutation (served context items) (map (entry_of context) items)
  /\ (forall b,
        (forall item, In item items ->
                      entry_base context (entry_of context item) = b) ->
        served context items = map (entry_of context) items).
Proof.
  intros Hreach Hnone.
  split; [|split; [apply served_perm|apply served_one_base]].
  unfold storage_getItems, runBatch, served.
  rewrite collect_batches_grouped.
  set (G := grouped context (map (entry_of context) items)).
  set (g := fun e : BatchEntry =>
              (v <- storage_getItem context (StorageBatch.key e) ;;
               ret (StorageBatch.key e, v))).
  rewrite (map_promise_all_promise (getItems_batch batch_methods)
             (fun batch => mapM g (StorageBatch.items batch))).
  - unfold promise. rewrite mapM_map, mapM_concat, mapM_map.
    unfold batch_of. cbn [StorageBatch.items]. cbv beta. unfold StorageValue.
    destruct (mapM (fun x => mapM g (snd x)) G w) as [[r|e] w']; reflexivity.
  - intros batch Hbatch w0. apply in_map_iff in Hbatch as ([b grp] & <- & Hbg).
    cbn [fst snd].
    destruct (grouped_driver _ _ _ _ Hreach Hbg) as ((d & Hd) & Hgrp).
    unfold getItems_batch, batch_of.
    cbn [StorageBatch.driver StorageBatch.items StorageBatch.base].
    rewrite Hd, (Hnone _ _ Hd). unfold promise. f_equal.
    rewrite (mapM_ext_in _ g); [reflexivity|].
    intros e He w1. destruct (Hgrp e He) as [Hin Hb].
    apply in_map_iff in Hin as (item & <- & _).
    destruct (entry_of_wf context item) as (Hk & Hrk & _).
    apply getItem_entry; auto.
    rewrite getMount_driver_lookup. unfold entry_base in Hb. now rewrite Hb.
Qed.


Lemma mapM_bind_ret {A B C} (f : A -> M W B) (k : B -> C) xs w :
  mapM (fun x => y <- f x ;; ret (k y)) xs w
  = let '(r, w') := mapM f xs w in
    (match r with Ok ys => Ok (map k ys) | Throw e => Throw e end, w').
Proof.
  revert w. induction xs as [|x rest IH]; intros w; [reflexivity|].
  cbn [mapM]. unfold bind at 1. destruct (f x w) as [[y|e] w1].
  - unfold ret at 1. rewrite IH. now destruct (mapM f rest w1) as [[ys|e] w2].
  - rewrite IH. now destruct (mapM f rest w1) as [[ys|e'] w2].
Qed.

Lemma setItem_entry context e d w :
  normalizeKey (Some (StorageBatch.key e)) = StorageBatch.key e ->
  StorageBatch.relativeKey e
  = Storage.relativeKey (getMount context (StorageBatch.key e)) ->
  Storage.driver (getMount context (StorageBatch.key e)) = Some d ->
  (setItemRaw d = None -> exists text, stringify (StorageBatch.value e) = Ok text) ->
  (if has_setItemRaw d then
     promise (asyncCall
                (option_map (fun f => f (StorageBatch.relativeKey e) (StorageBatch.value e))
                            (setItemRaw d)))
   else
     match stringify (StorageBatch.value e) with
     | Throw err => fun w => (threw err, w)
     | Ok text =>
         promise (asyncCall
                    (option_map
                       (fun f => f (StorageBatch.relativeKey e) (VString text))
                       (setItem d)))
     end) w
  = promise (storage_setItem context (StorageBatch.key e) (StorageBatch.value e)) w.
Proof.
  intros Hk Hrk Hd Hstr. unfold storage_setItem. rewrite Hk. unfold with_driver.
  rewrite Hd, <- Hrk. unfold has_setItemRaw.
  destruct (setItemRaw d) as [f|]; [reflexivity|].
  destruct (Hstr eq_refl) as [text ->]. reflexivity.
Qed.

(** X17.  [setItems] on a reachable storage whose drivers have no
    [setItems] of their own, for values that the engine can hand over: the
    driver takes raw values ([setItemRaw]) or [stringify] accepts the value.
    The items are written one by one as [setItem] writes them, in the order
    [served] (grouped by mount); every write is made, also after one has
    failed, and the first failure is reported. *)
Theorem storage_setItems_grouped context items w :
  reachable context ->
  (forall b d, JsMap.get (mounts context) b = Some d ->
               setItems (batch_methods d) = None) ->
  (forall item d,
      In item items ->
      Storage.driver (getMount context (normalizeKey (Some (item_key item)))) = Some d ->
      setItemRaw d = None ->
      exists text, stringify (item_value item) = Ok text) ->
  storage_setItems batch_methods context items w
  = (mapM (fun e => storage_setItem context (StorageBatch.key e) (StorageBatch.value e))
          (served context items) ;;; ret tt) w.
Proof.
  intros Hreach Hnone Hstr.
  unfold storage_setItems, runBatch, served.
  rewrite collect_batches_grouped.
  set (G := grouped context (map (entry_of context) items)).
  set (g := fun e : BatchEntry =>
              storage_setItem context (StorageBatch.key e) (StorageBatch.value e)).
  rewrite (map_promise_all_promise (setItems_batch batch_methods)
             (fun batch => _ <- mapM g (StorageBatch.items batch) ;; ret [tt])).
  - unfold promise, bind at 2. rewrite mapM_map, mapM_concat, mapM_map.
    unfold batch_of. cbn [StorageBatch.items]. cbv beta.
    rewrite (mapM_bind_ret (fun x : string * list BatchEntry => mapM g (snd x))
               (fun _ => [tt])).
    destruct (mapM (fun x => mapM g (snd x)) G w) as [[r|e] w']; reflexivity.
  - intros batch Hbatch w0. apply in_map_iff in Hbatch as ([b grp] & <- & Hbg).
    cbn [fst snd].
    destruct (grouped_driver _ _ _ _ Hreach Hbg) as ((d & Hd) & Hgrp).
    unfold setItems_batch, batch_of.
    cbn [StorageBatch.driver StorageBatch.items StorageBatch.base].
    rewrite Hd, (Hnone _ _ Hd).
    rewrite (map_promise_all_promise _ g).
    + unfold promise, bind. now destruct (mapM g grp w0) as [[r|e] w1].
    + intros e He w1. destruct (Hgrp e He) as [Hin Hb].
      apply in_map_iff in Hin as (item & <- & Hitem).
      destruct (entry_of_wf context item) as (Hk & Hrk & Hv).
      assert (Hdrv : Storage.driver
                       (getMount context (StorageBatch.key (entry_of context item)))
                     = Some d).
      { rewrite getMount_driver_lookup. unfold entry_base in Hb. now rewrite Hb. }
      apply setItem_entry; auto.
      intros Hraw. rewrite Hv. now apply (Hstr item d).
Qed.

End BatchOperations.

Section BatchExamples.
Import Types Storage Memory Scenario JsString Utils.

(** The storage with mounts at "mnt:", "cache:" and "cache:sub:": a request
    for "cache:a", "b" and "/cache/c" is answered for the two keys of the
    mount "cache:" first. *)
Lemma storage_getItems_grouped_witness :
  let context :=
    fst (mounted (fst (mounted (fst (mounted storage0 "/mnt" (memory 1) heap0))
                               "cache" (memory 2) heap0))
                 "cache:sub" (memory 3) heap0) in
  let h := heap_upd (heap_upd heap0 0 [("b", VNumber 2)])
                    2 [("a", VNumber 1); ("c", VNumber 3)] in
  let items := [StorageBatch.ItemKey "cache:a"; StorageBatch.ItemKey "b";
                StorageBatch.ItemKey "/cache/c"] in
  reachable context
  /\ map StorageBatch.key (StorageBatch.served context items)
     = ["cache:a"; "cache:c"; "b"]
  /\ StorageBatch.storage_getItems (H := plain_externals) no_batch_methods
       context items h
     = (Ok [("cache:a", VNumber 1); ("cache:c", VNumber 3); ("b", VNumber 2)], h).
Proof.
  intros context h items.
  assert (Hnone : forall b d, JsMap.get (mounts context) b = Some d ->
                              StorageBatch.getItems (no_batch_methods d) = None)
    by reflexivity.
  destruct (storage_getItems_grouped (H := plain_externals) no_batch_methods
              context items h mounts_example_reachable Hnone) as (Heq & _ & _).
  split; [exact mounts_example_reachable|]. split; [reflexivity|].
  rewrite Heq. reflexivity.
Defined.

(** The same storage: three writes, the two for the mount "cache:" first;
    the values reach the maps of the two drivers as they are. *)
Lemma storage_setItems_grouped_witness :
  let context :=
    fst (mounted (fst (mounted (fst (mounted storage0 "/mnt" (memory 1) heap0))
                               "cache" (memory 2) heap0))
                 "cache:sub" (memory 3) heap0) in
  let items := [StorageBatch.ItemObject "cache:a" (VNumber 1);
                StorageBatch.ItemObject "b" (VNumber 2);
                StorageBatch.ItemObject "/cache/c" (VNumber 3)] in
  reachable context
  /\ exists h,
       StorageBatch.storage_setItems (H := plain_externals) no_batch_methods
         context items heap0 = (Ok tt, h)
       /\ h 2 = [("a", VNumber 1); ("c", VNumber 3)]
       /\ h 0 = [("b", VNumber 2)].
Proof.
  intros context items.
  assert (Hnone : forall b d, JsMap.get (mounts context) b = Some d ->
                              StorageBatch.setItems (no_batch_methods d) = None)
    by reflexivity.
  assert (Hstr : forall item d,
             In item items ->
             driver (getMount context (normalizeKey (Some (StorageBatch.item_key item))))
             = Some d ->
             setItemRaw d = None ->
             exists text,
               stringify (Externals := plain_externals) (StorageBatch.item_value item)
               = Ok text).
  { intros item d _ _ _. eexists. reflexivity. }
  pose proof (storage_setItems_grouped (H := plain_externals) no_batch_methods
                context items heap0 mounts_example_reachable Hnone Hstr) as Heq.
  split; [exact mounts_example_reachable|].
  eexists. split; [rewrite Heq; reflexivity|]. split; reflexivity.
Defined.

End BatchExamples.

(** ** The filesystem driver behind the engine: parent segments *)

Section FsParentSegments.
Import Utils JsString KeyShape.

Lemma normalizeKey_pipeline s :
  normalizeKey (Some s) = strip_ends (collapse_colons (replace_slashes (split_query s))).
Proof. now destruct s. Qed.

Lemma split_query_app a b :
  all_chars (fun c => negb (Ascii.eqb c "?")) a = true ->
  split_query (a ++ b) = a ++ split_query b.
Proof.
  induction a as [|c a IH]; [reflexivity|].
  cbn [all_chars]. intros Ha. apply andb_prop in Ha as [Hc Ha].
  change (String c a ++ b) with (String c (a ++ b)). cbn [split_query].
  destruct (Ascii.eqb c "?"); [discriminate|]. now rewrite (IH Ha).
Qed.

Lemma replace_slashes_app a b :
  replace_slashes (a ++ b) = replace_slashes a ++ replace_slashes b.
Proof.
  induction a as [|c a IH]; [reflexivity|].
  change (String c a ++ b) with (String c (a ++ b)). cbn [replace_slashes].
  now rewrite IH.
Qed.

(** Collapsing colons works on the two sides of a character that is not a
    colon independently. *)
Lemma collapse_colons_split a c r :
  Ascii.eqb c ":" = false ->
  collapse_colons (a ++ String c r) = collapse_colons a ++ collapse_colons (String c r).
Proof.
  intros Ec. induction a as [|x a IH]; [reflexivity|].
  change (String x a ++ String c r) with (String x (a ++ String c r)).
  rewrite (collapse_colons_cons x (a ++ String c r)), (collapse_colons_cons x a), IH.
  destruct (Ascii.eqb x ":"); [|reflexivity].
  destruct a as [|y a'].
  - change ("" ++ String c r) with (String c r). cbv iota. now rewrite Ec.
  - change (String y a' ++ String c r) with (String y (a' ++ String c r)). cbv iota.
    now destruct (Ascii.eqb y ":").
Qed.

(** A run of colons at the start collapses to one colon. *)
Lemma collapse_colons_head r :
  exists u, collapse_colons (String ":" r) = String ":" u.
Proof.
  induction r as [|y r IH].
  - now exists "".
  - rewrite collapse_colons_cons. cbn [Ascii.eqb Bool.eqb].
    destruct (Ascii.eqb y ":") eqn:Ey.
    + apply Ascii.eqb_eq in Ey. subst y. exact IH.
    + eexists. reflexivity.
Qed.

Lemma strip_leading_app a b :
  b <> "" -> noleading b = true ->
  exists a', strip_leading (a ++ b) = a' ++ b.
Proof.
  intros Hb Hl. destruct a as [|x a].
  - exists "". cbn [append]. now apply strip_leading_id.
  - change (String x a ++ b) with (String x (a ++ b)). cbn [strip_leading].
    destruct (Ascii.eqb x ":"); [now exists a|now exists (String x a)].
Qed.

Lemma strip_trailing_app a b :
  b <> "" -> strip_trailing (a ++ b) = a ++ strip_trailing b.
Proof.
  intros Hb. induction a as [|x a IH]; [reflexivity|].
  change (String x a ++ b) with (String x (a ++ b)).
  destruct (a ++ b) as [|y t] eqn:E.
  - destruct a; [cbn in E; congruence|discriminate].
  - rewrite strip_trailing_cons, IH. reflexivity.
Qed.

(** A text with a ".." segment that is closed by a separator, or that ends
    the text, is normalized to a key that the traversal pattern matches. *)
Lemma normalizeKey_parent_segment pre sep post :
  all_chars (fun c => negb (Ascii.eqb c "?")) pre = true ->
  DriverUtils.is_sep sep = true ->
  Fs.traversal_pattern (normalizeKey (Some (pre ++ ".." ++ String sep post))).
Proof.
  intros Hq Hsep. rewrite normalizeKey_pipeline.
  rewrite (split_query_app _ _ Hq).
  assert (Esq : split_query (".." ++ String sep post)
                = ".." ++ String sep (split_query post)).
  { cbn [append split_query Ascii.eqb Bool.eqb].
    destruct (Ascii.eqb_spec sep "?") as [->|]; [discriminate|reflexivity]. }
  rewrite Esq, replace_slashes_app.
  assert (Ers : replace_slashes (".." ++ String sep (split_query post))
                = ".." ++ String ":" (replace_slashes (split_query post))).
  { cbn [append replace_slashes is_slash Ascii.eqb Bool.eqb orb].
    do 2 f_equal. f_equal. unfold DriverUtils.is_sep in Hsep. unfold is_slash.
    destruct (Ascii.eqb_spec sep ":") as [->|]; [reflexivity|].
    cbn [orb] in Hsep. now rewrite Hsep. }
  rewrite Ers. set (A := replace_slashes pre).
  set (B := replace_slashes (split_query post)).
  change (".." ++ String ":" B) with (String "." (String "." (String ":" B))).
  rewrite collapse_colons_split by reflexivity.
  rewrite !(collapse_colons_other "."%char) by reflexivity.
  destruct (collapse_colons_head B) as [u ->].
  unfold strip_ends.
  destruct (strip_leading_app (collapse_colons A) (String "." (String "." (String ":" u))))
    as [A' ->]; [discriminate|reflexivity|].
  rewrite strip_trailing_app by discriminate.
  rewrite !strip_trailing_cons.
  destruct u as [|y u'].
  - right. exists A'. cbn [strip_trailing Ascii.eqb Bool.eqb]. reflexivity.
  - left. exists A', (strip_trailing (String y u')).
    now rewrite strip_trailing_cons.
Qed.


Lemma normalizeKey_parent_end pre :
  all_chars (fun c => negb (Ascii.eqb c "?")) pre = true ->
  Fs.traversal_pattern (normalizeKey (Some (pre ++ ".."))).
Proof.
  intros Hq. rewrite normalizeKey_pipeline, (split_query_app _ _ Hq).
  change (split_query "..") with "..". rewrite replace_slashes_app.
  change (replace_slashes "..") with "..".
  rewrite collapse_colons_split by reflexivity.
  change (collapse_colons "..") with "..". unfold strip_ends.
  destruct (strip_leading_app (collapse_colons (replace_slashes pre)) "..")
    as [A' ->]; [discriminate|reflexivity|].
  rewrite strip_trailing_app by discriminate.
  right. now exists A'.
Qed.

Context {W : Type} `{Externals} (node : Fs.NodeFs (W := W)).
Import Types Storage Fs.

(** X18.  Parent segments never reach the file system.  A key given to a
    storage whose root is the filesystem driver is refused with the
    InvalidKey error, and no file function is called, whenever its text has
    a ".." that is followed by a separator (':', '/' or '\') or that ends the
    text, with no '?' before it: the engine normalizes such a text to a key
    that contains "..:" or ends in "..".  This holds for [hasItem],
    [getItem], [getItemRaw] and [getMeta], and for [setItem], [setItemRaw]
    and [removeItem] of a driver that is not read-only. *)
Theorem fs_engine_rejects_parent_segments id (userOptions : FSStorageOptions)
  (dir key : string) :
  (exists pre sep post,
      all_chars (fun c => negb (Ascii.eqb c "?")) pre = true
      /\ DriverUtils.is_sep sep = true
      /\ key = pre ++ ".." ++ String sep post)
  \/ (exists pre,
        all_chars (fun c => negb (Ascii.eqb c "?")) pre = true
        /\ key = pre ++ "..") ->
  let d := driver_object node id userOptions dir in
  let context := createStorage (Some d) d in
  let k := normalizeKey (Some key) in
  traversal_pattern k
  /\ forall w,
       storage_hasItem context key w = (Throw (InvalidKey "fs" k), w)
       /\ storage_getItem context key w = (Throw (InvalidKey "fs" k), w)
       /\ storage_getItemRaw context key w = (Throw (InvalidKey "fs" k), w)
       /\ storage_getMeta context key w = (Throw (InvalidKey "fs" k), w)
       /\ (readOnly userOptions = false ->
           forall v,
             storage_setItem context key v w = (Throw (InvalidKey "fs" k), w)
             /\ storage_setItemRaw context key v w = (Throw (InvalidKey "fs" k), w)
             /\ storage_removeItem context key w = (Throw (InvalidKey "fs" k), w)).
Proof.
  intros Hkey d context k.
  assert (Hpat : traversal_pattern k).
  { destruct Hkey as [(pre & sep & post & Hq & Hsep & ->)|(pre & Hq & ->)].
    - now apply normalizeKey_parent_segment.
    - now apply normalizeKey_parent_end. }
  split; [exact Hpat|]. intros w.
  assert (Hr : r node dir k = Throw (InvalidKey "fs" k)).
  { unfold r. apply test_traverse_iff in Hpat. now rewrite Hpat. }
  assert (Hm : getMount context k
               = {| Storage.base := ""; Storage.relativeKey := k;
                    Storage.driver := Some d |}).
  { unfold getMount, context. cbn [createStorage mountpoints getMount_loop].
    now rewrite startsWith_empty. }
  unfold storage_hasItem, storage_getItem, storage_getItemRaw, storage_getMeta,
    storage_setItem, storage_setItemRaw, storage_removeItem.
  fold k. rewrite Hm. unfold with_driver. cbn [Storage.driver Storage.relativeKey].
  unfold d, driver_object.
  cbn [hasItem getItem getItemRaw getMeta setItem setItemRaw removeItem asyncCall].
  rewrite Hr. cbn [with_path]. unfold bind, throw.
  repeat (split; [reflexivity|]).
  intros ->. intros v. repeat split.
Qed.

End FsParentSegments.

Section FsParentSegmentsExample.
Import Types Fs Scenario.

(** "a/../etc/passwd" on the logging file system: refused, the log of
    accessed paths stays empty. *)
Lemma fs_engine_rejects_parent_segments_witness :
  let d := driver_object logging_fs 5 {| base := Some "/data"; readOnly := false;
                                         noClear := false |} "/data" in
  let context := Storage.createStorage (Some d) d in
  let w : FsWorld := ([("/data/etc/passwd", "secret")], []) in
  Utils.normalizeKey (Some "a/../etc/passwd") = "a:..:etc:passwd"
  /\ Storage.storage_getItem (H := plain_externals) context "a/../etc/passwd" w
     = (Throw (InvalidKey "fs" "a:..:etc:passwd"), w).
Proof.
  intros d context w.
  assert (Hkey : (exists pre sep post,
                     KeyShape.all_chars (fun c => negb (Ascii.eqb c "?")) pre = true
                     /\ DriverUtils.is_sep sep = true
                     /\ "a/../etc/passwd" = pre ++ ".." ++ String sep post)
                 \/ (exists pre,
                       KeyShape.all_chars (fun c => negb (Ascii.eqb c "?")) pre = true
                       /\ "a/../etc/passwd" = pre ++ "..")).
  { left. exists "a/", "/"%char, "etc/passwd". repeat split. }
  destruct (fs_engine_rejects_parent_segments (H := plain_externals) logging_fs 5
              {| base := Some "/data"; readOnly := false; noClear := false |}
              "/data" "a/../etc/passwd" Hkey) as (_ & Hops).
  split; [reflexivity|]. exact (proj1 (proj2 (Hops w))).
Defined.

End FsParentSegmentsExample.

(** ** The HTTP handler: refusals, and writes on the default storage *)

Section HttpGate.
Context {W : Type} `{Externals}.
Import Storage Types Server JsString Utils.


End HttpGate.

Section HttpMemory.
Context `{Externals}.
Import Storage Types Server JsString Utils Memory Scenario.
Implicit Types (h : heap) (l : loc).

Lemma root_only_mount {W} (d : Driver W) k :
  getMount (createStorage (Some d) d) k
  = {| Storage.base := ""; relativeKey := k; Storage.driver := Some d |}.
Proof.
  unfold getMount. cbn [createStorage mountpoints getMount_loop].
  now rewrite startsWith_empty.
Qed.

(** X20.  Writing and deleting over HTTP on the default storage.  For a
    path that does not end in ':' or '/', PUT with a text body and no
    octet-stream content type stores the body under the normalized path and
    answers "OK"; [getItemRaw] then returns the body.  DELETE answers "OK"
    and removes the key, after which [hasItem] is false, and HEAD and a raw
    GET of the path are answered with 404.  None of these requests sets a
    response header. *)
Theorem http_put_delete_memory l (p b : string) hs h :
  match lastChar p with
  | Some c => Ascii.eqb c ":" || Ascii.eqb c "/"
  | None => false
  end = false ->
  NoDup (JsMap.keys (h l)) ->
  let context := createStorage (Some (memory l)) (memory l) in
  let key := normalizeKey (Some p) in
  let request m hdrs body :=
    {| method := m; path := p; headers := hdrs; body := body |} in
  let h1 := heap_upd h l (JsMap.set (h l) key (VString b)) in
  let h2 := heap_upd h1 l (JsMap.delete (h1 l) key) in
  createH3StorageHandler context no_hooks (request "PUT" [] (Some b)) (hs, h)
  = (Ok (BodyText "OK"), (hs, h1))
  /\ storage_getItemRaw context p h1 = (Ok (VString b), h1)
  /\ createH3StorageHandler context no_hooks (request "DELETE" [] None) (hs, h1)
     = (Ok (BodyText "OK"), (hs, h2))
  /\ storage_hasItem context p h2 = (Ok false, h2)
  /\ createH3StorageHandler context no_hooks (request "HEAD" [] None) (hs, h2)
     = (Throw (H3Error 404 "KV value not found"), (hs, h2))
  /\ createH3StorageHandler context no_hooks
       (request "GET" [("accept", "application/octet-stream")] None) (hs, h2)
     = (Throw (H3Error 404 "KV value not found"), (hs, h2)).
Proof.
  intros Hleaf Hnd context key request h1 h2.
  assert (Hk : normalizeKey (Some key) = key)
    by apply normalizeKey_fixes_normalized, normalizeKey_normalized.
  assert (Hh1 : JsMap.get (h1 l) key = Some (VString b)).
  { unfold h1. now rewrite heap_upd_same, JsMap_get_set_eq. }
  assert (Hh2 : JsMap.has (h2 l) key = false).
  { unfold h2. rewrite heap_upd_same, JsMap_has_delete, String.eqb_refl; [reflexivity|].
    unfold h1. rewrite heap_upd_same. now apply JsMap_NoDup_set. }
  assert (Hg2 : get_or_null (h2 l) key = VNull).
  { unfold get_or_null. unfold JsMap.has in Hh2.
    now destruct (JsMap.get (h2 l) key). }
  unfold createH3StorageHandler, no_hooks, request.
  cbn [resolvePath authorize path method headers body].
  rewrite Hleaf. fold key.
  cbn [MethodToTypeMap String.eqb Ascii.eqb Bool.eqb getRequestHeader headers
       JsMap.get is_octet_stream].
  unfold storage_setItem, storage_getItemRaw, storage_removeItem, storage_hasItem,
    storage_getMeta.
  fold key. rewrite !Hk. unfold context. rewrite !root_only_mount.
  unfold with_driver. cbn [Storage.driver relativeKey setItemRaw getItemRaw removeItem
                           hasItem memory asyncCall].
  unfold bind, lift, data_set, ret, throw, createError.
  fold h1. fold h2. unfold get_or_null at 1. rewrite Hh1, Hh2, Hg2.
  repeat split.
Qed.

End HttpMemory.

Section HttpFs.
Context {W : Type} `{Externals} (node : Fs.NodeFs (W := W)).
Import Storage Types Server JsString Utils.

(** X21.  GET of a leaf path on a storage whose root is the filesystem
    driver.  A path whose normalized key matches the traversal pattern is
    answered with the driver's InvalidKey error and no file function is
    called.  Otherwise the file under the base directory is read (as text,
    or raw for [Accept: application/octet-stream]); a [null] value is
    answered with 404; any other value is returned, with a Last-Modified
    header when [stat] reports a modification time.  A failing [stat] does
    not fail the request, and X-TTL and Cache-Control are never set. *)
Theorem http_get_fs_storage id (userOptions : Fs.FSStorageOptions) dir p hdrs hs w :
  match lastChar p with
  | Some c => Ascii.eqb c ":" || Ascii.eqb c "/"
  | None => false
  end = false ->
  let d := Fs.driver_object node id userOptions dir in
  let context := createStorage (Some d) d in
  let key := normalizeKey (Some p) in
  let event := {| method := "GET"; path := p; headers := hdrs; body := None |} in
  let opts := {| authorize := None; resolvePath := None |} in
  let isRaw := is_octet_stream (JsMap.get hdrs "accept") in
  let file := Fs.join node dir (replaceChar ":" "/" key) in
  (Fs.traversal_pattern key ->
   createH3StorageHandler context opts event (hs, w)
   = (Throw (InvalidKey "fs" key), (hs, w)))
  /\ (~ Fs.traversal_pattern key ->
      forall v w1,
        Fs.readFile node file (if isRaw then None else Some "utf8") w = (Ok v, w1) ->
        let driverValue := if isRaw then v else destr v in
        (driverValue = VNull ->
         createH3StorageHandler context opts event (hs, w)
         = (Throw (H3Error 404 "KV value not found"), (hs, w1)))
        /\ (driverValue <> VNull ->
            forall text,
              (if isRaw then True else stringify driverValue = Ok text) ->
              createH3StorageHandler context opts event (hs, w)
              = (Ok (if isRaw then BodyValue driverValue else BodyText text),
                 match Fs.stat node file w1 with
                 | (Ok m, w2) =>
                     ((hs ++ match mtime m with
                             | Some t => [("last-modified", toUTCString t)]
                             | None => []
                             end)%list, w2)
                 | (Throw _, w2) => (hs, w2)
                 end))).
Proof.
  intros Hleaf d context key event opts isRaw file.
  assert (Hk : normalizeKey (Some key) = key)
    by apply normalizeKey_fixes_normalized, normalizeKey_normalized.
  assert (Hget : forall w0,
             (if isRaw then storage_getItemRaw context key else storage_getItem context key) w0
             = match Fs.r node dir key with
               | Throw e => (Throw e, w0)
               | Ok f =>
                   let '(r, w1) := Fs.readFile node f (if isRaw then None else Some "utf8") w0 in
                   (match r with
                    | Ok v => Ok (if isRaw then v else destr v)
                    | Throw e => Throw e
                    end, w1)
               end).
  { intros w0. unfold storage_getItemRaw, storage_getItem.
    rewrite Hk. unfold context. rewrite root_only_mount.
    unfold with_driver. cbn [Storage.driver relativeKey getItemRaw getItem asyncCall d
                             Fs.driver_object].
    destruct isRaw; destruct (Fs.r node dir key) as [f|e]; cbn [Fs.with_path];
      try reflexivity.
    - now destruct (Fs.readFile node f None w0) as [[v|e] w1].
    - unfold bind. now destruct (Fs.readFile node f (Some "utf8") w0) as [[v|e] w1]. }
  split.
  - intros Hpat.
    assert (Hr : Fs.r node dir key = Throw (InvalidKey "fs" key)).
    { unfold Fs.r. apply test_traverse_iff in Hpat. now rewrite Hpat. }
    unfold createH3StorageHandler.
    cbn [resolvePath opts path event method authorize]. rewrite Hleaf.
    cbn [MethodToTypeMap String.eqb Ascii.eqb Bool.eqb].
    unfold getRequestHeader. change (headers event) with hdrs. fold isRaw. fold key.
    unfold bind at 1. unfold lift at 1. now rewrite Hget, Hr.
  - intros Hnot v w1 Hread driverValue.
    assert (Hr : Fs.r node dir key = Ok file).
    { unfold Fs.r. destruct (Regex.test Fs.PATH_TRAVERSE_RE key) eqn:E; [|reflexivity].
      apply test_traverse_iff in E. contradiction. }
    assert (Hget' : (if isRaw then storage_getItemRaw context key
                     else storage_getItem context key) w = (Ok driverValue, w1)).
    { rewrite Hget, Hr. cbv zeta. now rewrite Hread. }
    destruct (http_get_leaf_with_meta context p hdrs None hs w driverValue w1
                Hleaf Hget') as [H404 Hval].
    split; [exact H404|].
    intros Hnn text Htext. unfold opts, event.
    destruct (Fs.stat node file w1) as [[m|e] w2] eqn:Estat.
    + destruct (Hval Hnn w2) as [_ Hmeta].
      rewrite (Hmeta {| atime := atime m; mtime := mtime m; ctime := ctime m;
                        birthtime := birthtime m; size := size m; ttl := None |} text).
      * unfold meta_headers. cbn [mtime ttl]. now rewrite app_nil_r.
      * unfold storage_getMeta. fold key. rewrite Hk. unfold context. rewrite root_only_mount.
        unfold with_driver. cbn [Storage.driver relativeKey getMeta asyncCall d
                                 Fs.driver_object].
        rewrite Hr. cbn [Fs.with_path]. unfold bind, catch. now rewrite Estat.
      * exact Htext.
    + destruct (Hval Hnn w2) as [_ Hmeta].
      rewrite (Hmeta {| atime := None; mtime := None; ctime := None;
                        birthtime := None; size := None; ttl := None |} text).
      * unfold meta_headers. cbn [mtime ttl]. now rewrite app_nil_r.
      * unfold storage_getMeta. fold key. rewrite Hk. unfold context. rewrite root_only_mount.
        unfold with_driver. cbn [Storage.driver relativeKey getMeta asyncCall d
                                 Fs.driver_object].
        rewrite Hr. cbn [Fs.with_path]. unfold bind, catch. now rewrite Estat.
      * exact Htext.
Qed.

End HttpFs.

Section HttpExamples.
Import Storage Types Server JsString Utils Memory Scenario.

(** PUT /foo with the body "bar", then DELETE /foo, on the default storage. *)
Lemma http_put_delete_memory_witness :
  let context := createStorage (Some (memory 0)) (memory 0) in
  let h1 := heap_upd heap0 0 [("foo", VString "bar")] in
  NoDup (JsMap.keys (heap0 0))
  /\ createH3StorageHandler (H := plain_externals) context no_hooks
       {| method := "PUT"; path := "/foo"; headers := []; body := Some "bar" |}
       ([], heap0)
     = (Ok (BodyText "OK"), ([], h1))
  /\ storage_getItemRaw (H := plain_externals) context "/foo" h1
     = (Ok (VString "bar"), h1)
  /\ fst (createH3StorageHandler (H := plain_externals) context no_hooks
            {| method := "DELETE"; path := "/foo"; headers := []; body := None |}
            ([], h1))
     = Ok (BodyText "OK").
Proof.
  intros context h1.
  assert (Hleaf : match lastChar "/foo" with
                  | Some c => Ascii.eqb c ":" || Ascii.eqb c "/"
                  | None => false
                  end = false) by reflexivity.
  assert (Hnd : NoDup (JsMap.keys (heap0 0))) by constructor.
  destruct (http_put_delete_memory (H := plain_externals) 0 "/foo" "bar" [] heap0
              Hleaf Hnd) as (Hput & Hraw & Hdel & _).
  split; [exact Hnd|]. split; [exact Hput|]. split; [exact Hraw|].
  exact (f_equal fst Hdel).
Defined.

(** GET /s1/a.txt on the logging file system: the file is read and [stat]
    is asked once; its record has no [mtime], so no header is set. *)
Lemma http_get_fs_storage_witness :
  let d := Fs.driver_object logging_fs 5
             {| Fs.base := Some "/data"; Fs.readOnly := false; Fs.noClear := false |}
             "/data" in
  let context := createStorage (Some d) d in
  let files := [("/data/s1/a.txt", "ok")] in
  ~ Fs.traversal_pattern (normalizeKey (Some "/s1/a.txt"))
  /\ createH3StorageHandler (H := plain_externals) context
       {| authorize := None; resolvePath := None |}
       {| method := "GET"; path := "/s1/a.txt"; headers := []; body := None |}
       ([], (files, []))
     = (Ok (BodyText "ok"), ([], (files, ["/data/s1/a.txt"; "/data/s1/a.txt"]))).
Proof.
  intros d context files.
  assert (Hleaf : match lastChar "/s1/a.txt" with
                  | Some c => Ascii.eqb c ":" || Ascii.eqb c "/"
                  | None => false
                  end = false) by reflexivity.
  assert (Hnot : ~ Fs.traversal_pattern (normalizeKey (Some "/s1/a.txt"))).
  { intros Hpat. apply test_traverse_iff in Hpat. vm_compute in Hpat. discriminate. }
  destruct (http_get_fs_storage (H := plain_externals) logging_fs 5
              {| Fs.base := Some "/data"; Fs.readOnly := false; Fs.noClear := false |}
              "/data" "/s1/a.txt" [] [] (files, []) Hleaf) as [_ Hok].
  split; [exact Hnot|].
  destruct (Hok Hnot (VString "ok") (files, ["/data/s1/a.txt"]) eq_refl) as [_ Hval].
  assert (Hnn : VString "ok" <> VNull) by discriminate.
  exact (Hval Hnn "ok" eq_refl).
Defined.

End HttpExamples.

(** ** Keys under a base: what the engine makes of [base + key] *)

Section KeysUnderBase.
Import Utils JsString KeyShape.

Lemma collapse_colons_colon K :
  collapse_colons (String ":" K) = String ":" (strip_leading (collapse_colons K)).
Proof.
  destruct K as [|y K']; [reflexivity|].
  rewrite (collapse_colons_cons ":"). cbn [Ascii.eqb Bool.eqb].
  destruct (Ascii.eqb y ":") eqn:Ey.
  - apply Ascii.eqb_eq in Ey. subst y.
    destruct (collapse_colons_head K') as [u ->]. reflexivity.
  - rewrite (collapse_colons_other _ _ Ey). cbn [strip_leading]. now rewrite Ey.
Qed.

Lemma normalizeKey_colon k :
  normalizeKey (Some (":" ++ k)) = normalizeKey (Some k).
Proof.
  rewrite !normalizeKey_pipeline. unfold strip_ends.
  change (":" ++ k) with (String ":" k).
  cbn [split_query replace_slashes is_slash Ascii.eqb Bool.eqb orb].
  rewrite collapse_colons_colon. reflexivity.
Qed.

(** A non-empty normalized key, a colon and any text: the text is normalized
    on its own and joined on, or dropped when nothing is left of it. *)
Lemma normalizeKey_under n k :
  normalized n = true -> n <> "" ->
  normalizeKey (Some (n ++ ":" ++ k))
  = match normalizeKey (Some k) with
    | "" => n
    | nk => n ++ ":" ++ nk
    end.
Proof.
  intros Hn Hne. destruct (normalized_parts _ Hn) as (Hq & Hs & Hd & Hl & Ht).
  rewrite !normalizeKey_pipeline. unfold strip_ends.
  rewrite (split_query_app _ _ Hq).
  change (split_query (":" ++ k)) with (":" ++ split_query k).
  rewrite replace_slashes_app, (replace_slashes_id _ Hs).
  change (replace_slashes (":" ++ split_query k))
    with (String ":" (replace_slashes (split_query k))).
  set (K := replace_slashes (split_query k)).
  rewrite (collapse_colons_app _ _ Hd Ht), collapse_colons_colon.
  set (u := strip_leading (collapse_colons K)).
  assert (Hu : noleading u = true)
    by apply noleading_strip_leading, collapse_colons_nodouble.
  rewrite strip_leading_id.
  2:{ destruct n; [congruence|exact Hl]. }
  destruct u as [|c u'] eqn:Eu.
  - change (n ++ String ":" "") with (n ++ ":"). now rewrite strip_trailing_app_colon.
  - rewrite strip_trailing_app by discriminate. rewrite strip_trailing_cons.
    destruct (strip_trailing (String c u')) as [|d t] eqn:Est; [|reflexivity].
    apply strip_trailing_empty in Est as [Est|Est]; [discriminate|].
    injection Est as -> ->. discriminate.
Qed.


Lemma driver_normalizeKey_id k :
  normalized k = true -> DriverUtils.normalizeKey (Some k) ":" = k.
Proof.
  intros Hn. destruct (normalized_parts _ Hn) as (_ & Hs & _ & Hl & Ht).
  unfold DriverUtils.normalizeKey. destruct k as [|c r] eqn:E; [reflexivity|].
  rewrite <- E in *. rewrite (replace_seps_colon _ Hs).
  rewrite <- (replaceChar_same ":" k).
  rewrite (driver_strip_leading_id ":" _ Hs Hl).
  apply (driver_strip_trailing_id ":" _ Hs Ht).
Qed.

Lemma join_nonempty (xs : list string) :
  Forall (fun x => x <> "") xs -> join ":" xs = "" -> xs = [].
Proof.
  destruct xs as [|x rest]; [reflexivity|].
  intros Hall Hj. apply Forall_inv in Hall. exfalso. apply Hall.
  cbn [join] in Hj. destruct rest; [exact Hj|].
  destruct x; [reflexivity|discriminate].
Qed.

(** The engine's [joinKeys] on normalized segments: the empty segments drop
    out and the others are joined with single colons. *)
Lemma joinKeys_normalized_segments ks :
  Forall (fun k => normalized k = true) ks ->
  joinKeys ks = join ":" (filter (fun k => negb (String.eqb k "")) ks).
Proof.
  unfold joinKeys. induction ks as [|x rest IH]; [reflexivity|].
  intros Hall. inversion Hall as [|? ? Hx Hrest]; subst. specialize (IH Hrest).
  destruct rest as [|y rest'].
  - cbn [join filter]. rewrite (normalizeKey_fixes_normalized _ Hx).
    now destruct x.
  - change (join ":" (x :: y :: rest')) with (x ++ ":" ++ join ":" (y :: rest')).
    change (filter (fun k => negb (String.eqb k "")) (x :: y :: rest'))
      with (if negb (String.eqb x "")
            then x :: filter (fun k => negb (String.eqb k "")) (y :: rest')
            else filter (fun k => negb (String.eqb k "")) (y :: rest')).
    destruct x as [|c x'].
    + cbn [String.eqb negb]. change ("" ++ ":" ++ join ":" (y :: rest'))
        with (":" ++ join ":" (y :: rest')).
      now rewrite normalizeKey_colon.
    + cbn [String.eqb negb]. rewrite (normalizeKey_under _ _ Hx) by discriminate.
      rewrite IH.
      set (F := filter (fun k => negb (String.eqb k "")) (y :: rest')).
      assert (HF : Forall (fun x => x <> "") F).
      { apply Forall_forall. intros z Hz. apply filter_In in Hz as [_ Hz].
        intros ->. discriminate. }
      destruct (join ":" F) as [|d t] eqn:EJ.
      * apply (join_nonempty _ HF) in EJ. now rewrite EJ.
      * destruct F as [|f F']; [discriminate|].
        change (join ":" (String c x' :: f :: F'))
          with (String c x' ++ ":" ++ join ":" (f :: F')).
        now rewrite EJ.
Qed.

(** X22.  The two [joinKeys] of the repository agree on normalized
    segments: for segments that the engine has normalized, [joinKeys] of
    [drivers/utils] and [joinKeys] of [utils] both drop the empty segments
    and join the others with single colons; the result is a normalized
    key. *)
Theorem driver_joinKeys_agrees (keys : list (option string)) :
  let segments := map normalizeKey keys in
  DriverUtils.joinKeys segments = joinKeys segments
  /\ joinKeys segments
     = join ":" (filter (fun k => negb (String.eqb k "")) segments)
  /\ normalized (joinKeys segments) = true.
Proof.
  intros segments.
  assert (Hall : Forall (fun k => normalized k = true) segments).
  { apply Forall_forall. intros k Hk. apply in_map_iff in Hk as (key & <- & _).
    apply normalizeKey_normalized. }
  split; [|split; [now apply joinKeys_normalized_segments|apply normalizeKey_normalized]].
  rewrite (joinKeys_normalized_segments _ Hall). unfold DriverUtils.joinKeys.
  f_equal. f_equal. rewrite <- (map_id segments) at 2.
  apply map_ext_in. intros k Hk. rewrite Forall_forall in Hall.
  now apply driver_normalizeKey_id, Hall.
Qed.

End KeysUnderBase.

(** ** [prefixStorage] *)

Section PrefixStorageNesting.
Context {S D : Type}.
Import Types JsString Utils KeyShape PrefixStorage.
Implicit Types (storage : Storage (S := S) (D := D)).

Lemma slice_slice n m s : slice m (slice n s) = slice (n + m) s.
Proof.
  revert s. induction n as [|n IH]; intros s; [reflexivity|].
  destruct s as [|c r]; cbn [slice Nat.add]; [now destruct m|apply IH].
Qed.

Lemma prefixStorage_nonempty storage base :
  normalizeBaseKey (Some base) <> "" ->
  prefixStorage storage base = nsStorage storage (normalizeBaseKey (Some base)).
Proof.
  unfold prefixStorage. now destruct (normalizeBaseKey (Some base)).
Qed.

Lemma normalizeBaseKey_nonempty (base : option string) :
  normalizeKey base <> "" -> normalizeBaseKey base = normalizeKey base ++ ":".
Proof. unfold normalizeBaseKey. now destruct (normalizeKey base). Qed.

Lemma string_app_nonempty (a b : string) : a <> "" -> a ++ b <> "".
Proof. now destruct a. Qed.

Lemma normalizeBaseKey_joined na nb :
  normalized na = true -> na <> "" -> normalized nb = true -> nb <> "" ->
  normalizeBaseKey (Some (na ++ ":" ++ nb)) = (na ++ ":") ++ nb ++ ":".
Proof.
  intros Ha Hane Hb Hbne.
  assert (E : normalizeKey (Some (na ++ ":" ++ nb)) = na ++ ":" ++ nb).
  { rewrite (normalizeKey_under _ _ Ha Hane), (normalizeKey_fixes_normalized _ Hb).
    now destruct nb. }
  rewrite normalizeBaseKey_nonempty; rewrite E.
  - now rewrite !string_app_assoc.
  - now apply string_app_nonempty.
Qed.

(** X23.  Prefixes nest.  Wrapping a storage with the base [a] and the
    result with the base [b] (both non-empty after normalization) gives an
    object whose methods do what the methods of the storage wrapped once,
    with the two normalized bases joined by a colon, do: the same key reaches
    the underlying storage, and [getKeys] and [getItems] cut the same prefix
    off the keys they return.  A base that normalizes to the empty key gives
    the storage itself. *)
Theorem prefixStorage_nested storage (a b : string) :
  let na := normalizeKey (Some a) in
  let nb := normalizeKey (Some b) in
  (na = "" -> prefixStorage storage a = storage)
  /\ (na <> "" -> nb <> "" ->
      let nested := prefixStorage (prefixStorage storage a) b in
      let flat := prefixStorage storage (na ++ ":" ++ nb) in
      (forall key, hasItem nested key = hasItem flat key)
      /\ (forall key, getItem nested key = getItem flat key)
      /\ (forall key, getItemRaw nested key = getItemRaw flat key)
      /\ (forall key v, setItem nested key v = setItem flat key v)
      /\ (forall key v, setItemRaw nested key v = setItemRaw flat key v)
      /\ (forall key, removeItem nested key = removeItem flat key)
      /\ (forall key, getMeta nested key = getMeta flat key)
      /\ (forall key opts s, getKeys nested key opts s = getKeys flat key opts s)
      /\ (forall key, clear nested key = clear flat key)
      /\ (forall key driver, mount nested key driver = mount flat key driver)
      /\ (forall key, unmount nested key = unmount flat key)
      /\ (forall items s, getItems nested items s = getItems flat items s)
      /\ (forall items, setItems nested items = setItems flat items)).
Proof.
  intros na nb. split.
  - intros E. unfold prefixStorage, normalizeBaseKey. fold na. now rewrite E.
  - intros Hane Hbne nested flat.
    assert (Ha : normalizeBaseKey (Some a) = na ++ ":")
      by now apply normalizeBaseKey_nonempty.
    assert (Hb : normalizeBaseKey (Some b) = nb ++ ":")
      by now apply normalizeBaseKey_nonempty.
    assert (Hc : normalizeBaseKey (Some (na ++ ":" ++ nb)) = (na ++ ":") ++ nb ++ ":").
    { apply normalizeBaseKey_joined; auto; apply normalizeKey_normalized. }
    unfold nested, flat.
    rewrite !prefixStorage_nonempty;
      rewrite ?Ha, ?Hb, ?Hc; try (repeat apply string_app_nonempty; assumption).
    set (pa := na ++ ":"). set (pb := nb ++ ":").
    cbn [nsStorage hasItem getItem getItemRaw setItem setItemRaw removeItem getMeta
         getKeys clear mount unmount getItems setItems default_key].
    assert (Hassoc : forall k, pa ++ pb ++ k = (pa ++ pb) ++ k)
      by (intros k; now rewrite string_app_assoc).
    repeat split; intros; rewrite ?Hassoc; try reflexivity.
    + unfold bind, ret.
      destruct (getKeys storage (Some ((pa ++ pb) ++ default_key key)) opts s)
        as [[keys|e] s']; [|reflexivity].
      rewrite map_map. do 2 f_equal. apply map_ext. intros k.
      now rewrite slice_slice, string_length_app.
    + unfold bind, ret. rewrite map_map.
      rewrite (map_ext (fun x => prefix_item pa (prefix_item pb x))
                       (prefix_item (pa ++ pb))).
      2:{ intros [k|k v]; cbn [prefix_item]; now rewrite string_app_assoc. }
      destruct (getItems storage (map (prefix_item (pa ++ pb)) items) s)
        as [[rs|e] s']; [|reflexivity].
      rewrite map_map. do 2 f_equal. apply map_ext. intros [k v]. cbn [fst snd].
      now rewrite slice_slice, string_length_app.
    + rewrite map_map. f_equal. apply map_ext. intros [k v]. cbn [fst snd].
      now rewrite string_app_assoc.
Qed.

End PrefixStorageNesting.

Section PrefixedEngine.
Context {W : Type} `{Externals}.
Import Types JsString Utils KeyShape Storage PrefixStorage.
Variable batch_methods : Driver W -> StorageBatch.BatchMethods (W := W).

Lemma normalizeKey_twice (k : string) :
  normalizeKey (Some (normalizeKey (Some k))) = normalizeKey (Some k).
Proof. apply normalizeKey_fixes_normalized, normalizeKey_normalized. Qed.

(** The key a prefixed storage hands on and the joined key normalize
    alike. *)
Lemma prefixed_key_normalizes (b k : string) :
  normalizeKey (Some (normalizeBaseKey (Some b) ++ k))
  = normalizeKey (Some (joinKeys [normalizeKey (Some b); k])).
Proof.
  unfold joinKeys. rewrite normalizeKey_twice.
  change (join ":" [normalizeKey (Some b); k])
    with (normalizeKey (Some b) ++ ":" ++ k).
  unfold normalizeBaseKey.
  destruct (normalizeKey (Some b)) as [|c r] eqn:E.
  - change ("" ++ k) with k. symmetry. apply normalizeKey_colon.
  - now rewrite string_app_assoc.
Qed.

(** X24.  A prefixed view of the engine addresses the joined key: an item
    method called on [prefixStorage(storage, b)] with the key [key] does what
    the same method of the storage does with [joinKeys(normalizeKey(b), key)],
    for every base [b] (one that normalizes to the empty key included) and
    every key (one that is left out included).  So keys that normalize alike
    are the same key through the view as well. *)
Theorem prefixStorage_engine_key (b : string) (key : option string) (v : value)
    (s : StorageCTX (W := W) * W) :
  let storage := engine batch_methods in
  let view := prefixStorage storage b in
  let joined := Some (joinKeys [normalizeKey (Some b); default_key key]) in
  hasItem view key s = hasItem storage joined s
  /\ getItem view key s = getItem storage joined s
  /\ getItemRaw view key s = getItemRaw storage joined s
  /\ setItem view key v s = setItem storage joined v s
  /\ setItemRaw view key v s = setItemRaw storage joined v s
  /\ removeItem view key s = removeItem storage joined s
  /\ getMeta view key s = getMeta storage joined s
  /\ (forall key', normalizeKey key' = normalizeKey key ->
      hasItem view key' s = hasItem view key s
      /\ getItem view key' s = getItem view key s
      /\ getItemRaw view key' s = getItemRaw view key s
      /\ setItem view key' v s = setItem view key v s
      /\ setItemRaw view key' v s = setItemRaw view key v s
      /\ removeItem view key' s = removeItem view key s
      /\ getMeta view key' s = getMeta view key s).
Proof.
  intros storage view joined.
  pose proof (prefixed_key_normalizes b (default_key key)) as Hk.
  assert (Hview :
    forall key0,
      exists k0, normalizeKey (Some k0)
                 = normalizeKey (Some (normalizeBaseKey (Some b) ++ default_key key0))
      /\ hasItem view key0 = hasItem storage (Some k0)
      /\ getItem view key0 = getItem storage (Some k0)
      /\ getItemRaw view key0 = getItemRaw storage (Some k0)
      /\ setItem view key0 v = setItem storage (Some k0) v
      /\ setItemRaw view key0 v = setItemRaw storage (Some k0) v
      /\ removeItem view key0 = removeItem storage (Some k0)
      /\ getMeta view key0 = getMeta storage (Some k0)).
  { intros key0. unfold view, prefixStorage.
    destruct (normalizeBaseKey (Some b)) as [|c r] eqn:E.
    - exists (default_key key0). change ("" ++ default_key key0) with (default_key key0).
      now repeat split.
    - exists (String c r ++ default_key key0). now repeat split. }
  assert (Hnorm :
    forall k1 k2, normalizeKey (Some k1) = normalizeKey (Some k2) ->
      hasItem storage (Some k1) s = hasItem storage (Some k2) s
      /\ getItem storage (Some k1) s = getItem storage (Some k2) s
      /\ getItemRaw storage (Some k1) s = getItemRaw storage (Some k2) s
      /\ setItem storage (Some k1) v s = setItem storage (Some k2) v s
      /\ setItemRaw storage (Some k1) v s = setItemRaw storage (Some k2) v s
      /\ removeItem storage (Some k1) s = removeItem storage (Some k2) s
      /\ getMeta storage (Some k1) s = getMeta storage (Some k2) s).
  { intros k1 k2 E. unfold storage.
    cbn [engine hasItem getItem getItemRaw setItem setItemRaw removeItem getMeta
         default_key].
    unfold on_world, storage_hasItem, storage_getItem, storage_getItemRaw,
      storage_setItem, storage_setItemRaw, storage_removeItem, storage_getMeta.
    rewrite E. now repeat split. }
  destruct (Hview key) as (k0 & E0 & Vh & Vg & Vr & Vs & Vsr & Vd & Vm).
  assert (Ej : normalizeKey (Some k0)
               = normalizeKey (Some (joinKeys [normalizeKey (Some b); default_key key])))
    by now rewrite E0.
  destruct (Hnorm _ _ Ej) as (Nh & Ng & Nr & Ns & Nsr & Nd & Nm).
  rewrite Vh, Vg, Vr, Vs, Vsr, Vd, Vm.
  do 7 (split; [assumption|]).
  intros key' Ek.
  destruct (Hview key') as (k1 & E1 & Vh' & Vg' & Vr' & Vs' & Vsr' & Vd' & Vm').
  rewrite Vh', Vg', Vr', Vs', Vsr', Vd', Vm'.
  apply Hnorm. rewrite E1, E0.
  assert (Ed : normalizeKey (Some (default_key key'))
               = normalizeKey (Some (default_key key))).
  { destruct key' as [k'|], key as [k|]; cbn [default_key]; auto. }
  rewrite !prefixed_key_normalizes. unfold joinKeys.
  change (join ":" [normalizeKey (Some b); default_key key'])
    with (normalizeKey (Some b) ++ ":" ++ default_key key').
  change (join ":" [normalizeKey (Some b); default_key key])
    with (normalizeKey (Some b) ++ ":" ++ default_key key).
  rewrite !normalizeKey_twice.
  destruct (normalizeKey (Some b)) as [|c r] eqn:Eb.
  - change ("" ++ ":" ++ default_key key') with (":" ++ default_key key').
    change ("" ++ ":" ++ default_key key) with (":" ++ default_key key).
    now rewrite !normalizeKey_colon.
  - assert (Hn : normalized (String c r) = true)
      by (rewrite <- Eb; apply normalizeKey_normalized).
    rewrite !(normalizeKey_under (String c r)) by (auto; discriminate).
    now rewrite Ed.
Qed.

End PrefixedEngine.

(** ** A read-only file-system driver *)

Section FsReadOnly.
Context {W : Type} `{Externals} (node : Fs.NodeFs (W := W)).
Import Types JsString Utils Storage Fs.

(** The driver that serves a key of a reachable context is in [mounts]. *)
Lemma getMount_driver_mounted (context : StorageCTX (W := W)) k :
  reachable context ->
  exists d, Storage.driver (getMount context k) = Some d
            /\ JsMap.get (mounts context) (Storage.base (getMount context k)) = Some d.
Proof.
  intros Hreach. pose proof (reachable_mount_inv _ Hreach) as Hinv.
  destruct (getMount_routes context k Hinv) as (Hin & _).
  destruct Hinv as (_ & _ & _ & _ & Hiff).
  apply Hiff in Hin. unfold JsMap.has in Hin.
  rewrite getMount_driver_lookup.
  destruct (JsMap.get (mounts context) (Storage.base (getMount context k))) as [d|];
    [now exists d|discriminate].
Qed.

Lemma getMounts_driver_mounted (context : StorageCTX (W := W)) b includeParent e :
  In e (getMounts context b includeParent) ->
  mdriver e = JsMap.get (mounts context) (mountpoint e).
Proof.
  unfold getMounts. intros He. apply in_map_iff in He as (mp & <- & _). reflexivity.
Qed.

(** X25.  A storage whose drivers are all file-system drivers with
    [readOnly] never writes: [setItem], [setItemRaw], [removeItem] and
    [clear] resolve and leave the world as it is, for every key and base.
    The key is not looked at, so one with ".." segments is not refused
    either. *)
Theorem fs_readOnly_never_writes (context : StorageCTX (W := W)) :
  reachable context ->
  (forall b d, JsMap.get (mounts context) b = Some d ->
     exists id userOptions dir,
       d = driver_object node id userOptions dir /\ readOnly userOptions = true) ->
  forall w,
    (forall base, storage_clear context base w = (Ok tt, w))
    /\ (forall key v,
          storage_setItem context key v w = (Ok tt, w)
          /\ storage_setItemRaw context key v w = (Ok tt, w)
          /\ storage_removeItem context key w = (Ok tt, w)).
Proof.
  intros Hreach Hfs w. split.
  - intros b. unfold storage_clear.
    set (nb := normalizeBaseKey b).
    unfold bind.
    rewrite (mapM_ext_in _ (fun _ => ret tt)).
    + rewrite (mapM_pure _ (fun _ _ => tt)); [reflexivity|]. now intros.
    + intros e He w0.
      destruct (getMounts_driver context nb true e Hreach He) as (d & Hd).
      pose proof Hd as Hm. rewrite (getMounts_driver_mounted _ _ _ _ He) in Hm.
      destruct (Hfs _ _ Hm) as (id & o & dir & -> & Hro).
      unfold entry_driver. rewrite Hd.
      cbn [clear driver_object asyncCall]. now rewrite Hro.
  - intros key v.
    destruct (getMount_driver_mounted context (normalizeKey (Some key)) Hreach)
      as (d & Hd & Hm).
    destruct (Hfs _ _ Hm) as (id & o & dir & -> & Hro).
    unfold storage_setItem, storage_setItemRaw, storage_removeItem, with_driver.
    rewrite Hd. cbn [setItemRaw removeItem driver_object asyncCall].
    now rewrite Hro.
Qed.

End FsReadOnly.

Section FsReadOnlyExample.
Import Types Fs Scenario.

(** A read-only driver on the logging file system: writing "a/../b" and
    clearing leave the files and the log of accessed paths as they are. *)
Lemma fs_readOnly_never_writes_witness :
  let d := driver_object logging_fs 5 {| base := Some "/data"; readOnly := true;
                                         noClear := false |} "/data" in
  let context := Storage.createStorage (Some d) d in
  let w : FsWorld := ([("/data/a", "1")], []) in
  Storage.reachable context
  /\ Storage.storage_clear context None w = (Ok tt, w)
  /\ Storage.storage_setItem (H := plain_externals) context "a/../b" (VString "2") w
     = (Ok tt, w).
Proof.
  intros d context w.
  assert (Hreach : Storage.reachable context) by apply Storage.reach_create.
  assert (Hfs : forall b d0, JsMap.get (Storage.mounts context) b = Some d0 ->
     exists id userOptions dir,
       d0 = driver_object logging_fs id userOptions dir
       /\ readOnly userOptions = true).
  { intros b d0. unfold context. cbn [Storage.createStorage Storage.mounts JsMap.get].
    destruct (String.eqb "" b); [|discriminate].
    intros [= <-]. now exists 5, {| base := Some "/data"; readOnly := true;
                                    noClear := false |}, "/data". }
  destruct (fs_readOnly_never_writes (H := plain_externals) logging_fs context
              Hreach Hfs w) as (Hclear & Hwrite).
  split; [exact Hreach|]. split; [apply Hclear|].
  exact (proj1 (Hwrite "a/../b" (VString "2"))).
Defined.

End FsReadOnlyExample.
